(** * A caching HTTP/1.x forward proxy: embedding and verification

    The development embeds the message parser ([http.cpp]), the
    cache-control evaluator ([http.cpp]), the direct-mapped cache
    ([cache.hpp]) and the decision logic of the two half-connections
    ([connection.cpp]) as Rocq functions, and proves properties of them.

    Conventions.
    - [std::string] is [string]; positions are [nat], and the results of
      [find]-like members are [option nat] with [None] for [npos].
    - [size_t] values that the code does arithmetic on are [Z] with the
      wrap-around modulo [2^64] written out.
    - [std::chrono] time points and durations are [Z] (clock ticks),
      with the wrap-around of their 64-bit count written out ([int64]).
    - A call that may throw or whose behaviour is undefined returns a
      [result]. *)

From Stdlib Require Import ZArith Lia Bool Ascii String.
From stdpp Require Import base list strings.

Open Scope string_scope.
Open Scope list_scope.
Open Scope Z_scope.

(** ** Exceptions and undefined behaviour *)

Inductive exception : Type :=
  | ParseError (what_ : string)
  | length_error
  | system_error
      (* boost::system::system_error, from socket.remote_endpoint() *).

Inductive result (A : Type) : Type :=
  | Ok (a : A)
  | Throw (e : exception)
  | Undefined.

Arguments Ok {A} a.
Arguments Throw {A} e.
Arguments Undefined {A}.

#[global] Instance result_ret : MRet result := fun A a => Ok a.
#[global] Instance result_bind : MBind result := fun A B k r =>
  match r with
  | Ok a => k a
  | Throw e => Throw e
  | Undefined => Undefined
  end.

(** [try { ... } catch (const ParseError&) { }] around a computation that
    produces a new value of the state: a [ParseError] leaves the state as
    it was before the statement that threw. *)
Definition catch_ParseError {A} (r : result A) (dflt : A) : result A :=
  match r with
  | Throw (ParseError _) => Ok dflt
  | _ => r
  end.

(** ** Characters (the "C" locale) *)

Definition char_code (c : ascii) : Z := Z.of_N (N_of_ascii c).

Definition isdigit (c : ascii) : bool :=
  (48 <=? char_code c) && (char_code c <=? 57).
Definition isupper (c : ascii) : bool :=
  (65 <=? char_code c) && (char_code c <=? 90).
Definition islower (c : ascii) : bool :=
  (97 <=? char_code c) && (char_code c <=? 122).
Definition isalpha (c : ascii) : bool := isupper c || islower c.
Definition isspace (c : ascii) : bool :=
  (char_code c =? 32) || ((9 <=? char_code c) && (char_code c <=? 13)).

Definition toupper (c : ascii) : ascii :=
  if islower c then ascii_of_N (N_of_ascii c - 32) else c.
Definition tolower (c : ascii) : ascii :=
  if isupper c then ascii_of_N (N_of_ascii c + 32) else c.

(** ** [std::string] *)

Definition size_t_modulus : Z := 2 ^ 64.
Definition wrap (z : Z) : Z := z mod size_t_modulus.

Definition size (s : string) : Z := Z.of_nat (String.length s).

Fixpoint drop_str (n : nat) (s : string) : string :=
  match n, s with
  | O, _ => s
  | S n', String _ s' => drop_str n' s'
  | S _, EmptyString => EmptyString
  end.

Fixpoint take_str (n : nat) (s : string) : string :=
  match n, s with
  | S n', String c s' => String c (take_str n' s')
  | _, _ => EmptyString
  end.

(** [s.substr(pos, count)]: the characters in [[pos, min(pos+count, size))].
    [count] is a [size_t]; the callers compute it by an unsigned
    subtraction, so it is taken modulo [2^64] by them.  (The member throws
    [std::out_of_range] when [pos > size]; every call site in the program
    passes a position it has just found in [s], or one past it.) *)
Definition substr (s : string) (pos : nat) (count : Z) : string :=
  take_str (Z.to_nat (Z.min count (size s - Z.of_nat pos))) (drop_str pos s).

(** [s.substr(pos)]. *)
Definition substr_from (s : string) (pos : nat) : string := drop_str pos s.

Fixpoint mem_char (c : ascii) (chars : string) : bool :=
  match chars with
  | EmptyString => false
  | String d chars' => (c =? d)%char || mem_char c chars'
  end.

Fixpoint find_if (P : ascii -> bool) (s : string) : option nat :=
  match s with
  | EmptyString => None
  | String c s' => if P c then Some O else option_map S (find_if P s')
  end.

Fixpoint find_last_if (P : ascii -> bool) (s : string) : option nat :=
  match s with
  | EmptyString => None
  | String c s' =>
      match find_last_if P s' with
      | Some i => Some (S i)
      | None => if P c then Some O else None
      end
  end.

Definition find_from (P : ascii -> bool) (s : string) (pos : nat) : option nat :=
  option_map (Nat.add pos) (find_if P (drop_str pos s)).

(** [s.find_first_of(chars, pos)] *)
Definition find_first_of (s chars : string) (pos : nat) : option nat :=
  find_from (fun c => mem_char c chars) s pos.

(** [s.find_first_not_of(chars, pos)] *)
Definition find_first_not_of (s chars : string) (pos : nat) : option nat :=
  find_from (fun c => negb (mem_char c chars)) s pos.

(** [s.find_last_not_of(chars)] *)
Definition find_last_not_of (s chars : string) : option nat :=
  find_last_if (fun c => negb (mem_char c chars)) s.

(** [s.find(ch, pos)] *)
Definition find_char (s : string) (ch : ascii) (pos : nat) : option nat :=
  find_from (fun c => (c =? ch)%char) s pos.

(** [s.find(needle) != npos] *)
Definition contains (s needle : string) : bool :=
  match String.index 0 needle s with
  | Some _ => true
  | None => false
  end.

(** [boost::starts_with(s, prefix)] *)
Definition starts_with (s prefix : string) : bool := String.prefix prefix s.

(** [strncasecmp(s.c_str(), lit, strlen(lit)) == 0] for a literal [lit]
    without NUL: the first [strlen(lit)] characters of [s] equal [lit] up
    to the case of ASCII letters. *)
Fixpoint strncasecmp_eq (s lit : string) : bool :=
  match lit, s with
  | EmptyString, _ => true
  | String d lit', String c s' =>
      (tolower c =? tolower d)%char && strncasecmp_eq s' lit'
  | String _ _, EmptyString => false
  end.

(** ** [HttpUrl] ([http.hpp], [http.cpp]) *)

Inductive Protocol : Type := NONE | HTTP | HTTPS.

Record HttpUrl : Type := mkHttpUrl {
  protocol : Protocol;
  host : string;
  port : string;
  path : string
}.

Definition default_port (p : Protocol) : string :=
  match p with HTTP => "80" | _ => "443" end.

(** The scheme detection at the head of [HttpUrl::HttpUrl]: the protocol
    and the position [last] where the authority starts. *)
Definition url_scheme (url : string) : Protocol * nat :=
  if strncasecmp_eq url "http://" then (HTTP, 7%nat)
  else if strncasecmp_eq url "https://" then (HTTPS, 8%nat)
  else (NONE, 0%nat).

(** [s[pos] == ch] for a position inside [s]. *)
Definition char_at_is (s : string) (pos : nat) (ch : ascii) : bool :=
  match String.get pos s with
  | Some c => (c =? ch)%char
  | None => false
  end.

(** [HttpUrl::HttpUrl(const std::string& url)] *)
Definition HttpUrl_ctor (url : string) : HttpUrl :=
  let '(protocol, last) := url_scheme url in
  match find_first_of url ":/" last with
  | Some pos =>
      let host := substr url last (wrap (Z.of_nat pos - Z.of_nat last)) in
      if char_at_is url pos ":" then
        match find_char url "/" (pos + 1)%nat with
        | Some pos1 =>
            mkHttpUrl protocol host
              (substr url (pos + 1)%nat
                 (wrap (Z.of_nat pos1 - Z.of_nat pos - 1)))
              (substr_from url pos1)
        | None =>
            mkHttpUrl protocol host (substr_from url (pos + 1)%nat) "/"
        end
      else
        mkHttpUrl protocol host (default_port protocol) (substr_from url pos)
  | None =>
      mkHttpUrl protocol (substr_from url last) (default_port protocol) "/"
  end.

(** ** Input streams

    A [std::istream] over a buffer: the unread characters and the two
    state bits the program observes.  [operator bool] is [!fail()]. *)

Record istream : Type := mkIstream {
  rdbuf : string;
  failbit : bool;
  eofbit : bool
}.

Definition istream_of (buf : string) : istream := mkIstream buf false false.

Definition good (ins : istream) : bool := negb (failbit ins) && negb (eofbit ins).

(** The characters before the first [delim], and what follows it when
    there is one. *)
Fixpoint read_until (delim : ascii) (s : string) : string * option string :=
  match s with
  | EmptyString => (EmptyString, None)
  | String c s' =>
      if (c =? delim)%char then (EmptyString, Some s')
      else let '(l, r) := read_until delim s' in (String c l, r)
  end.

(** [std::getline(ins, line, delim)] into an empty [line].  The delimiter is
    extracted and dropped.  Reaching the end of the buffer sets [eofbit];
    extracting nothing at all sets [failbit]; a stream that is not [good]
    on entry gets [failbit] and nothing is read. *)
Definition getline (ins : istream) (delim : ascii) : string * istream :=
  if good ins then
    match read_until delim (rdbuf ins) with
    | (line, Some rest) => (line, mkIstream rest false false)
    | (line, None) => (line, mkIstream EmptyString (line =? EmptyString)%string true)
    end
  else (EmptyString, mkIstream (rdbuf ins) true (eofbit ins)).

Fixpoint skip_ws (s : string) : string :=
  match s with
  | String c s' => if isspace c then skip_ws s' else s
  | EmptyString => EmptyString
  end.

(** [is >> std::ws] *)
Definition ws (ins : istream) : istream :=
  if good ins then
    let r := skip_ws (rdbuf ins) in mkIstream r false (r =? EmptyString)%string
  else mkIstream (rdbuf ins) true (eofbit ins).

(** *** Numeric extraction

    [std::num_get] for an unsigned type, as libstdc++ implements it: an
    optional sign, for base 16 an optional [0x] prefix, then the longest
    run of digits.  Without a digit the value 0 is stored and the
    extraction fails; a value above [max] stores [max] and fails; a minus
    sign negates modulo [max + 1]. *)

Definition digit_value (base : Z) (c : ascii) : option Z :=
  if isdigit c then Some (char_code c - 48)
  else if negb (base =? 16) then None
  else if (97 <=? char_code c) && (char_code c <=? 102)
       then Some (char_code c - 87)
  else if (65 <=? char_code c) && (char_code c <=? 70)
       then Some (char_code c - 55)
  else None.

(** Value and length of the longest digit prefix of [s]. *)
Fixpoint digits_run (base : Z) (s : string) (acc : Z) (n : nat) : Z * nat :=
  match s with
  | String c s' =>
      match digit_value base c with
      | Some d => digits_run base s' (acc * base + d) (S n)
      | None => (acc, n)
      end
  | EmptyString => (acc, n)
  end.

Definition strip_sign (s : string) : bool * string :=
  match s with
  | String "-" r => (true, r)
  | String "+" r => (false, r)
  | _ => (false, s)
  end.

Definition strip_hex_prefix (s : string) : string :=
  match s with
  | String "0" (String "x" r) => r
  | String "0" (String "X" r) => r
  | _ => s
  end.

Definition num_get_unsigned (base max : Z) (s : string) : bool * Z :=
  let '(negative, s1) := strip_sign s in
  let s2 := if base =? 16 then strip_hex_prefix s1 else s1 in
  let '(v, n) := digits_run base s2 0 0 in
  match n with
  | O => (false, 0)
  | S _ =>
      if v >? max then (false, max)
      else (true, if negative then (- v) mod (max + 1) else v)
  end.

(** The effect of [ss >> x] (or [ss >> std::hex >> x]) on a fresh
    [std::istringstream ss(s)] and an unsigned variable [x]: nothing is
    stored when the sentry fails (only white space before the end of the
    string), otherwise [num_get] stores a value and reports success or
    failure. *)
Inductive extraction : Type :=
  | NotAttempted
  | Stored (ok : bool) (v : Z).

Definition extract_unsigned (base max : Z) (s : string) : extraction :=
  let s1 := skip_ws s in
  if (s1 =? EmptyString)%string then NotAttempted
  else let '(ok, v) := num_get_unsigned base max s1 in Stored ok v.

Definition SIZE_MAX : Z := size_t_modulus - 1.

(** The variable after [ss >> x], and [bool(ss)]. *)
Definition extract_size_t (base : Z) (s : string) (old : Z) : bool * Z :=
  match extract_unsigned base SIZE_MAX s with
  | NotAttempted => (false, old)
  | Stored ok v => (ok, v)
  end.

(** [boost::conversion::try_lexical_convert(s, value)] for a [uint32_t]
    [value]: an optional sign followed by decimal digits up to the end of
    the string, the number at most [2^32 - 1]; a minus sign negates
    modulo [2^32]. *)
Definition try_lexical_convert_uint32 (s : string) : option Z :=
  let '(negative, s1) := strip_sign s in
  let '(v, n) := digits_run 10 s1 0 0 in
  if (n =? 0)%nat || negb (n =? String.length s1)%nat then None
  else if v >? 2 ^ 32 - 1 then None
  else Some (if negative then (- v) mod 2 ^ 32 else v).

(** Strings of control characters and the character sets given to the
    [find] members. *)
Definition CR : string := String "013" EmptyString.
Definition LF : string := String "010" EmptyString.
Definition CRLF : string := String "013" (String "010" EmptyString).
Definition SP_HT : string := String " " (String "009" EmptyString).
Definition SP_HT_CR : string :=
  String " " (String "009" (String "013" EmptyString)).

(** ** [HttpMessage] and [HttpParser] ([http.hpp], [http.cpp]) *)

Record Header : Type := mkHeader {
  key : string;
  value : string
}.

Definition StartLine : Type := (string * string * string)%type.

Record HttpMessage : Type := mkHttpMessage {
  startLine : StartLine;
  headerLines : list Header;
  body : string
}.

Definition startLine0 (m : HttpMessage) : string := (startLine m).1.1.
Definition startLine1 (m : HttpMessage) : string := (startLine m).1.2.
Definition startLine2 (m : HttpMessage) : string := (startLine m).2.

Inductive State : Type := START | HEADER | BODY | ACCEPT.
Inductive BodyFormat : Type := PLAIN | LENGTH | CHUNKED.

#[global] Instance State_eq_dec : EqDecision State.
Proof. solve_decision. Defined.
#[global] Instance BodyFormat_eq_dec : EqDecision BodyFormat.
Proof. solve_decision. Defined.

(** The parser together with the message it is bound to. *)
Record HttpParser : Type := mkHttpParser {
  message : HttpMessage;
  state : State;
  format : BodyFormat;
  contentLength : Z
}.

Definition empty_message : HttpMessage :=
  mkHttpMessage (EmptyString, EmptyString, EmptyString) [] EmptyString.

(** [HttpParser::HttpParser(HttpMessage&)] with the default member
    initialisers [format = PLAIN], [contentLength = 0], [state = START]. *)
Definition HttpParser_ctor (m : HttpMessage) : HttpParser :=
  mkHttpParser m START PLAIN 0.

Definition set_message (p : HttpParser) (m : HttpMessage) : HttpParser :=
  mkHttpParser m (state p) (format p) (contentLength p).
Definition set_state (p : HttpParser) (s : State) : HttpParser :=
  mkHttpParser (message p) s (format p) (contentLength p).
Definition set_format (p : HttpParser) (f : BodyFormat) : HttpParser :=
  mkHttpParser (message p) (state p) f (contentLength p).
Definition set_contentLength (p : HttpParser) (n : Z) : HttpParser :=
  mkHttpParser (message p) (state p) (format p) n.
Definition append_body (p : HttpParser) (bytes : string) : HttpParser :=
  set_message p
    (mkHttpMessage (startLine (message p)) (headerLines (message p))
       (body (message p) +:+ bytes)).

(** [HttpParser::putStartLine].  When the second space is missing the
    method throws after it has already stored field 0; the connection then
    answers with a canned error and [reset]s the message. *)
Definition putStartLine (p : HttpParser) (ins : istream)
  : result (HttpParser * istream) :=
  let '(line, ins) := getline ins "010" in
  if failbit ins then Ok (p, ins) else
  match find_first_of line " " 0 with
  | None => Throw (ParseError "Invalid start line (need 3 fields)")
  | Some pos0 =>
      let f0 := substr line 0 (wrap (Z.of_nat pos0 - 0)) in
      let last := (pos0 + 1)%nat in
      match find_first_of line " " last with
      | None => Throw (ParseError "Invalid start line (need 3 fields)")
      | Some pos1 =>
          let f1 := substr line last (wrap (Z.of_nat pos1 - Z.of_nat last)) in
          let last := (pos1 + 1)%nat in
          let f2 :=
            match find_first_of line CR last with
            | None => substr_from line last
            | Some pos => substr line last (wrap (Z.of_nat pos - Z.of_nat last))
            end in
          Ok (mkHttpParser
                (mkHttpMessage (f0, f1, f2) (headerLines (message p))
                   (body (message p)))
                HEADER (format p) (contentLength p), ins)
      end
  end.

(** [HttpParser::canonicalize] *)
Fixpoint canonicalize_from (first : bool) (s : string) : string :=
  match s with
  | EmptyString => EmptyString
  | String ch s' =>
      if isalpha ch
      then String (if first then toupper ch else tolower ch)
                  (canonicalize_from false s')
      else String ch (canonicalize_from true s')
  end.

Definition canonicalize (s : string) : string := canonicalize_from true s.

(** The condition under which [hasBody] gives a request a body. *)
Definition framing_has_body (p : HttpParser) : bool :=
  (bool_decide (format p = LENGTH) && (contentLength p >? 0))
  || bool_decide (format p = CHUNKED).

(** [HttpParser::hasBody] *)
Definition hasBody (p : HttpParser) : result bool :=
  let s := startLine0 (message p) in
  if (s =? "HTTP/1.0")%string || (s =? "HTTP/1.1")%string then
    let status := startLine1 (message p) in
    if negb (String.length status =? 3)%nat
    then Throw (ParseError "Invalid status code")
    else Ok (negb (char_at_is status 0 "1"
                   || (status =? "204")%string || (status =? "304")%string))
  else
    if framing_has_body p then Ok true else Ok false.

(** [std::string::max_size()] with libstdc++ on a 64-bit target.  A
    failure of the allocation itself is not modelled. *)
Definition string_max_size : Z := 2 ^ 62 - 1.

(** The header that [putHeader] pushes back for a line with a colon at
    [pos], key not yet canonicalised. *)
Definition split_header (line : string) (pos : nat) : Header :=
  let pos2 :=
    match find_last_not_of line SP_HT_CR
    with
    | Some i => S i
    | None => O
    end in
  let pos1 :=
    match find_first_not_of line SP_HT (pos + 1) with
    | Some i => i
    | None => pos2
    end in
  mkHeader (substr line 0 (Z.of_nat pos))
           (substr line pos1 (wrap (Z.of_nat pos2 - Z.of_nat pos1))).

Definition push_header (p : HttpParser) (header : Header) : HttpParser :=
  set_message p
    (mkHttpMessage (startLine (message p))
       (headerLines (message p) ++ [header]) (body (message p))).

(** The inspection of the header just pushed back, at the end of
    [putHeader].  [message.body.reserve(n)] throws [std::length_error]
    above [max_size()]. *)
Definition inspect_framing (p : HttpParser) (header : Header)
  : result HttpParser :=
  if (key header =? "Content-Length")%string then
    let '(ok, n) := extract_size_t 10 (value header) (contentLength p) in
    let p := set_contentLength p n in
    if ok then
      if n >? string_max_size then Throw length_error
      else Ok (set_format p LENGTH)
    else Ok p
  else if (key header =? "Transfer-Encoding")%string then
    if contains (value header) "chunked"
    then Ok (set_format p CHUNKED) else Ok p
  else Ok p.

Definition is_blank (line : string) : bool :=
  (line =? EmptyString)%string || (line =? CR)%string.

(** [HttpParser::putHeader], from the line it has read. *)
Definition putHeader_line (p : HttpParser) (line : string)
  : result HttpParser :=
  if is_blank line then
    b ← hasBody p;
    Ok (set_state p (if b : bool then BODY else ACCEPT))
  else
  match find_first_of line ": " 0 with
  | None => Throw (ParseError "Invalid header line (no colon)")
  | Some pos =>
      if char_at_is line pos " "
      then Throw (ParseError "Invalid header line (space before colon)")
      else
        let h := split_header line pos in
        let header := mkHeader (canonicalize (key h)) (value h) in
        inspect_framing (push_header p header) header
  end.

(** [HttpParser::putHeader] *)
Definition putHeader (p : HttpParser) (ins : istream)
  : result (HttpParser * istream) :=
  let '(line, ins) := getline ins "010" in
  if failbit ins then Ok (p, ins) else
  p ← putHeader_line p line; Ok (p, ins).

(** [HttpParser::appendBody]: [n] characters are taken from the buffer.
    Dereferencing the stream-buffer iterator past the end of the buffer is
    undefined. *)
Definition appendBody (p : HttpParser) (ins : istream) (n : Z)
  : result (HttpParser * istream) :=
  if n <=? size (rdbuf ins) then
    Ok (append_body p (take_str (Z.to_nat n) (rdbuf ins)),
        mkIstream (drop_str (Z.to_nat n) (rdbuf ins)) (failbit ins) (eofbit ins))
  else Undefined.

(** [HttpParser::putContent] *)
Definition putContent (p : HttpParser) (ins : istream)
  : result (HttpParser * istream) :=
  match format p with
  | PLAIN =>
      if negb (rdbuf ins =? EmptyString)%string then
        Ok (append_body p (rdbuf ins),
            mkIstream EmptyString (failbit ins) (eofbit ins))
      else Ok (set_state p ACCEPT, ins)
  | LENGTH =>
      '(p, ins) ← appendBody p ins (contentLength p);
      Ok (set_state p ACCEPT, ins)
  | CHUNKED =>
      if contentLength p =? 0 then
        let '(line, ins) := getline ins "010" in
        let p := append_body p (line +:+ LF) in
        if is_blank line then
          Ok (set_state p ACCEPT, ins)
        else
          let '(_, n) := extract_size_t 16 line (contentLength p) in
          Ok (set_contentLength p (if n =? 0 then n else wrap (n + 2)), ins)
      else
        '(p, ins) ← appendBody p ins (contentLength p);
        Ok (set_contentLength p 0, ins)
  end.

(** [HttpParser::parseStep].  In [ACCEPT] the method runs [assert(0)]. *)
Definition parseStep (p : HttpParser) (ins : istream)
  : result (HttpParser * istream) :=
  match state p with
  | START => putStartLine p ins
  | HEADER => putHeader p ins
  | BODY => putContent p ins
  | ACCEPT => Undefined
  end.

(** [HttpParser::parse]: [while (is && state != ACCEPT) parseStep(is);] *)
Fixpoint parse (fuel : nat) (p : HttpParser) (ins : istream)
  : result (HttpParser * istream) :=
  match fuel with
  | O => Ok (p, ins)
  | S fuel =>
      if negb (failbit ins) && negb (bool_decide (state p = ACCEPT)) then
        '(p, ins) ← parseStep p ins; parse fuel p ins
      else Ok (p, ins)
  end.

(** [HttpParser::reset] *)
Definition reset (p : HttpParser) : HttpParser :=
  mkHttpParser empty_message START (format p) (contentLength p).

(** ** Writing a message ([http.cpp])

    The characters that the inserters put into the output stream. *)

(** [operator<<(std::ostream&, const HttpMessage::StartLine&)] *)
Definition write_StartLine (startLine : StartLine) : string :=
  startLine.1.1 +:+ " " +:+ startLine.1.2 +:+ " " +:+ startLine.2.

(** The loop of [operator<<(std::ostream&, const HttpMessage&)] over the
    header lines. *)
Fixpoint write_headerLines (hs : list Header) : string :=
  match hs with
  | [] => EmptyString
  | h :: hs => key h +:+ ": " +:+ value h +:+ CRLF +:+ write_headerLines hs
  end.

(** [operator<<(std::ostream&, const HttpMessage&)] *)
Definition write_HttpMessage (msg : HttpMessage) : string :=
  write_StartLine (startLine msg) +:+ CRLF
  +:+ write_headerLines (headerLines msg)
  +:+ CRLF +:+ body msg.

(** ** The cache-control evaluator ([http.hpp], [http.cpp]) *)

(** What the program takes from the C++ run time: [get_time] is
    [std::get_time] with [HTTP_TIME_FORMAT] followed by [mktime] (the
    seconds since the epoch, [None] when the stream fails); [put_time] is
    the formatted output of a time point with the same format; [hasher] is
    [std::hash<std::string>]. *)
Class Runtime : Type := {
  get_time : string -> option Z;
  put_time : Z -> string;
  hasher : string -> Z
}.

(** [std::chrono::system_clock::duration] counts nanoseconds. *)
Definition ticks_per_second : Z := 1000000000.
Definition seconds (n : Z) : Z := n * ticks_per_second.

(** The count of a [system_clock::duration], and of a time point, is a
    signed 64-bit integer.  A sum, a difference or a conversion whose
    result leaves the range [-2^63 .. 2^63 - 1] overflows; [int64] is the
    two's-complement value the machine instruction leaves (the language
    itself gives such an overflow no meaning). *)
Definition int64 (z : Z) : Z := (z + 2 ^ 63) mod 2 ^ 64 - 2 ^ 63.

(** The values a 64-bit count holds. *)
Definition in_int64 (z : Z) : Prop := - 2 ^ 63 <= z < 2 ^ 63.

Record ResponseCacheInfo : Type := mkResponseCacheInfo {
  date_value : Z;
  request_time : Z;
  response_time : Z;
  last_modified : option Z;
  corrected_initial_age : Z;
  freshness_lifetime : Z;
  etag : string;
  no_cache : bool;
  no_store : bool;
  private_ : bool
}.

Record RequestCacheInfo : Type := mkRequestCacheInfo {
  if_modified_since : option Z;
  if_none_match : string;
  rq_no_cache : bool
}.

Definition set_etag (ci : ResponseCacheInfo) (v : string) :=
  mkResponseCacheInfo (date_value ci) (request_time ci) (response_time ci)
    (last_modified ci) (corrected_initial_age ci) (freshness_lifetime ci)
    v (no_cache ci) (no_store ci) (private_ ci).
Definition set_last_modified (ci : ResponseCacheInfo) (v : option Z) :=
  mkResponseCacheInfo (date_value ci) (request_time ci) (response_time ci)
    v (corrected_initial_age ci) (freshness_lifetime ci)
    (etag ci) (no_cache ci) (no_store ci) (private_ ci).
Definition set_freshness_lifetime (ci : ResponseCacheInfo) (v : Z) :=
  mkResponseCacheInfo (date_value ci) (request_time ci) (response_time ci)
    (last_modified ci) (corrected_initial_age ci) v
    (etag ci) (no_cache ci) (no_store ci) (private_ ci).
Definition set_flags (ci : ResponseCacheInfo) (nc ns pr : bool) :=
  mkResponseCacheInfo (date_value ci) (request_time ci) (response_time ci)
    (last_modified ci) (corrected_initial_age ci) (freshness_lifetime ci)
    (etag ci) nc ns pr.
Definition set_times (ci : ResponseCacheInfo) (date req resp age : Z) :=
  mkResponseCacheInfo date req resp
    (last_modified ci) age (freshness_lifetime ci)
    (etag ci) (no_cache ci) (no_store ci) (private_ ci).

(** [ResponseCacheInfo::current_age], with the reading of the clock. *)
Definition current_age (ci : ResponseCacheInfo) (now : Z) : Z :=
  let resident_time := int64 (now - response_time ci) in
  int64 (corrected_initial_age ci + resident_time).

(** [ResponseCacheInfo::expired] *)
Definition expired (ci : ResponseCacheInfo) (now : Z) : bool :=
  current_age ci now >=? freshness_lifetime ci.

(** [HttpParser::parseDeltaSeconds] *)
Definition parseDeltaSeconds (s : string) : result Z :=
  match try_lexical_convert_uint32 s with
  | None => Throw (ParseError "invalid delta-second format")
  | Some v => Ok (seconds v)
  end.

Section Evaluator.
Context `{Runtime}.

(** [HttpParser::parse_date]; [from_time_t] converts the seconds to
    clock ticks in 64 bits. *)
Definition parse_date (datestr : string) : result Z :=
  match get_time datestr with
  | None => Throw (ParseError "invalid date format")
  | Some t => Ok (int64 (seconds t))
  end.

(** The state of the loop of [parseCacheControl]: the flags written into
    [ci] and the two optional durations. *)
Record CacheControlState : Type := mkCacheControlState {
  cc_no_cache : bool;
  cc_no_store : bool;
  cc_private : bool;
  max_age : option Z;
  s_maxage : option Z
}.

(** The body of the [try] block for one field. *)
Definition parseCacheControl_field (field : string) (st : CacheControlState)
  : result CacheControlState :=
  if (field =? "no-cache")%string then
    Ok (mkCacheControlState true (cc_no_store st) (cc_private st)
          (max_age st) (s_maxage st))
  else if (field =? "no-store")%string then
    Ok (mkCacheControlState (cc_no_cache st) true (cc_private st)
          (max_age st) (s_maxage st))
  else if (field =? "private")%string then
    Ok (mkCacheControlState (cc_no_cache st) (cc_no_store st) true
          (max_age st) (s_maxage st))
  else if starts_with field "max-age=" then
    d ← parseDeltaSeconds (substr_from field 8);
    Ok (mkCacheControlState (cc_no_cache st) (cc_no_store st) (cc_private st)
          (Some d) (s_maxage st))
  else if starts_with field "s-maxage=" then
    d ← parseDeltaSeconds (substr_from field 9);
    Ok (mkCacheControlState (cc_no_cache st) (cc_no_store st) (cc_private st)
          (max_age st) (Some d))
  else Ok st.

(** [while (std::getline(ss >> std::ws, field, ',')) try { ... } catch ...] *)
Fixpoint parseCacheControl_loop (fuel : nat) (ss : istream)
    (st : CacheControlState) : result CacheControlState :=
  match fuel with
  | O => Ok st
  | S fuel =>
      let '(field, ss) := getline (ws ss) "," in
      if failbit ss then Ok st
      else
        st ← catch_ParseError (parseCacheControl_field field st) st;
        parseCacheControl_loop fuel ss st
  end.

(** [HttpParser::parseCacheControl(ResponseCacheInfo&, const std::string&,
    boost::optional<time_point>)]; [now] is the clock read by the
    heuristic branch.  Each turn of the loop extracts at least one
    character, so [S (length cache_control)] turns exhaust the stream. *)
Definition parseCacheControl (ci : ResponseCacheInfo) (cache_control : string)
    (expires : option Z) (now : Z) : result ResponseCacheInfo :=
  st ← parseCacheControl_loop (S (String.length cache_control))
         (istream_of cache_control)
         (mkCacheControlState false false false None None);
  let ci := set_flags ci (cc_no_cache st) (cc_no_store st) (cc_private st) in
  match s_maxage st, max_age st, expires, last_modified ci with
  | Some d, _, _, _ => Ok (set_freshness_lifetime ci d)
  | None, Some d, _, _ => Ok (set_freshness_lifetime ci d)
  | None, None, Some e, _ =>
      Ok (set_freshness_lifetime ci (int64 (e - date_value ci)))
  | None, None, None, Some lm =>
      Ok (set_freshness_lifetime ci (Z.quot (int64 (now - lm)) 10))
  | None, None, None, None => Ok ci
  end.

(** The locals of [parseResponseCacheInfo] and the two fields of [ci] that
    its loop over the header lines assigns. *)
Record ResponseScan : Type := mkResponseScan {
  scan_ci : ResponseCacheInfo;
  expires : option Z;
  scan_date_value : option Z;
  age_value : Z;
  cache_control : string
}.

(** The body of the [try] block for one header line. *)
Definition scan_response_header (h : Header) (st : ResponseScan)
  : result ResponseScan :=
  if (key h =? "Age")%string then
    d ← parseDeltaSeconds (value h);
    Ok (mkResponseScan (scan_ci st) (expires st) (scan_date_value st)
          d (cache_control st))
  else if (key h =? "Cache-Control")%string then
    Ok (mkResponseScan (scan_ci st) (expires st) (scan_date_value st)
          (age_value st) (value h))
  else if (key h =? "Date")%string then
    t ← parse_date (value h);
    Ok (mkResponseScan (scan_ci st) (expires st) (Some t)
          (age_value st) (cache_control st))
  else if (key h =? "Etag")%string then
    Ok (mkResponseScan (set_etag (scan_ci st) (value h)) (expires st)
          (scan_date_value st) (age_value st) (cache_control st))
  else if (key h =? "Expires")%string then
    t ← parse_date (value h);
    Ok (mkResponseScan (scan_ci st) (Some t) (scan_date_value st)
          (age_value st) (cache_control st))
  else if (key h =? "Last-Modified")%string then
    t ← parse_date (value h);
    Ok (mkResponseScan (set_last_modified (scan_ci st) (Some t)) (expires st)
          (scan_date_value st) (age_value st) (cache_control st))
  else Ok st.

Fixpoint scan_response_headers (hs : list Header) (st : ResponseScan)
  : result ResponseScan :=
  match hs with
  | [] => Ok st
  | h :: hs =>
      st ← catch_ParseError (scan_response_header h st) st;
      scan_response_headers hs st
  end.

(** [HttpParser::parseResponseCacheInfo]: the returned flag and the
    contents of the out-parameter [ci] afterwards.  [now] is the clock
    read inside [parseCacheControl]. *)
Definition parseResponseCacheInfo (p : HttpParser) (ci : ResponseCacheInfo)
    (request_time response_time : Z) (now : Z)
  : result (bool * ResponseCacheInfo) :=
  st ← scan_response_headers (headerLines (message p))
         (mkResponseScan ci None None 0 EmptyString);
  match scan_date_value st with
  | None => Ok (false, scan_ci st)
  | Some date_value =>
      let apparent_age :=
        if response_time >? date_value
        then int64 (response_time - date_value) else seconds 0 in
      let response_delay := int64 (response_time - request_time) in
      let corrected_age_value := int64 (age_value st + response_delay) in
      let ci :=
        set_times (scan_ci st) date_value request_time response_time
          (Z.max apparent_age corrected_age_value) in
      ci ← parseCacheControl ci (cache_control st) (expires st) now;
      Ok (true, ci)
  end.

(** [HttpParser::parseCacheControl(RequestCacheInfo&, const std::string&)] *)
Fixpoint parseRequestCacheControl_loop (fuel : nat) (ss : istream)
    (no_cache : bool) : bool :=
  match fuel with
  | O => no_cache
  | S fuel =>
      let '(field, ss) := getline (ws ss) "," in
      if failbit ss then no_cache
      else parseRequestCacheControl_loop fuel ss
             (if (field =? "no-cache")%string then true else no_cache)
  end.

Definition parseRequestCacheControl (ci : RequestCacheInfo)
    (cache_control : string) : RequestCacheInfo :=
  mkRequestCacheInfo (if_modified_since ci) (if_none_match ci)
    (parseRequestCacheControl_loop (S (String.length cache_control))
       (istream_of cache_control) false).

Definition scan_request_header (h : Header) (ci : RequestCacheInfo)
  : result RequestCacheInfo :=
  if (key h =? "Cache-Control")%string then
    Ok (parseRequestCacheControl ci (value h))
  else if (key h =? "If-Modified-Since")%string then
    t ← parse_date (value h);
    Ok (mkRequestCacheInfo (Some t) (if_none_match ci) (rq_no_cache ci))
  else if (key h =? "If-None-Match")%string then
    Ok (mkRequestCacheInfo (if_modified_since ci) (value h) (rq_no_cache ci))
  else Ok ci.

Fixpoint scan_request_headers (hs : list Header) (ci : RequestCacheInfo)
  : result RequestCacheInfo :=
  match hs with
  | [] => Ok ci
  | h :: hs =>
      ci ← catch_ParseError (scan_request_header h ci) ci;
      scan_request_headers hs ci
  end.

(** [HttpParser::parseRequestCacheInfo], on the default-constructed
    optional and string of a [RequestCacheInfo]. *)
Definition parseRequestCacheInfo (p : HttpParser) (ci : RequestCacheInfo)
  : result RequestCacheInfo :=
  scan_request_headers (headerLines (message p))
    (mkRequestCacheInfo (if_modified_since ci) (if_none_match ci) false).

End Evaluator.

(** ** The direct-mapped cache ([cache.hpp])

    [Cache<K, V, Hasher>]: a vector of entries, the entry of a key being
    the one at index [hasher(key) % vec.size()].  The mutex of an entry
    serialises the accessors of that entry and is not part of the
    sequential model.  [K0] and [V0] are the value-initialised key and
    value of a fresh entry. *)
Module Cache.
Section Cache.
Context {K V : Type} (hasher : K -> Z) (K0 : K) (V0 : V).

Record Entry : Type := mkEntry {
  key : K;
  value : V
}.

(** [Cache(size_t size) : vec(size)] *)
Definition ctor (size : nat) : list Entry := replicate size (mkEntry K0 V0).

Definition index (vec : list Entry) (k : K) : nat :=
  Z.to_nat (hasher k mod Z.of_nat (length vec)).

(** [getEntry]; the remainder by an empty vector's size is undefined. *)
Definition getEntry (vec : list Entry) (k : K) : result Entry :=
  match vec !! index vec k with
  | Some e => Ok e
  | None => Undefined
  end.

(** [Accessor(cache, key).get()] *)
Definition Accessor_get (vec : list Entry) (k : K) : result (K * V) :=
  e ← getEntry vec k; Ok (key e, value e).

(** [Accessor(cache, key).set(value)] *)
Definition Accessor_set (vec : list Entry) (k : K) (v : V)
  : result (list Entry) :=
  _ ← getEntry vec k; Ok (<[index vec k := mkEntry k v]> vec).

(** An assignment through the [V&] that [get()] returns, or to the object
    a shared pointer copied from it points to: the value of the entry
    changes and its key stays. *)
Definition Accessor_assign (vec : list Entry) (k : K) (v : V)
  : result (list Entry) :=
  e ← getEntry vec k; Ok (<[index vec k := mkEntry (key e) v]> vec).

End Cache.
End Cache.

Arguments Cache.Entry : clear implicits.
Arguments Cache.mkEntry {K V} key value.

(** ** The server's cache ([server.hpp]) *)
Module Server.

Record CacheItem : Type := mkCacheItem {
  message : HttpMessage;
  info : ResponseCacheInfo
}.

(** [Cache<std::string, std::shared_ptr<CacheItem>>].  A slot holds a
    null pointer until its first [set]; every pointer stored afterwards
    comes from a fresh [make_shared], so no two slots share an item and
    an item is identified with the slot that holds it. *)
Abbreviation cache_type := (list (Cache.Entry string (option CacheItem))).

End Server.

Section Connection.
Context `{Runtime}.

Definition cache_ctor (size : nat) : Server.cache_type :=
  Cache.ctor EmptyString None size.
Definition cache_get (cache : Server.cache_type) (k : string) :=
  Cache.Accessor_get hasher cache k.
Definition cache_set (cache : Server.cache_type) (k : string)
    (v : option Server.CacheItem) :=
  Cache.Accessor_set hasher cache k v.
Definition cache_assign (cache : Server.cache_type) (k : string)
    (v : option Server.CacheItem) :=
  Cache.Accessor_assign hasher cache k v.

(** ** The half-connections ([connection.hpp], [connection.cpp]) *)

Definition HTTP200 : HttpMessage :=
  mkHttpMessage ("HTTP/1.1", "200", "OK") [] EmptyString.
Definition HTTP400 : HttpMessage :=
  mkHttpMessage ("HTTP/1.1", "400", "Invalid Request")
    [mkHeader "Content-Length" "0"] EmptyString.
Definition HTTP502 : HttpMessage :=
  mkHttpMessage ("HTTP/1.1", "502", "Bad Gateway")
    [mkHeader "Content-Length" "0"] EmptyString.

(** [Connection::check_protocol], without the call of [bad_header]. *)
Definition check_protocol (protocol : string) : bool :=
  if negb (protocol =? "HTTP/1.0")%string && negb (protocol =? "HTTP/1.1")%string
  then false else true.

(** [Connection::replace_header(key, value)] on the header lines. *)
Fixpoint replace_header_lines (hs : list Header) (k v : string)
  : list Header :=
  match hs with
  | [] => [mkHeader k v]
  | h :: hs =>
      if (key h =? k)%string then mkHeader (key h) v :: hs
      else h :: replace_header_lines hs k v
  end.

Definition replace_header (m : HttpMessage) (k v : string) : HttpMessage :=
  mkHttpMessage (startLine m) (replace_header_lines (headerLines m) k v)
    (body m).

(** [ClientConnection::check_cached]: the shared pointer afterwards (reset
    when the entry needs validation or has expired) and the request
    afterwards. *)
Definition check_cached (m : HttpMessage) (cached : Server.CacheItem)
    (ci : RequestCacheInfo) (now : Z)
  : option Server.CacheItem * HttpMessage :=
  let ri := Server.info cached in
  let cached' :=
    if rq_no_cache ci || no_cache ri then None
    else if current_age ri now >=? freshness_lifetime ri then None
    else Some cached in
  match cached' with
  | None =>
      let m :=
        match last_modified ri with
        | Some lm => replace_header m "If-Modified-Since" (put_time lm)
        | None => m
        end in
      let m :=
        if negb (etag ri =? EmptyString)%string
        then replace_header m "If-None-Match" (etag ri) else m in
      (None, m)
  | Some c => (Some c, m)
  end.

(** The loop of [ClientConnection::on_read_done] that erases the
    client's validators. *)
Definition strip_validators (m : HttpMessage) : HttpMessage :=
  mkHttpMessage (startLine m)
    (List.filter (fun h => negb ((key h =? "If-Modified-Since")%string
                            || (key h =? "If-None-Match")%string))
       (headerLines m))
    (body m).

(** What [ClientConnection::on_read_done] ends with. *)
Inductive ClientOutcome : Type :=
  | BadHeader (what_ : string)
      (* bad_header: HTTP400 is written to the client *)
  | Respond (response : HttpMessage)
      (* write_message(cached->message) *)
  | Fetch (request : HttpMessage)
      (* a RemoteConnection is created and start_resolve() is called;
         [request] is this->message at that point *).

(** [ClientConnection::on_read_done] for the connection whose parser (and
    message) is [p]; [rci] is the default-initialised local
    [RequestCacheInfo].  This is the decision of the handler; the log
    entry that it writes after the check of the protocol, which asks the
    socket for the endpoint of the peer, is added by
    [ClientConnection_on_read_done_logged] below. *)
Definition ClientConnection_on_read_done (cache : Server.cache_type)
    (p : HttpParser) (rci : RequestCacheInfo) (now : Z)
  : result (bool * ClientOutcome) :=
  let m := message p in
  if negb (check_protocol (startLine2 m))
  then Ok (false, BadHeader "unsupported protocol")
  else
    let tunneling := (startLine0 m =? "CONNECT")%string in
    ci ← parseRequestCacheInfo p rci;
    cached ←
      (if (startLine0 m =? "GET")%string then
         let url := startLine1 m in
         '(k, v) ← cache_get cache url;
         Ok (match v with
             | Some item => if negb (k =? url)%string then None else Some item
             | None => None
             end)
       else Ok None);
    let '(cached, m) :=
      match cached with
      | Some item => check_cached m item ci now
      | None => (None, strip_validators m)
      end in
    match cached with
    | Some item => Ok (tunneling, Respond (Server.message item))
    | None => Ok (tunneling, Fetch m)
    end.

(** [socket.remote_endpoint()] in its throwing overload: the endpoint of
    the peer, here its address, while the socket is connected ([peer] is
    [Some] of it), and [boost::system::system_error] when it is not. *)
Definition remote_endpoint (peer : option string) : result string :=
  match peer with
  | Some address => Ok address
  | None => Throw system_error
  end.

(** [ClientConnection::on_read_done] with its log entry: once the
    protocol has passed [check_protocol], the handler writes the request
    line and [socket.remote_endpoint().address()] to the log, and then
    goes on as [ClientConnection_on_read_done] does.  The text of the log
    is not part of the model. *)
Definition ClientConnection_on_read_done_logged (peer : option string)
    (cache : Server.cache_type) (p : HttpParser) (rci : RequestCacheInfo)
    (now : Z) : result (bool * ClientOutcome) :=
  if negb (check_protocol (startLine2 (message p)))
  then Ok (false, BadHeader "unsupported protocol")
  else
    _ ← remote_endpoint peer;
    ClientConnection_on_read_done cache p rci now.

(** The remote half-connection: its parser with the response, and the
    members the caching decision reads. *)
Record RemoteConnection : Type := mkRemoteConnection {
  parser : HttpParser;
  request_url : string;
  request_host : string;
  rc_request_time : Z;
  rc_response_time : Z
}.

(** [RemoteConnection::start_resolve] on the client's message: the
    members it sets, the client's message afterwards (which [on_connect]
    later writes to the origin) and the endpoint handed to the resolver. *)
Definition start_resolve (client_message : HttpMessage)
  : string * string * HttpMessage * (string * string) :=
  let s := startLine1 client_message in
  let url := HttpUrl_ctor s in
  (s, host url,
   mkHttpMessage (startLine0 client_message, path url,
                  startLine2 client_message)
     (headerLines client_message) (body client_message),
   (host url, port url)).

(** The request that reaches the origin for a [Fetch]. *)
Definition forwarded_request (client_message : HttpMessage) : HttpMessage :=
  (start_resolve client_message).1.2.

Definition MAX_CACHEABLE_BODYSIZE : Z := 2 * 1024 * 1024.

(** [RemoteConnection::is_cacheable]: the returned flag and the
    out-parameter [ci] afterwards.  [now] is the clock read inside
    [parseCacheControl]. *)
Definition is_cacheable (rc : RemoteConnection)
    (request_method status : string) (ci : ResponseCacheInfo) (now : Z)
  : result (bool * ResponseCacheInfo) :=
  if negb (request_method =? "GET")%string then Ok (false, ci)
  else if negb (status =? "200")%string && negb (status =? "304")%string
  then Ok (false, ci)
  else if size (body (message (parser rc))) >? MAX_CACHEABLE_BODYSIZE
  then Ok (false, ci)
  else
    '(ok, ci) ← parseResponseCacheInfo (parser rc) ci
                  (rc_request_time rc) (rc_response_time rc) now;
    if negb ok then Ok (false, ci)
    else if no_store ci || private_ ci then Ok (false, ci)
    else Ok (true, ci).

(** [RemoteConnection::store_cache]: the returned flag and the cache
    afterwards.  In the branch for a matching key the code dereferences
    the pointer of the slot; a slot that was never set holds a null
    pointer (and the empty key). *)
Definition store_cache (cache : Server.cache_type) (rc : RemoteConnection)
    (status : string) (ci : ResponseCacheInfo)
  : result (bool * Server.cache_type) :=
  '(k, v) ← cache_get cache (request_url rc);
  if (status =? "200")%string then
    cache ← cache_set cache (request_url rc)
              (Some (Server.mkCacheItem (message (parser rc)) ci));
    Ok (true, cache)
  else if (k =? request_url rc)%string then
    match v with
    | Some item =>
        let item :=
          Server.mkCacheItem
            (mkHttpMessage (startLine (Server.message item))
               (headerLines (message (parser rc)))
               (body (Server.message item)))
            ci in
        cache ← cache_assign cache (request_url rc) (Some item);
        Ok (true, cache)
    | None => Undefined
    end
  else Ok (false, cache).

(** What [RemoteConnection::on_read_done] ends with: the message written
    to the client, the local [cached] and the cache afterwards. *)
Record RemoteOutcome : Type := mkRemoteOutcome {
  to_client : HttpMessage;
  cached : bool;
  cache_after : Server.cache_type
}.

(** [RemoteConnection::on_read_done].  [request_method] is
    [client->message.startLine[0]], [ci] the default-initialised local
    [ResponseCacheInfo], [now] the clock read for [response_time] and
    [now'] the one read inside [parseCacheControl]. *)
Definition RemoteConnection_on_read_done (cache : Server.cache_type)
    (rc : RemoteConnection) (request_method : string)
    (ci : ResponseCacheInfo) (now now' : Z) : result RemoteOutcome :=
  let m := message (parser rc) in
  if negb (check_protocol (startLine0 m))
  then Ok (mkRemoteOutcome HTTP502 false cache)
  else if bool_decide (state (parser rc) = START)
          || bool_decide (state (parser rc) = HEADER)
  then Ok (mkRemoteOutcome HTTP502 false cache)
  else
    let rc := mkRemoteConnection (parser rc) (request_url rc)
                (request_host rc) (rc_request_time rc) now in
    let status := startLine1 m in
    '(ok, ci) ← is_cacheable rc request_method status ci now';
    if ok : bool then
      '(stored, cache') ← store_cache cache rc status ci;
      Ok (mkRemoteOutcome m stored cache')
    else Ok (mkRemoteOutcome m false cache).

End Connection.

(** ** A concrete run time

    An instance of [Runtime] for a process with [TZ=UTC]: [get_time]
    accepts the fixed-length IMF-fixdate
    [Www, DD Mon YYYY HH:MM:SS GMT] and [put_time] prints it; the hash is
    a polynomial hash modulo [2^64].  The theorems below hold for every
    run time; this one serves to run the program on concrete inputs. *)
Module UTC.

Definition two_digits (a b : ascii) : option Z :=
  if isdigit a && isdigit b
  then Some ((char_code a - 48) * 10 + (char_code b - 48)) else None.

Definition month_names : list string :=
  ["Jan"; "Feb"; "Mar"; "Apr"; "May"; "Jun";
   "Jul"; "Aug"; "Sep"; "Oct"; "Nov"; "Dec"].
Definition day_names : list string :=
  ["Sun"; "Mon"; "Tue"; "Wed"; "Thu"; "Fri"; "Sat"].

Fixpoint index_of (s : string) (l : list string) (i : Z) : option Z :=
  match l with
  | [] => None
  | x :: l => if (x =? s)%string then Some i else index_of s l (i + 1)
  end.

(** Days since 1970-01-01 of a date of the proleptic Gregorian calendar. *)
Definition days_from_civil (y m d : Z) : Z :=
  let y := if m <=? 2 then y - 1 else y in
  let era := y / 400 in
  let yoe := y - era * 400 in
  let doy := (153 * (if m >? 2 then m - 3 else m + 9) + 2) / 5 + d - 1 in
  let doe := yoe * 365 + yoe / 4 - yoe / 100 + doy in
  era * 146097 + doe - 719468.

Definition civil_from_days (z : Z) : Z * Z * Z :=
  let z := z + 719468 in
  let era := z / 146097 in
  let doe := z - era * 146097 in
  let yoe := (doe - doe / 1460 + doe / 36524 - doe / 146096) / 365 in
  let y := yoe + era * 400 in
  let doy := doe - (365 * yoe + yoe / 4 - yoe / 100) in
  let mp := (5 * doy + 2) / 153 in
  let d := doy - (153 * mp + 2) / 5 + 1 in
  let m := if mp <? 10 then mp + 3 else mp - 9 in
  (if m <=? 2 then y + 1 else y, m, d).

Definition get_time (s : string) : option Z :=
  match s with
  | String w1 (String w2 (String w3 (String "," (String " "
    (String d1 (String d2 (String " "
    (String m1 (String m2 (String m3 (String " "
    (String y1 (String y2 (String y3 (String y4 (String " "
    (String h1 (String h2 (String ":"
    (String i1 (String i2 (String ":"
    (String s1 (String s2 (String " "
    (String "G" (String "M" (String "T" EmptyString))))))))))))))))))))))))))))
    =>
      _ ← index_of (String w1 (String w2 (String w3 EmptyString))) day_names 0;
      mon ← index_of (String m1 (String m2 (String m3 EmptyString)))
              month_names 1;
      d ← two_digits d1 d2;
      yh ← two_digits y1 y2;
      yl ← two_digits y3 y4;
      h ← two_digits h1 h2;
      mi ← two_digits i1 i2;
      sec ← two_digits s1 s2;
      if (1 <=? d) && (d <=? 31) && (h <=? 23) && (mi <=? 59) && (sec <=? 60)
      then Some (days_from_civil (yh * 100 + yl) mon d * 86400
                 + h * 3600 + mi * 60 + sec)
      else None
  | _ => None
  end.

Definition digit_char (n : Z) : ascii := ascii_of_N (Z.to_N (48 + n mod 10)).

Definition print2 (n : Z) : string :=
  String (digit_char (n / 10)) (String (digit_char n) EmptyString).

Definition print4 (n : Z) : string := print2 (n / 100) +:+ print2 n.

(** [put_time] of a time point: [gmtime_r] of its seconds, formatted. *)
Definition put_time (tp : Z) : string :=
  let t := Z.quot tp ticks_per_second in
  let days := t / 86400 in
  let rem := t mod 86400 in
  let '(y, m, d) := civil_from_days days in
  nth (Z.to_nat ((days + 4) mod 7)) day_names EmptyString +:+ ", "
  +:+ print2 d +:+ " "
  +:+ nth (Z.to_nat (m - 1)) month_names EmptyString +:+ " "
  +:+ print4 y +:+ " "
  +:+ print2 (rem / 3600) +:+ ":" +:+ print2 (rem mod 3600 / 60) +:+ ":"
  +:+ print2 (rem mod 60) +:+ " GMT".

Fixpoint hash_from (h : Z) (s : string) : Z :=
  match s with
  | EmptyString => h
  | String c s => hash_from (wrap (h * 31 + char_code c)) s
  end.

Definition hasher (s : string) : Z := hash_from 7 s.

Definition runtime : Runtime := Build_Runtime get_time put_time hasher.

End UTC.

(** * The vocabulary of the properties

    Definitions that the statements below are written with: readings of a
    URL and of a header line, runs of the parser, what the scan of the
    header lines keeps, the conditions of the caching decision, and the
    data of the scenarios. *)

Abbreviation CacheEntry := (Cache.Entry string (option Server.CacheItem)).

(** The URL has an explicit port when the first [:] or [/] after the
    scheme is a colon. *)
Definition explicit_port (url : string) : bool :=
  match find_first_of url ":/" (url_scheme url).2 with
  | Some pos => char_at_is url pos ":"
  | None => false
  end.

(** What follows the scheme in [url]. *)
Definition after_scheme (url : string) : string :=
  drop_str (url_scheme url).2 url.

Definition begins_with (c : ascii) (s : string) : Prop :=
  exists r, s = String c r.

(** A request with a body, as a client sends it on a connection that it
    keeps alive, and the request that follows it. *)
Definition post_request : string :=
  "POST http://origin/x HTTP/1.1" +:+ CRLF +:+ "Content-Length: 3" +:+ CRLF
  +:+ CRLF +:+ "abc".
Definition get_request : string :=
  "GET http://origin/y HTTP/1.1" +:+ CRLF +:+ "Host: origin" +:+ CRLF +:+ CRLF.

Definition parsed (fuel : nat) (p : HttpParser) (input : string)
  : option HttpParser :=
  match parse fuel p (istream_of input) with
  | Ok (p, _) => Some p
  | _ => None
  end.

(** The header that [putHeader] appends for [line], when it accepts
    [line] as a header line. *)
Definition header_of_line (line : string) : option Header :=
  if is_blank line then None
  else
    match find_first_of line ": " 0 with
    | None => None
    | Some pos =>
        if char_at_is line pos " " then None
        else
          let h := split_header line pos in
          Some (mkHeader (canonicalize (key h)) (value h))
    end.

(** The format that the inspection of a header sets, if any. *)
Definition framing_of_header (h : Header) : option BodyFormat :=
  if (key h =? "Content-Length")%string then
    if (extract_size_t 10 (value h) 0).1 then Some LENGTH else None
  else if (key h =? "Transfer-Encoding")%string then
    if contains (value h) "chunked" then Some CHUNKED else None
  else None.

Definition framing_of_line (line : string) : option BodyFormat :=
  header_of_line line ≫= framing_of_header.

(** A [Transfer-Encoding] header line whose value contains [chunked]. *)
Definition is_chunked_transfer_encoding (line : string) : bool :=
  bool_decide (framing_of_line line = Some CHUNKED).

(** A [Content-Length] header line whose value the stream extraction
    accepts. *)
Definition is_parseable_content_length (line : string) : bool :=
  bool_decide (framing_of_line line = Some LENGTH).

(** The header lines of a message, put one after the other. *)
Fixpoint putHeader_lines (p : HttpParser) (lines : list string)
  : result HttpParser :=
  match lines with
  | [] => Ok p
  | line :: lines => p ← putHeader_line p line; putHeader_lines p lines
  end.

(** The format set by the last line of [lines] that sets one. *)
Definition last_framing (f : BodyFormat) (lines : list string) : BodyFormat :=
  fold_left (fun f line => default f (framing_of_line line)) lines f.

(** [v] begins with an integer: after optional white space and an
    optional sign comes a decimal digit. *)
Definition begins_with_digit (s : string) : bool :=
  match s with
  | String c _ => isdigit c
  | EmptyString => false
  end.

Definition begins_with_integer (v : string) : bool :=
  begins_with_digit (strip_sign (skip_ws v)).2.

Fixpoint all_chars (Q : ascii -> bool) (s : string) : bool :=
  match s with
  | EmptyString => true
  | String c s => Q c && all_chars Q s
  end.

Fixpoint skip_chars (Q : ascii -> bool) (s : string) : string :=
  match s with
  | String c s' => if Q c then skip_chars Q s' else s
  | EmptyString => EmptyString
  end.

Definition space_or_tab (c : ascii) : bool :=
  mem_char c SP_HT.

(** The number that [putContent] reads from a chunk-header line. *)
Definition chunk_size (line : string) : Z := (extract_size_t 16 line 0).2.

(** The parser is about to read a chunk header. *)
Definition at_chunk_header (p : HttpParser) : Prop :=
  state p = BODY /\ format p = CHUNKED /\ contentLength p = 0.

Section Vocabulary.
Context `{Runtime}.

(** What the scan of the header lines keeps for the key [k]: [inj] of the
    value parsed from the last header named [k] that [parse] accepts, and
    [acc] when there is none. *)
Fixpoint scan_last {A : Type} (k : string) (parse : string -> option Z)
    (inj : Z -> A) (hs : list Header) (acc : A) : A :=
  match hs with
  | [] => acc
  | h :: hs =>
      scan_last k parse inj hs
        (if (key h =? k)%string
         then match parse (value h) with Some z => inj z | None => acc end
         else acc)
  end.

(** The [Date] header as a time point, when it parses. *)
Definition date_of (v : string) : option Z :=
  (fun t => int64 (seconds t)) <$> get_time v.

(** The [Age] header as a duration, when it parses. *)
Definition age_of (v : string) : option Z :=
  seconds <$> try_lexical_convert_uint32 v.

(** The value of the last [Date] header that parses. *)
Definition date_header (hs : list Header) : option Z :=
  scan_last "Date" date_of Some hs None.

(** The value of the last [Age] header that parses, 0 without one. *)
Definition age_header (hs : list Header) : Z :=
  scan_last "Age" age_of id hs 0.

(** One turn of the loop of [parseResponseCacheInfo], the [catch]
    included. *)
Definition scan_step (st : ResponseScan) (h : Header) : ResponseScan :=
  match catch_ParseError (scan_response_header h st) st with
  | Ok st' => st'
  | _ => st
  end.

Definition no_freshness_header (h : Header) : Prop :=
  key h <> "Cache-Control" /\ key h <> "Expires" /\ key h <> "Last-Modified".

(** The slot of a URL: [hasher(url) % vec.size()]. *)
Definition slot_of (cache : Server.cache_type) (url : string) : nat :=
  Cache.index hasher cache url.

(** The item that [store_cache] leaves in the slot for a 304 response:
    the header lines of the response and the new cache info, around the
    start line and the body of the item that was there. *)
Definition revalidated (item : Server.CacheItem) (response : HttpMessage)
    (ci : ResponseCacheInfo) : Server.CacheItem :=
  Server.mkCacheItem
    (mkHttpMessage (startLine (Server.message item)) (headerLines response)
       (body (Server.message item)))
    ci.

(** The conditions of the specification for a response to be cacheable. *)
Definition cacheable (rc : RemoteConnection) (request_method status : string)
    (ci : ResponseCacheInfo) (now : Z) : Prop :=
  request_method = "GET"
  /\ (status = "200" \/ status = "304")
  /\ size (body (message (parser rc))) <= 2 * 1024 * 1024
  /\ exists ci',
       parseResponseCacheInfo (parser rc) ci (rc_request_time rc)
         (rc_response_time rc) now = Ok (true, ci')
       /\ no_store ci' = false /\ private_ ci' = false.

(** The entry that [on_read_done] finds for the request: the item of the
    slot, for a GET whose URL is the key of the slot. *)
Definition cached_entry (e : CacheEntry) (m : HttpMessage)
  : option Server.CacheItem :=
  if (startLine0 m =? "GET")%string && (Cache.key e =? startLine1 m)%string
  then Cache.value e else None.

Definition is_validator (h : Header) : bool :=
  (key h =? "If-Modified-Since")%string || (key h =? "If-None-Match")%string.

(** The entry cannot be served as it is. *)
Definition needs_validation (ci : RequestCacheInfo) (ri : ResponseCacheInfo)
    (now : Z) : bool :=
  rq_no_cache ci || no_cache ri
  || (current_age ri now >=? freshness_lifetime ri).

(** The header lines of a request that revalidates the entry [ri]. *)
Definition revalidation_headers (hs : list Header) (ri : ResponseCacheInfo)
  : list Header :=
  let hs :=
    match last_modified ri with
    | Some lm => replace_header_lines hs "If-Modified-Since" (put_time lm)
    | None => hs
    end in
  if (etag ri =? EmptyString)%string then hs
  else replace_header_lines hs "If-None-Match" (etag ri).

End Vocabulary.

(** The data of the scenarios, on the concrete run time. *)
Section ScenarioData.
#[local] Existing Instance UTC.runtime.

Definition feb_28 : Z := 1519851115.

Definition origin_x : string := "http://origin/x".

(** A default-initialised [ResponseCacheInfo]; the junk in its scalar
    members is taken to be zero here. *)
Definition ci0 : ResponseCacheInfo :=
  mkResponseCacheInfo 0 0 0 None 0 0 EmptyString false false false.
Definition rci0 : RequestCacheInfo := mkRequestCacheInfo None EmptyString false.

(** Scenario 1: the response to a first GET. *)
Definition response_200 : HttpParser :=
  mkHttpParser
    (mkHttpMessage ("HTTP/1.1", "200", "OK")
       [mkHeader "Date" "Wed, 28 Feb 2018 20:51:55 GMT";
        mkHeader "Cache-Control" "max-age=100";
        mkHeader "Etag" "v1";
        mkHeader "Content-Length" "3"] "abc")
    ACCEPT LENGTH 3.

(** A 304 response to a revalidation. *)
Definition response_304 : HttpParser :=
  mkHttpParser
    (mkHttpMessage ("HTTP/1.1", "304", "Not Modified")
       [mkHeader "Date" "Wed, 28 Feb 2018 20:55:00 GMT";
        mkHeader "Cache-Control" "max-age=200"] EmptyString)
    ACCEPT PLAIN 0.

Definition remote (response : HttpParser) (url : string) : RemoteConnection :=
  mkRemoteConnection response url "origin" (seconds feb_28) 0.

Definition cache_after_fetch (cache : Server.cache_type)
    (response : HttpParser) (url : string) (now : Z) : Server.cache_type :=
  match RemoteConnection_on_read_done cache (remote response url) "GET" ci0
          now now with
  | Ok out => cache_after out
  | _ => cache
  end.

(** A cache of one slot, after the response of scenario 1 was stored
    under [origin_x], and after it was stored under another URL. *)
Definition cache_x : Server.cache_type :=
  cache_after_fetch (cache_ctor 1) response_200 origin_x (seconds feb_28).
Definition cache_y : Server.cache_type :=
  cache_after_fetch (cache_ctor 1) response_200 "http://origin/y"
    (seconds feb_28).

(** Scenario 3: the entry has expired; the request is forwarded with the
    validator of the entry in place of the client's. *)
Definition request_with_validators : HttpParser :=
  mkHttpParser
    (mkHttpMessage ("GET", origin_x, "HTTP/1.1")
       [mkHeader "Host" "origin";
        mkHeader "If-None-Match" "client-tag";
        mkHeader "If-Modified-Since" "Thu, 01 Jan 1970 00:00:00 GMT"]
       EmptyString)
    ACCEPT PLAIN 0.

(** An entry that is stale on arrival and carries no validator. *)
Definition response_stale : HttpParser :=
  mkHttpParser
    (mkHttpMessage ("HTTP/1.1", "200", "OK")
       [mkHeader "Date" "Wed, 28 Feb 2018 20:51:55 GMT";
        mkHeader "Cache-Control" "max-age=0";
        mkHeader "Content-Length" "3"] "abc")
    ACCEPT LENGTH 3.

Definition cache_stale : Server.cache_type :=
  cache_after_fetch (cache_ctor 1) response_stale origin_x (seconds feb_28).

End ScenarioData.

(** ** More vocabulary: URLs, header keys, lines *)

(** The scheme as [HttpUrl] recognises it, in lower case. *)
Definition url_prefix (pr : Protocol) : string :=
  match pr with
  | HTTP => "http://"
  | HTTPS => "https://"
  | NONE => EmptyString
  end.

(** No character of [s] is one of [chars]. *)
Definition free_of (chars s : string) : bool :=
  all_chars (fun c => negb (mem_char c chars)) s.

Definition path_or_root (path : string) : string :=
  if (path =? EmptyString)%string then "/" else path.

(** [s] with its upper-case ASCII letters in lower case. *)
Fixpoint lowercase (s : string) : string :=
  match s with
  | EmptyString => EmptyString
  | String c s => String (tolower c) (lowercase s)
  end.

(** How often [c] occurs in [s]. *)
Fixpoint count_char (c : ascii) (s : string) : nat :=
  match s with
  | EmptyString => O
  | String d s => ((if (d =? c)%char then 1 else 0) + count_char c s)%nat
  end.

(** [s] without the characters at its end that satisfy [Q]. *)
Fixpoint rstrip (Q : ascii -> bool) (s : string) : string :=
  match s with
  | EmptyString => EmptyString
  | String c s =>
      match rstrip Q s with
      | EmptyString => if Q c then EmptyString else String c EmptyString
      | t => String c t
      end
  end.

Definition space_tab_or_cr (c : ascii) : bool := mem_char c SP_HT_CR.

(** The value that [putHeader] stores for what follows the colon of a
    header line: the text between the spaces and tabs in front and the
    spaces, tabs and carriage returns at the end.  When nothing else
    follows the colon the value is empty, unless spaces or tabs precede a
    carriage return: then it runs from that carriage return to the end of
    the line. *)
Definition header_value (r : string) : string :=
  let t := skip_chars space_or_tab r in
  if all_chars space_tab_or_cr r
  then if (t =? r)%string then EmptyString else t
  else rstrip space_tab_or_cr t.

(** ** More vocabulary: messages as they are written *)

Definition SP_LF : string := String " " (String "010" EmptyString).
Definition COLON_SP_LF : string :=
  String ":" (String " " (String "010" EmptyString)).

(** A start line that [putStartLine] reads back as it is: no space in the
    first two fields, no carriage return in the third, no line feed. *)
Definition wf_start_line (sl : StartLine) : Prop :=
  free_of SP_LF sl.1.1 = true
  /\ free_of SP_LF sl.1.2 = true
  /\ free_of CRLF sl.2 = true.

(** A header that [putHeader] reads back as it is: a key in canonical
    form without colon, space and line feed, and a value that is not
    empty, has no line feed, and neither begins nor ends with a character
    that [putHeader] trims. *)
Definition wf_header (h : Header) : Prop :=
  canonicalize (key h) = key h
  /\ free_of COLON_SP_LF (key h) = true
  /\ value h <> EmptyString
  /\ free_of LF (value h) = true
  /\ skip_chars space_or_tab (value h) = value h
  /\ rstrip space_tab_or_cr (value h) = value h.

(** A header that says nothing about the framing of the body. *)
Definition unframed (h : Header) : Prop :=
  key h <> "Content-Length" /\ key h <> "Transfer-Encoding".

(** The start line of a response, as [hasBody] tells it from that of a
    request, and the status codes of responses without a body. *)
Definition is_response (sl : StartLine) : bool :=
  (sl.1.1 =? "HTTP/1.0")%string || (sl.1.1 =? "HTTP/1.1")%string.

Definition bodyless_status (status : string) : bool :=
  char_at_is status 0 "1" || (status =? "204")%string
  || (status =? "304")%string.

(** The parser after it has read the header lines [hs] on top of its
    own, none of them a framing header. *)
Definition read_headers (p : HttpParser) (hs : list Header) : HttpParser :=
  mkHttpParser
    (mkHttpMessage (startLine (message p)) (headerLines (message p) ++ hs)
       (body (message p)))
    (state p) (format p) (contentLength p).

(** ** More vocabulary: chunked bodies *)

(** The chunks of a body on the wire: each chunk-header line (without its
    line end) with the data that follows it. *)
Fixpoint write_chunks (chunks : list (string * string)) : string :=
  match chunks with
  | [] => EmptyString
  | (header, data) :: chunks =>
      header +:+ CRLF +:+ data +:+ CRLF +:+ write_chunks chunks
  end.

(** A chunk whose header line gives the size of its data, which is not
    empty. *)
Definition wf_chunk (chunk : string * string) : Prop :=
  mem_char "010" chunk.1 = false
  /\ chunk_size (chunk.1 +:+ CR) = size chunk.2
  /\ 0 < size chunk.2 < size_t_modulus - 2.

(** The header line of the last chunk: its size reads as zero. *)
Definition wf_last_chunk (header : string) : Prop :=
  mem_char "010" header = false
  /\ header <> EmptyString
  /\ chunk_size (header +:+ CR) = 0.

(** ** More vocabulary: the fields of [Cache-Control] *)

(** A [Cache-Control] value: fields separated by commas, each with white
    space in front of it. *)
Fixpoint write_directives (ds : list (string * string)) : string :=
  match ds with
  | [] => EmptyString
  | (space, field) :: ds =>
      space +:+ field
      +:+ match ds with
          | [] => EmptyString
          | _ :: _ => "," +:+ write_directives ds
          end
  end.

Definition wf_directive (d : string * string) : Prop :=
  all_chars isspace d.1 = true
  /\ free_of "," d.2 = true
  /\ match d.2 with
     | String c _ => isspace c = false
     | EmptyString => True
     end.

(** One turn of the loop of [parseCacheControl], the [catch] included. *)
Definition cache_control_step (st : CacheControlState) (field : string)
  : CacheControlState :=
  match catch_ParseError (parseCacheControl_field field st) st with
  | Ok st' => st'
  | _ => st
  end.

(** The duration that a directive [name=delta] gives, when [field] is
    one and its [delta] parses. *)
Definition directive_seconds (name field : string) : option Z :=
  if starts_with field name
  then seconds <$>
       try_lexical_convert_uint32 (drop_str (String.length name) field)
  else None.

(** The duration of the last field of [fields] that is a directive
    [name=delta] with a [delta] that parses. *)
Definition last_directive (name : string) (fields : list string) : option Z :=
  fold_left
    (fun acc field =>
       match directive_seconds name field with
       | Some d => Some d
       | None => acc
       end)
    fields None.

(** The number that a string of decimal digits denotes. *)
Fixpoint decimal_from (acc : Z) (s : string) : option Z :=
  match s with
  | EmptyString => Some acc
  | String c s =>
      if isdigit c then decimal_from (acc * 10 + (char_code c - 48)) s
      else None
  end.

Definition decimal_value (s : string) : option Z :=
  if (s =? EmptyString)%string then None else decimal_from 0 s.

(** * Properties *)

(** ** 64-bit counts *)

Lemma int64_in z : in_int64 z -> int64 z = z.
Proof.
  unfold in_int64, int64. intros Hz.
  rewrite Z.mod_small by lia. lia.
Qed.

Lemma int64_range z : in_int64 (int64 z).
Proof.
  unfold in_int64, int64.
  pose proof (Z.mod_pos_bound (z + 2 ^ 63) (2 ^ 64) ltac:(lia)). lia.
Qed.

(** ** Strings *)

Lemma drop_str_empty n : drop_str n EmptyString = EmptyString.
Proof. destruct n; reflexivity. Qed.

Lemma drop_str_add a b s : drop_str (a + b) s = drop_str b (drop_str a s).
Proof.
  revert s; induction a as [|a IH]; intros s; simpl; [reflexivity|].
  destruct s; [now rewrite drop_str_empty | apply IH].
Qed.

Lemma length_drop_str n s :
  String.length (drop_str n s) = (String.length s - n)%nat.
Proof.
  revert s; induction n as [|n IH]; intros [|c s]; simpl; auto with lia.
Qed.

Lemma get_drop_str n s :
  String.get n s =
  match drop_str n s with String c _ => Some c | EmptyString => None end.
Proof.
  revert s; induction n as [|n IH]; intros [|c s]; simpl; auto.
Qed.

Lemma find_if_Some P s j :
  find_if P s = Some j ->
  exists c r, drop_str j s = String c r /\ P c = true
              /\ (j < String.length s)%nat.
Proof.
  revert j; induction s as [|c s IH]; intros j; simpl; [discriminate|].
  destruct (P c) eqn:HP.
  - intros [= <-]. exists c, s. simpl. auto with lia.
  - destruct (find_if P s) as [k|]; simpl; [|discriminate].
    intros [= <-]. destruct (IH k eq_refl) as (d & r & Hd & Hp & Hl).
    exists d, r. simpl. auto with lia.
Qed.

Lemma find_if_Some_head P c s j :
  find_if P (String c s) = Some j -> (j = 0%nat <-> P c = true).
Proof.
  simpl. destruct (P c).
  - intros [= <-]. tauto.
  - destruct (find_if P s); simpl; [|discriminate].
    intros [= <-]. split; [lia | discriminate].
Qed.

Lemma find_if_None_head P c s : find_if P (String c s) = None -> P c = false.
Proof. simpl. destruct (P c); [discriminate | reflexivity]. Qed.

Lemma find_from_Some P s pos i :
  find_from P s pos = Some i ->
  exists j, i = (pos + j)%nat /\ find_if P (drop_str pos s) = Some j.
Proof.
  unfold find_from. destruct (find_if P (drop_str pos s)) as [j|]; simpl;
    [|discriminate].
  intros [= <-]. eauto.
Qed.

Lemma find_from_drop P s pos i :
  find_from P s pos = Some i ->
  exists c r, drop_str i s = String c r /\ P c = true.
Proof.
  intros (j & -> & Hj)%find_from_Some.
  destruct (find_if_Some _ _ _ Hj) as (c & r & Hd & Hp & _).
  exists c, r. now rewrite drop_str_add.
Qed.

Lemma mem_char_colon_slash c :
  mem_char c ":/" = true -> c = ":"%char \/ c = "/"%char.
Proof.
  simpl. rewrite orb_false_r.
  intros [Hc|Hc]%orb_true_iff; apply Ascii.eqb_eq in Hc; auto.
Qed.

Lemma take_str_append a b : take_str (String.length a) (a +:+ b) = a.
Proof. induction a as [|c a IH]; simpl; [now destruct b|now rewrite IH]. Qed.

Lemma take_str_all s : take_str (String.length s) s = s.
Proof. induction s as [|c s IH]; simpl; [reflexivity|now rewrite IH]. Qed.

Lemma length_append (a b : string) :
  String.length (a +:+ b) = (String.length a + String.length b)%nat.
Proof. induction a as [|c a IH]; simpl; auto. Qed.

Lemma find_if_app P a c r :
  all_chars (fun c => negb (P c)) a = true -> P c = true ->
  find_if P (a +:+ String c r) = Some (String.length a).
Proof.
  intros Ha Hc. induction a as [|d a IH]; simpl in *.
  - now rewrite Hc.
  - apply andb_true_iff in Ha as [Hd Ha]. apply negb_true_iff in Hd.
    now rewrite Hd, (IH Ha).
Qed.

Lemma append_empty_r s : s +:+ EmptyString = s.
Proof.
  induction s as [|c s IH]; [reflexivity|].
  change (String c (s +:+ EmptyString) = String c s). now rewrite IH.
Qed.

Lemma find_if_split P s :
  match find_if P s with
  | Some j =>
      exists a c r,
        s = a +:+ String c r /\ String.length a = j
        /\ all_chars (fun c => negb (P c)) a = true /\ P c = true
  | None => all_chars (fun c => negb (P c)) s = true
  end.
Proof.
  induction s as [|d s IH]; simpl; [reflexivity|].
  destruct (P d) eqn:Hd.
  - exists EmptyString, d, s. auto.
  - destruct (find_if P s) as [j|]; simpl.
    + destruct IH as (a & c & r & -> & <- & Ha & Hc).
      exists (String d a), c, r. simpl. rewrite Hd. auto.
    + now rewrite IH.
Qed.

(** ** [HttpUrl] *)

Lemma HttpUrl_protocol url :
  protocol (HttpUrl_ctor url) = (url_scheme url).1.
Proof.
  unfold HttpUrl_ctor. destruct (url_scheme url) as [pr last]; simpl.
  destruct (find_first_of url ":/" last) as [pos|]; [|reflexivity].
  destruct (char_at_is url pos ":"); [|reflexivity].
  now destruct (find_char url "/" (pos + 1)).
Qed.

Lemma HttpUrl_path_begins_with_slash url :
  begins_with "/" (path (HttpUrl_ctor url)).
Proof.
  unfold HttpUrl_ctor, begins_with.
  destruct (url_scheme url) as [pr last].
  destruct (find_first_of url ":/" last) as [pos|] eqn:Hpos;
    [|now exists EmptyString].
  apply find_from_drop in Hpos as (c & r & Hd & Hc).
  unfold char_at_is. rewrite get_drop_str, Hd.
  destruct (Ascii.eqb_spec c ":") as [->|Hne].
  - destruct (find_char url "/" (pos + 1)) as [pos1|] eqn:Hpos1; simpl;
      [|now exists EmptyString].
    apply find_from_drop in Hpos1 as (d & r' & Hd' & Hdc).
    apply Ascii.eqb_eq in Hdc as ->. unfold substr_from. eauto.
  - simpl. unfold substr_from. rewrite Hd.
    apply mem_char_colon_slash in Hc as [->| ->]; [congruence | eauto].
Qed.

Lemma HttpUrl_default_port url :
  explicit_port url = false ->
  port (HttpUrl_ctor url) = default_port (protocol (HttpUrl_ctor url)).
Proof.
  rewrite HttpUrl_protocol. unfold explicit_port, HttpUrl_ctor.
  destruct (url_scheme url) as [pr last]; simpl.
  destruct (find_first_of url ":/" last) as [pos|]; [|reflexivity].
  now intros ->.
Qed.

Lemma take_str_empty_iff n s :
  take_str n s = EmptyString <-> n = 0%nat \/ s = EmptyString.
Proof.
  destruct n, s; simpl; split; intros; auto; try discriminate.
  destruct H as [?|?]; discriminate.
Qed.

Lemma HttpUrl_host url :
  host (HttpUrl_ctor url) =
  match find_first_of url ":/" (url_scheme url).2 with
  | Some pos =>
      substr url (url_scheme url).2
        (wrap (Z.of_nat pos - Z.of_nat (url_scheme url).2))
  | None => substr_from url (url_scheme url).2
  end.
Proof.
  unfold HttpUrl_ctor. destruct (url_scheme url) as [pr last]; simpl.
  destruct (find_first_of url ":/" last) as [pos|]; [|reflexivity].
  destruct (char_at_is url pos ":"); [|reflexivity].
  now destruct (find_char url "/" (pos + 1)).
Qed.

Lemma HttpUrl_host_empty_iff url :
  size url < size_t_modulus ->
  host (HttpUrl_ctor url) = EmptyString <->
  match after_scheme url with
  | EmptyString => True
  | String c _ => c = ":"%char \/ c = "/"%char
  end.
Proof.
  intros Hsz. rewrite HttpUrl_host. unfold after_scheme.
  destruct (url_scheme url) as [pr last]; simpl.
  destruct (find_first_of url ":/" last) as [pos|] eqn:Hpos.
  - apply find_from_Some in Hpos as (j & -> & Hj).
    pose proof (find_if_Some _ _ _ Hj) as (c & r & Hd & Hc & Hlt).
    rewrite length_drop_str in Hlt.
    unfold substr, size, wrap in *.
    replace (Z.of_nat (last + j) - Z.of_nat last) with (Z.of_nat j) by lia.
    rewrite Z.mod_small by lia.
    rewrite Z.min_l by lia. rewrite Nat2Z.id.
    rewrite take_str_empty_iff.
    destruct (drop_str last url) as [|d rest] eqn:Hdrop;
      [simpl in Hj; discriminate|].
    pose proof (find_if_Some_head _ _ _ _ Hj) as Hhead.
    split.
    + intros [Hz|?]; [|discriminate].
      apply mem_char_colon_slash. now apply Hhead.
    + intros Hd'. left. apply Hhead. simpl.
      destruct Hd' as [-> | ->]; reflexivity.
  - unfold find_first_of, find_from in Hpos. unfold substr_from.
    destruct (drop_str last url) as [|d rest] eqn:Hdrop; [tauto|].
    destruct (find_if _ (String d rest)) eqn:Hf; [discriminate|].
    apply find_if_None_head in Hf.
    split; [discriminate|].
    intros [-> | ->]; discriminate.
Qed.

(** The host is what stands between the scheme and the first [:] or
    [/]. *)
Lemma HttpUrl_host_text url :
  size url < size_t_modulus ->
  exists rest,
    after_scheme url = host (HttpUrl_ctor url) +:+ rest
    /\ free_of ":/" (host (HttpUrl_ctor url)) = true
    /\ (rest = EmptyString \/ begins_with ":" rest \/ begins_with "/" rest).
Proof.
  intros Hsz. rewrite HttpUrl_host. unfold after_scheme.
  destruct (url_scheme url) as [pr last]; simpl.
  unfold find_first_of, find_from.
  pose proof (find_if_split (fun c => mem_char c ":/") (drop_str last url))
    as Hsplit.
  destruct (find_if _ (drop_str last url)) as [j|]; simpl.
  - destruct Hsplit as (a & c & r & Hd & <- & Ha & Hc).
    pose proof (length_drop_str last url) as Hlen.
    rewrite Hd, length_append in Hlen. simpl in Hlen.
    unfold substr, size, wrap in *.
    replace (Z.of_nat (last + String.length a) - Z.of_nat last)
      with (Z.of_nat (String.length a)) by lia.
    rewrite Z.mod_small by lia. rewrite Z.min_l by lia.
    rewrite Nat2Z.id, Hd, take_str_append.
    exists (String c r). split; [reflexivity|]. split; [exact Ha|].
    right. apply mem_char_colon_slash in Hc as [-> | ->];
      [left | right]; now exists r.
  - exists EmptyString. unfold substr_from.
    split; [now rewrite append_empty_r|]. split; [exact Hsplit|]. now left.
Qed.

(** C9 (as amended).  For every input string the constructed [HttpUrl]
    has a path that begins with [/]; when the URL has no explicit port the
    port is ["80"] for HTTP and ["443"] for HTTPS; and the host is the
    text between the scheme and the first [:] or [/] (what follows the
    scheme is the host, free of both characters, and then nothing, a [:]
    or a [/]), which is empty exactly when nothing, a [:] or a [/]
    follows the scheme. *)
Theorem HttpUrl_invariants (url : string) :
  let u := HttpUrl_ctor url in
  begins_with "/" (path u)
  /\ (explicit_port url = false ->
      (protocol u = HTTP -> port u = "80")
      /\ (protocol u = HTTPS -> port u = "443"))
  /\ (size url < size_t_modulus ->
      (exists rest,
         after_scheme url = host u +:+ rest
         /\ free_of ":/" (host u) = true
         /\ (rest = EmptyString
             \/ begins_with ":" rest \/ begins_with "/" rest))
      /\ (host u = EmptyString <->
          match after_scheme url with
          | EmptyString => True
          | String c _ => c = ":"%char \/ c = "/"%char
          end)).
Proof.
  intros u. split; [apply HttpUrl_path_begins_with_slash|]. split.
  - intros Hp. subst u. rewrite (HttpUrl_default_port _ Hp).
    split; intros ->; reflexivity.
  - intros Hsz. split.
    + now apply HttpUrl_host_text.
    + now apply HttpUrl_host_empty_iff.
Qed.

Lemma HttpUrl_invariants_witness :
  let url := "http://vcm-2935.vm.duke.edu/event/1/add_person" in
  let u := HttpUrl_ctor url in
  explicit_port url = false /\ size url < size_t_modulus
  /\ begins_with "/" (path u) /\ port u = "80" /\ host u <> EmptyString.
Proof.
  intros url u.
  destruct (HttpUrl_invariants url) as (Hpath & Hport & Hhost).
  assert (Hexp : explicit_port url = false) by reflexivity.
  assert (Hsz : size url < size_t_modulus) by (vm_compute; reflexivity).
  refine (conj Hexp (conj Hsz (conj Hpath (conj _ _)))).
  - apply (Hport Hexp). reflexivity.
  - intros Hempty. apply (Hhost Hsz) in Hempty. vm_compute in Hempty.
    destruct Hempty; discriminate.
Defined.

(** C9 as stated fails: the host of [http:///index.html] is empty, while
    the other two properties hold for it. *)
Lemma HttpUrl_empty_host :
  let u := HttpUrl_ctor "http:///index.html" in
  host u = EmptyString /\ path u = "/index.html" /\ port u = "80"
  /\ ~ (host u <> EmptyString /\ begins_with "/" (path u)
        /\ (explicit_port "http:///index.html" = false ->
            (protocol u = HTTP -> port u = "80")
            /\ (protocol u = HTTPS -> port u = "443"))).
Proof.
  vm_compute. repeat split; try reflexivity.
  intros [Hhost _]. now apply Hhost.
Qed.

(** The URLs of [url_tests] in [http_test.cpp]. *)
Example url_test_1 :
  HttpUrl_ctor "http://www.google.com/"
  = mkHttpUrl HTTP "www.google.com" "80" "/".
Proof. reflexivity. Qed.

Example url_test_2 :
  HttpUrl_ctor "https://www.google.com/"
  = mkHttpUrl HTTPS "www.google.com" "443" "/".
Proof. reflexivity. Qed.

Example url_test_3 :
  HttpUrl_ctor "http://localhost:8000/"
  = mkHttpUrl HTTP "localhost" "8000" "/".
Proof. reflexivity. Qed.

Example url_test_4 :
  HttpUrl_ctor "http://vcm-2935.vm.duke.edu:8000/event/1/add_person"
  = mkHttpUrl HTTP "vcm-2935.vm.duke.edu" "8000" "/event/1/add_person".
Proof. reflexivity. Qed.

(** ** The parser *)

(** *** [reset] *)

Lemma reset_message p : message (reset p) = empty_message.
Proof. reflexivity. Qed.

Lemma reset_state p : state (reset p) = START.
Proof. reflexivity. Qed.

(** [reset] assigns neither [format] nor [contentLength]. *)
Lemma reset_format p : format (reset p) = format p.
Proof. reflexivity. Qed.

Lemma reset_contentLength p : contentLength (reset p) = contentLength p.
Proof. reflexivity. Qed.

(** C6.  For every parser, [reset] empties the message and returns to
    [START], and leaves [format] and [contentLength] as they were: they
    are not set to [PLAIN] and 0.  So after the parser has accepted a
    message with [Content-Length: 3] the format is still [LENGTH] and
    [contentLength] still 3, and the three lines of the body-less request
    that follows on the connection leave the parser in [BODY], waiting
    for three bytes, where a fresh parser accepts the request at the end
    of its headers. *)
Theorem reset_keeps_format_and_contentLength (p : HttpParser) :
  (message (reset p) = empty_message
   /\ state (reset p) = START
   /\ format (reset p) = format p
   /\ contentLength (reset p) = contentLength p)
  /\ let accepted := parsed 8 (HttpParser_ctor empty_message) post_request in
     (state <$> accepted) = Some ACCEPT
     /\ (reset <$> accepted)
        = Some (mkHttpParser empty_message START LENGTH 3)
     /\ (state <$> parsed 3 (mkHttpParser empty_message START LENGTH 3)
                     get_request) = Some BODY
     /\ (state <$> parsed 3 (HttpParser_ctor empty_message) get_request)
        = Some ACCEPT.
Proof.
  split.
  - rewrite reset_message, reset_state, reset_format, reset_contentLength.
    repeat split.
  - vm_compute. repeat split.
Qed.

(** *** Lines taken from the stream *)

Lemma read_until_line delim line rest :
  mem_char delim line = false ->
  read_until delim (line +:+ String delim rest) = (line, Some rest).
Proof.
  induction line as [|c line IH]; simpl.
  - now rewrite Ascii.eqb_refl.
  - rewrite Ascii.eqb_sym.
    intros [Hc Hl]%orb_false_iff. rewrite Hc, (IH Hl). reflexivity.
Qed.

Lemma getline_line line rest :
  mem_char "010" line = false ->
  getline (istream_of (line +:+ String "010" rest)) "010"
  = (line, istream_of rest).
Proof.
  intros Hl. unfold getline, istream_of; simpl.
  now rewrite (read_until_line _ _ _ Hl).
Qed.

Lemma putHeader_getline p line rest :
  mem_char "010" line = false ->
  putHeader p (istream_of (line +:+ String "010" rest))
  = (p' ← putHeader_line p line; Ok (p', istream_of rest)).
Proof.
  intros Hl. unfold putHeader. now rewrite (getline_line _ _ Hl).
Qed.

(** *** Framing headers *)

Lemma is_chunked_transfer_encoding_spec line :
  is_chunked_transfer_encoding line = true <->
  exists h, header_of_line line = Some h
            /\ key h = "Transfer-Encoding"
            /\ contains (value h) "chunked" = true.
Proof.
  unfold is_chunked_transfer_encoding, framing_of_line.
  rewrite bool_decide_eq_true.
  destruct (header_of_line line) as [h|]; simpl.
  - unfold framing_of_header.
    destruct (String.eqb_spec (key h) "Content-Length") as [Hk|Hk].
    + split.
      * destruct (extract_size_t 10 (value h) 0).1; discriminate.
      * intros (h' & [= <-] & Hk' & _). congruence.
    + destruct (String.eqb_spec (key h) "Transfer-Encoding") as [Hk'|Hk'].
      * destruct (contains (value h) "chunked") eqn:Hc.
        -- split; eauto.
        -- split; [discriminate|]. intros (h' & [= <-] & _ & Hc'). congruence.
      * split; [discriminate|]. intros (h' & [= <-] & ? & _). congruence.
  - split; [discriminate|]. intros (h & ? & _). discriminate.
Qed.

Lemma is_parseable_content_length_spec line :
  is_parseable_content_length line = true <->
  exists h, header_of_line line = Some h
            /\ key h = "Content-Length"
            /\ (extract_size_t 10 (value h) 0).1 = true.
Proof.
  unfold is_parseable_content_length, framing_of_line.
  rewrite bool_decide_eq_true.
  destruct (header_of_line line) as [h|]; simpl.
  - unfold framing_of_header.
    destruct (String.eqb_spec (key h) "Content-Length") as [Hk|Hk].
    + destruct (extract_size_t 10 (value h) 0).1 eqn:He.
      * split; eauto.
      * split; [discriminate|]. intros (h' & [= <-] & _ & He'). congruence.
    + split.
      * destruct (key h =? "Transfer-Encoding")%string;
          [destruct (contains (value h) "chunked")|]; discriminate.
      * intros (h' & [= <-] & ? & _). congruence.
  - split; [discriminate|]. intros (h & ? & _). discriminate.
Qed.

Lemma framing_of_line_range line f :
  framing_of_line line = Some f -> f = LENGTH \/ f = CHUNKED.
Proof.
  unfold framing_of_line. destruct (header_of_line line) as [h|]; simpl;
    [|discriminate].
  unfold framing_of_header.
  destruct (key h =? "Content-Length")%string.
  - destruct (extract_size_t 10 (value h) 0).1; [|discriminate].
    intros [= <-]; auto.
  - destruct (key h =? "Transfer-Encoding")%string; [|discriminate].
    destruct (contains (value h) "chunked"); [|discriminate].
    intros [= <-]; auto.
Qed.

Lemma extract_size_t_ok base s old old' :
  (extract_size_t base s old).1 = (extract_size_t base s old').1.
Proof.
  unfold extract_size_t. now destruct (extract_unsigned base SIZE_MAX s).
Qed.

Lemma inspect_framing_format p h p' :
  inspect_framing p h = Ok p' ->
  format p' = default (format p) (framing_of_header h).
Proof.
  unfold inspect_framing, framing_of_header.
  destruct (key h =? "Content-Length")%string.
  - rewrite (extract_size_t_ok 10 (value h) 0 (contentLength p)).
    destruct (extract_size_t 10 (value h) (contentLength p)) as [[] n]; simpl.
    + destruct (n >? string_max_size); [discriminate|].
      now intros [= <-].
    + now intros [= <-].
  - destruct (key h =? "Transfer-Encoding")%string.
    + destruct (contains (value h) "chunked"); now intros [= <-].
    + now intros [= <-].
Qed.

Lemma putHeader_line_header p line h :
  header_of_line line = Some h ->
  putHeader_line p line = inspect_framing (push_header p h) h.
Proof.
  unfold header_of_line, putHeader_line.
  destruct (is_blank line); [discriminate|].
  destruct (find_first_of line ": " 0) as [pos|]; [|discriminate].
  destruct (char_at_is line pos " "); [discriminate|].
  now intros [= <-].
Qed.

Lemma putHeader_line_format p line p' :
  putHeader_line p line = Ok p' ->
  format p' = default (format p) (framing_of_line line).
Proof.
  unfold framing_of_line.
  destruct (header_of_line line) as [h|] eqn:Hh; simpl.
  - rewrite (putHeader_line_header _ _ _ Hh).
    intros Hi. now apply inspect_framing_format in Hi.
  - revert Hh. unfold header_of_line, putHeader_line.
    destruct (is_blank line).
    + intros _. destruct (hasBody p) as [b| |]; simpl; try discriminate.
      now intros [= <-].
    + destruct (find_first_of line ": " 0) as [pos|]; [|discriminate].
      destruct (char_at_is line pos " "); discriminate.
Qed.

Lemma putHeader_lines_format lines : forall p p',
  putHeader_lines p lines = Ok p' ->
  format p' = last_framing (format p) lines.
Proof.
  induction lines as [|line lines IH]; intros p p'; simpl.
  - now intros [= <-].
  - destruct (putHeader_line p line) as [p1| |] eqn:H1; simpl;
      try discriminate.
    intros H2. rewrite (IH _ _ H2).
    now rewrite (putHeader_line_format _ _ _ H1).
Qed.

Lemma last_framing_app f l1 l2 :
  last_framing f (l1 ++ l2) = last_framing (last_framing f l1) l2.
Proof. apply fold_left_app. Qed.

Lemma last_framing_chunked lines :
  Forall (fun line => is_parseable_content_length line = false) lines ->
  last_framing CHUNKED lines = CHUNKED.
Proof.
  induction 1 as [|line lines Hline _ IH]; [reflexivity|].
  unfold last_framing in *; simpl.
  destruct (framing_of_line line) as [f|] eqn:Hf; simpl; [|exact IH].
  destruct (framing_of_line_range _ _ Hf) as [-> | ->]; [|exact IH].
  unfold is_parseable_content_length in Hline.
  rewrite bool_decide_eq_false in Hline. contradiction.
Qed.

Lemma last_framing_none f lines :
  Forall (fun line => framing_of_line line = None) lines ->
  last_framing f lines = f.
Proof.
  induction 1 as [|line lines Hline _ IH]; [reflexivity|].
  unfold last_framing in *; simpl. now rewrite Hline.
Qed.

(** C5 (as amended).  When the header lines put into the parser contain a
    [Transfer-Encoding] header whose value contains [chunked], the format
    afterwards is [CHUNKED] provided no [Content-Length] header with a
    parseable value comes after it; a parseable [Content-Length] header
    that comes after it, with no framing header behind, leaves the format
    [LENGTH]: the last framing header decides. *)
Theorem chunked_unless_content_length_follows
    (p p' : HttpParser) (before after : list string) (te : string) :
  putHeader_lines p (before ++ te :: after) = Ok p' ->
  is_chunked_transfer_encoding te = true ->
  (Forall (fun line => is_parseable_content_length line = false) after ->
   format p' = CHUNKED)
  /\ (forall between cl behind,
        after = between ++ cl :: behind ->
        is_parseable_content_length cl = true ->
        Forall (fun line => framing_of_line line = None) behind ->
        format p' = LENGTH).
Proof.
  intros Hrun Hte. apply putHeader_lines_format in Hrun.
  rewrite last_framing_app in Hrun.
  unfold is_chunked_transfer_encoding in Hte.
  rewrite bool_decide_eq_true in Hte. split.
  - intros Hafter. rewrite Hrun.
    change (last_framing ?f (te :: after))
      with (last_framing (default f (framing_of_line te)) after).
    rewrite Hte. now apply last_framing_chunked.
  - intros between cl behind -> Hcl Hbehind. rewrite Hrun.
    change (te :: between ++ cl :: behind)
      with ((te :: between) ++ cl :: behind).
    rewrite last_framing_app.
    change (last_framing ?f (cl :: behind))
      with (last_framing (default f (framing_of_line cl)) behind).
    unfold is_parseable_content_length in Hcl.
    rewrite bool_decide_eq_true in Hcl. rewrite Hcl.
    now apply last_framing_none.
Qed.

Lemma chunked_unless_content_length_follows_witness :
  let p := mkHttpParser (mkHttpMessage ("POST", "/upload", "HTTP/1.1") []
                           EmptyString) HEADER PLAIN 0 in
  let lines := ["Host: origin"; "Content-Length: 5";
                "transfer-encoding: gzip, chunked"; "Accept: */*"] in
  exists p', putHeader_lines p lines = Ok p' /\ format p' = CHUNKED.
Proof.
  intros p lines.
  destruct (putHeader_lines p lines) as [p'| |] eqn:Hrun;
    [|vm_compute in Hrun; discriminate..].
  exists p'. split; [reflexivity|].
  refine (proj1 (chunked_unless_content_length_follows p p'
            ["Host: origin"; "Content-Length: 5"]
            ["Accept: */*"] "transfer-encoding: gzip, chunked" Hrun _) _).
  - reflexivity.
  - repeat constructor.
Defined.

(** C5 as stated fails: with [Content-Length] after
    [Transfer-Encoding: chunked] the format at the end of the header
    section is [LENGTH], and the five bytes that follow are the body. *)
Lemma content_length_after_chunked :
  let input :=
    "POST http://origin/upload HTTP/1.1" +:+ CRLF
    +:+ "Transfer-Encoding: chunked" +:+ CRLF
    +:+ "Content-Length: 5" +:+ CRLF +:+ CRLF +:+ "hello" in
  let at_end_of_headers := parsed 4 (HttpParser_ctor empty_message) input in
  (state <$> at_end_of_headers) = Some BODY
  /\ (format <$> at_end_of_headers) = Some LENGTH
  /\ (format <$> at_end_of_headers) <> Some CHUNKED
  /\ ((fun p => (state p, body (message p)))
        <$> parsed 8 (HttpParser_ctor empty_message) input)
     = Some (ACCEPT, "hello").
Proof. vm_compute. repeat split. discriminate. Qed.

(** *** A [Content-Length] that is not a number *)

Lemma find_if_not_Some Q s j :
  find_if (fun c => negb (Q c)) s = Some j -> drop_str j s = skip_chars Q s.
Proof.
  revert j; induction s as [|c s IH]; intros j; simpl; [discriminate|].
  destruct (Q c); simpl.
  - destruct (find_if _ s) as [k|]; simpl; [|discriminate].
    intros [= <-]. simpl. now apply IH.
  - now intros [= <-].
Qed.

Lemma find_if_not_None Q s :
  find_if (fun c => negb (Q c)) s = None -> all_chars Q s = true.
Proof.
  induction s as [|c s IH]; simpl; [reflexivity|].
  destruct (Q c); simpl; [|discriminate].
  destruct (find_if _ s); simpl; [discriminate|]. auto.
Qed.

Lemma all_chars_drop_str Q n s :
  all_chars Q s = true -> all_chars Q (drop_str n s) = true.
Proof.
  revert s; induction n as [|n IH]; intros [|c s]; simpl; auto.
  intros [_ Hs]%andb_true_iff. auto.
Qed.

Lemma all_chars_take_str Q n s :
  all_chars Q s = true -> all_chars Q (take_str n s) = true.
Proof.
  revert s; induction n as [|n IH]; intros [|c s]; simpl; auto.
  intros [-> Hs]%andb_true_iff. simpl. auto.
Qed.

Lemma space_or_tab_isspace c :
  mem_char c SP_HT = true -> isspace c = true.
Proof.
  simpl. rewrite orb_false_r.
  intros [Hc|Hc]%orb_true_iff; apply Ascii.eqb_eq in Hc; now subst.
Qed.

Lemma skip_ws_all_space Q s :
  (forall c, Q c = true -> isspace c = true) ->
  all_chars Q s = true -> skip_ws s = EmptyString.
Proof.
  intros HQ. induction s as [|c s IH]; simpl; [reflexivity|].
  intros [Hc Hs]%andb_true_iff. rewrite (HQ _ Hc). auto.
Qed.

Lemma skip_ws_skip_chars Q s :
  (forall c, Q c = true -> isspace c = true) ->
  skip_ws (skip_chars Q s) = skip_ws s.
Proof.
  intros HQ. induction s as [|c s IH]; simpl; [reflexivity|].
  destruct (Q c) eqn:Hc; [|reflexivity].
  now rewrite (HQ _ Hc).
Qed.

Lemma begins_with_digit_take n s :
  begins_with_digit (take_str n s) = true -> begins_with_digit s = true.
Proof. destruct n, s; simpl; auto; discriminate. Qed.

Lemma begins_with_integer_take s : forall n,
  begins_with_integer (take_str n s) = true -> begins_with_integer s = true.
Proof.
  unfold begins_with_integer.
  induction s as [|c s IH]; intros [|n]; simpl; try discriminate.
  destruct (isspace c) eqn:Hsp; [apply IH|].
  unfold strip_sign.
  destruct (Ascii.eqb_spec c "-") as [->|Hm]; simpl;
    [apply begins_with_digit_take|].
  destruct (Ascii.eqb_spec c "+") as [->|Hp]; simpl;
    [apply begins_with_digit_take|].
  assert (Hsame : forall t : string,
            (match String c t with
             | String "-" r => (true, r)
             | String "+" r => (false, r)
             | _ => (false, String c t)
             end).2 = String c t).
  { intros t.
    destruct c as [[] [] [] [] [] [] [] []]; try reflexivity;
      congruence. }
  now rewrite !Hsame.
Qed.

Lemma not_integer_extract max v :
  begins_with_integer v = false ->
  extract_unsigned 10 max v = NotAttempted
  \/ extract_unsigned 10 max v = Stored false 0.
Proof.
  unfold begins_with_integer, extract_unsigned, num_get_unsigned.
  destruct (skip_ws v =? EmptyString)%string; [auto|].
  destruct (strip_sign (skip_ws v)) as [negative s1]; simpl.
  destruct s1 as [|c r]; simpl; [auto|].
  unfold digit_value. intros ->. simpl. auto.
Qed.

Lemma not_integer_extract_size_t v old :
  begins_with_integer v = false ->
  exists n, extract_size_t 10 v old = (false, n) /\ (n = 0 \/ n = old).
Proof.
  intros Hv. unfold extract_size_t.
  destruct (not_integer_extract SIZE_MAX v Hv) as [-> | ->]; eauto.
Qed.

Lemma find_last_if_ge P s : forall i c r,
  drop_str i s = String c r -> P c = true ->
  exists k, find_last_if P s = Some k /\ (i <= k)%nat.
Proof.
  induction s as [|d s IH]; intros i c r Hd Hc.
  - now rewrite drop_str_empty in Hd.
  - destruct i as [|i]; simpl in *.
    + injection Hd as -> ->. rewrite Hc.
      destruct (find_last_if P r) as [k|]; eexists; split; eauto with lia.
    + destruct (IH _ _ _ Hd Hc) as (k & -> & Hk).
      exists (S k). split; [reflexivity | lia].
Qed.

(** The header appended for the line [Content-Length: v]: its value is
    a prefix of what follows the spaces and tabs after the colon, or it
    consists of spaces and tabs. *)
Lemma content_length_header_of_line v :
  exists n t,
    header_of_line ("Content-Length: " +:+ v)
    = Some (mkHeader "Content-Length" (take_str n t))
    /\ (t = skip_chars space_or_tab v \/ all_chars space_or_tab t = true).
Proof.
  set (line := "Content-Length: " +:+ v).
  assert (Hrest : drop_str 15 line = String " " v) by reflexivity.
  assert (Hcolon : drop_str 14 line = String ":" (String " " v))
    by reflexivity.
  unfold header_of_line.
  replace (is_blank line) with false by reflexivity.
  replace (find_first_of line ": " 0) with (Some 14%nat) by reflexivity.
  replace (char_at_is line 14 " ") with false by reflexivity.
  unfold split_header; simpl key; simpl value.
  replace (substr line 0 (Z.of_nat 14)) with "Content-Length".
  2:{ unfold substr, size. subst line. simpl String.length.
      rewrite Z.min_l by lia. reflexivity. }
  replace (canonicalize "Content-Length") with "Content-Length"
    by reflexivity.
  unfold substr.
  destruct (find_last_if_ge
              (fun c => negb (mem_char c
                 SP_HT_CR))
              line 14 ":" _ Hcolon eq_refl) as (k & Hk & Hle).
  unfold find_last_not_of. rewrite Hk.
  unfold find_first_not_of, find_from. rewrite Hrest.
  destruct (find_if _ (String " " v)) as [j|] eqn:Hj; simpl option_map; cbv iota.
  - eexists _, (drop_str (15 + j) line). split; [reflexivity|]. left.
    rewrite drop_str_add, Hrest.
    rewrite (find_if_not_Some space_or_tab _ _ Hj). reflexivity.
  - eexists _, (drop_str (S k) line). split; [reflexivity|]. right.
    replace (S k) with (15 + (k - 14))%nat by lia.
    rewrite drop_str_add, Hrest.
    apply all_chars_drop_str.
    now apply (find_if_not_None space_or_tab).
Qed.

Lemma content_length_value_not_integer v n t :
  begins_with_integer v = false ->
  t = skip_chars space_or_tab v \/ all_chars space_or_tab t = true ->
  begins_with_integer (take_str n t) = false.
Proof.
  intros Hv [-> | Hall].
  - destruct (begins_with_integer (take_str n _)) eqn:Hb; [|reflexivity].
    apply begins_with_integer_take in Hb.
    unfold begins_with_integer in Hb.
    rewrite (skip_ws_skip_chars _ _ space_or_tab_isspace) in Hb.
    unfold begins_with_integer in Hv. congruence.
  - unfold begins_with_integer.
    rewrite (skip_ws_all_space space_or_tab); [reflexivity | |].
    + apply space_or_tab_isspace.
    + now apply all_chars_take_str.
Qed.

(** C10 (as amended).  For the header line [Content-Length: v] where [v]
    does not begin with an integer, [putHeader] raises no [ParseError];
    the header is appended to the header list; the line does not set the
    format (it stays what it was) and leaves [contentLength] as it was or
    zero, so it never turns the test for a body of positive length on;
    and for a parser that has seen no effective [Content-Length] header
    (its format is not [LENGTH]) the decision of [hasBody] is the same as
    before the line. *)
Theorem putHeader_content_length_not_integer (p : HttpParser) (v : string) :
  begins_with_integer v = false ->
  exists p' val,
    putHeader_line p ("Content-Length: " +:+ v) = Ok p'
    /\ header_of_line ("Content-Length: " +:+ v)
       = Some (mkHeader "Content-Length" val)
    /\ message p'
       = mkHttpMessage (startLine (message p))
           (headerLines (message p) ++ [mkHeader "Content-Length" val])
           (body (message p))
    /\ state p' = state p
    /\ format p' = format p
    /\ (contentLength p' = 0 \/ contentLength p' = contentLength p)
    /\ (framing_has_body p' = true -> framing_has_body p = true)
    /\ (format p <> LENGTH -> hasBody p' = hasBody p).
Proof.
  intros Hv.
  destruct (content_length_header_of_line v) as (n & t & Hh & Ht).
  pose proof (content_length_value_not_integer v n t Hv Ht) as Hval.
  destruct (not_integer_extract_size_t _ (contentLength p) Hval)
    as (m & Hext & Hm).
  rewrite (putHeader_line_header p _ _ Hh).
  unfold inspect_framing. simpl key; simpl value.
  replace ("Content-Length" =? "Content-Length")%string with true
    by reflexivity.
  change (contentLength (push_header p _)) with (contentLength p).
  rewrite Hext.
  eexists _, _. split; [reflexivity|]. split; [exact Hh|].
  simpl. repeat split; try assumption.
  - unfold framing_has_body; simpl.
    destruct Hm as [-> | ->]; [|tauto].
    rewrite andb_false_r. simpl. intros ->. apply orb_true_r.
  - intros Hf. unfold hasBody, framing_has_body; simpl.
    rewrite (bool_decide_eq_false_2 (format p = LENGTH)) by assumption.
    reflexivity.
Qed.

Lemma putHeader_content_length_not_integer_witness :
  let p := mkHttpParser (mkHttpMessage ("POST", "/upload", "HTTP/1.1")
                           [mkHeader "Host" "origin"] EmptyString)
             HEADER PLAIN 0 in
  begins_with_integer "abc" = false
  /\ putHeader_line p "Content-Length: abc"
     = Ok (mkHttpParser
             (mkHttpMessage ("POST", "/upload", "HTTP/1.1")
                [mkHeader "Host" "origin"; mkHeader "Content-Length" "abc"]
                EmptyString)
             HEADER PLAIN 0).
Proof.
  intros p. split; [reflexivity|].
  destruct (putHeader_content_length_not_integer p "abc" eq_refl)
    as (p' & val & Hrun & _).
  etransitivity; [exact Hrun|].
  rewrite <- Hrun. reflexivity.
Defined.

(** C10 as stated fails: after the header line [Content-Length: 5] the
    format is [LENGTH] and [contentLength] is 5, and [hasBody] gives the
    request a body.  The line [Content-Length: abc] that follows raises
    nothing and is appended, but the failed extraction stores 0 in
    [contentLength]: the format is still [LENGTH], not what it is when no
    [Content-Length] header was seen, and [hasBody] gives the request no
    body any more, so the decision is not what it was without the
    line. *)
Lemma content_length_not_integer_after_length :
  let p0 := mkHttpParser (mkHttpMessage ("POST", "/upload", "HTTP/1.1")
                            [] EmptyString)
              HEADER PLAIN 0 in
  begins_with_integer "abc" = false
  /\ exists p p',
       putHeader_line p0 "Content-Length: 5" = Ok p
       /\ format p = LENGTH /\ contentLength p = 5
       /\ hasBody p = Ok true
       /\ putHeader_line p "Content-Length: abc" = Ok p'
       /\ headerLines (message p')
          = [mkHeader "Content-Length" "5"; mkHeader "Content-Length" "abc"]
       /\ format p' = LENGTH /\ contentLength p' = 0
       /\ hasBody p' = Ok false
       /\ hasBody p' <> hasBody p
       /\ format p' <> format p0.
Proof.
  intros p0. split; [reflexivity|].
  eexists _, _. split; [vm_compute; reflexivity|].
  split; [reflexivity|]. split; [reflexivity|]. split; [reflexivity|].
  split; [vm_compute; reflexivity|].
  repeat split; discriminate.
Qed.

(** *** Chunked bodies *)

Lemma append_assoc (a b c : string) : (a +:+ b) +:+ c = a +:+ (b +:+ c).
Proof.
  induction a as [|x a IH]; [reflexivity|].
  change (String x ((a +:+ b) +:+ c) = String x (a +:+ (b +:+ c))).
  now rewrite IH.
Qed.

Lemma parseStep_chunk_header p line rest :
  at_chunk_header p ->
  mem_char "010" line = false ->
  parseStep p (istream_of (line +:+ String "010" rest))
  = let p1 := append_body p (line +:+ LF) in
    if is_blank line then Ok (set_state p1 ACCEPT, istream_of rest)
    else
      let n := chunk_size line in
      Ok (set_contentLength p1 (if n =? 0 then n else wrap (n + 2)),
          istream_of rest).
Proof.
  intros (Hs & Hf & Hc) Hline. unfold parseStep, putContent.
  rewrite Hs, Hf, Hc. simpl (0 =? 0).  cbv iota.
  rewrite (getline_line _ _ Hline).
  destruct (is_blank line); [reflexivity|].
  unfold chunk_size. change (contentLength (append_body p _)) with (contentLength p).
  rewrite Hc. now destruct (extract_size_t 16 line 0).
Qed.

(** C7 (as amended).  With the parser about to read a chunk header: a
    chunk-header line whose hex size is 0 is appended to the body with a
    line feed and leaves the parser in [BODY], still about to read a
    chunk header; an empty line (or a lone carriage return) is appended
    likewise and takes the parser to [ACCEPT]; consequently a chunked body
    that consists of a single zero-size chunk reaches [ACCEPT] in two
    steps, with both raw lines in the body. *)
Theorem chunked_accept_on_blank_line (p : HttpParser) :
  at_chunk_header p ->
  (forall line rest,
     mem_char "010" line = false -> is_blank line = false ->
     chunk_size line = 0 ->
     exists p',
       parseStep p (istream_of (line +:+ String "010" rest))
       = Ok (p', istream_of rest)
       /\ at_chunk_header p'
       /\ body (message p') = body (message p) +:+ line +:+ LF)
  /\ (forall line rest,
        mem_char "010" line = false -> is_blank line = true ->
        exists p',
          parseStep p (istream_of (line +:+ String "010" rest))
          = Ok (p', istream_of rest)
          /\ state p' = ACCEPT
          /\ body (message p') = body (message p) +:+ line +:+ LF)
  /\ (exists p',
        parse 2 p (istream_of ("0" +:+ CRLF +:+ CRLF))
        = Ok (p', istream_of EmptyString)
        /\ state p' = ACCEPT
        /\ body (message p')
           = body (message p) +:+ "0" +:+ CRLF +:+ CRLF).
Proof.
  intros Hp. pose proof Hp as (Hs & Hf & Hc). repeat split.
  - intros line rest Hline Hblank Hsize.
    rewrite (parseStep_chunk_header _ _ _ Hp Hline); simpl.
    rewrite Hblank, Hsize. simpl.
    eexists. split; [reflexivity|]. repeat split; assumption.
  - intros line rest Hline Hblank.
    rewrite (parseStep_chunk_header _ _ _ Hp Hline); simpl.
    rewrite Hblank. eexists. split; [reflexivity|]. split; reflexivity.
  - simpl parse. rewrite Hs. simpl.
    change ("0" +:+ CRLF +:+ CRLF)
      with (String "0" CR +:+ String "010" CRLF).
    rewrite (parseStep_chunk_header p (String "0" CR) CRLF
               Hp eq_refl).
    simpl. rewrite Hs. simpl.
    change CRLF with (CR +:+ LF).
    rewrite (parseStep_chunk_header _ CR EmptyString);
      [|repeat split; assumption | reflexivity].
    simpl. eexists. split; [reflexivity|]. split; [reflexivity|].
    simpl. now rewrite append_assoc.
Qed.

Lemma chunked_accept_on_blank_line_witness :
  let p := mkHttpParser
             (mkHttpMessage ("HTTP/1.1", "200", "OK")
                [mkHeader "Transfer-Encoding" "chunked"] EmptyString)
             BODY CHUNKED 0 in
  at_chunk_header p
  /\ exists p',
       parse 2 p (istream_of ("0" +:+ CRLF +:+ CRLF))
       = Ok (p', istream_of EmptyString)
       /\ state p' = ACCEPT
       /\ body (message p') = "0" +:+ CRLF +:+ CRLF.
Proof.
  intros p.
  assert (Hp : at_chunk_header p) by (repeat split).
  split; [exact Hp|].
  exact (proj2 (proj2 (chunked_accept_on_blank_line p Hp))).
Defined.

(** C7 as stated fails: the step that reads the chunk-header line [0] of
    the body [0 CRLF CRLF] leaves the parser in [BODY]; it is the empty
    line after it that takes the parser to [ACCEPT]. *)
Lemma zero_size_chunk_header_stays_in_body :
  let p := mkHttpParser
             (mkHttpMessage ("HTTP/1.1", "200", "OK")
                [mkHeader "Transfer-Encoding" "chunked"] EmptyString)
             BODY CHUNKED 0 in
  let zero_chunk := "0" +:+ CRLF +:+ CRLF in
  chunk_size (String "0" CR) = 0
  /\ parseStep p (istream_of zero_chunk)
     = Ok (mkHttpParser
             (mkHttpMessage ("HTTP/1.1", "200", "OK")
                [mkHeader "Transfer-Encoding" "chunked"] ("0" +:+ CRLF))
             BODY CHUNKED 0, istream_of CRLF)
  /\ (state <$> parsed 1 p zero_chunk) <> Some ACCEPT
  /\ (state <$> parsed 2 p zero_chunk) = Some ACCEPT.
Proof. vm_compute. repeat split. discriminate. Qed.

(** Scenario 6 of the specification: the chunks [5 CRLF hello CRLF 0 CRLF
    CRLF] are accumulated verbatim. *)
Example chunked_upstream :
  let input :=
    "HTTP/1.1 200 OK" +:+ CRLF +:+ "Transfer-Encoding: chunked" +:+ CRLF
    +:+ CRLF +:+ "5" +:+ CRLF +:+ "hello" +:+ CRLF +:+ "0" +:+ CRLF +:+ CRLF in
  ((fun p => (state p, body (message p)))
     <$> parsed 16 (HttpParser_ctor empty_message) input)
  = Some (ACCEPT, "5" +:+ CRLF +:+ "hello" +:+ CRLF +:+ "0" +:+ CRLF +:+ CRLF).
Proof. reflexivity. Qed.

(** The response of [http_tests] in [http_test.cpp]. *)
Example http_test_response :
  parsed 16 (HttpParser_ctor empty_message)
    ("HTTP/1.1 200 OK" +:+ CRLF +:+ "Content-Length: 10" +:+ CRLF +:+ CRLF
     +:+ "1234567890")
  = Some (mkHttpParser
            (mkHttpMessage ("HTTP/1.1", "200", "OK")
               [mkHeader "Content-Length" "10"] "1234567890")
            ACCEPT LENGTH 10).
Proof. reflexivity. Qed.

(** ** The cache-control evaluator *)

Section EvaluatorFacts.
Context `{Runtime}.

Lemma parse_date_cases v :
  parse_date v = match date_of v with
                 | Some t => Ok t
                 | None => Throw (ParseError "invalid date format")
                 end.
Proof. unfold parse_date, date_of. now destruct (get_time v). Qed.

Lemma parseDeltaSeconds_cases v :
  parseDeltaSeconds v = match age_of v with
                        | Some t => Ok t
                        | None => Throw (ParseError "invalid delta-second format")
                        end.
Proof.
  unfold parseDeltaSeconds, age_of.
  now destruct (try_lexical_convert_uint32 v).
Qed.

Lemma scan_response_header_caught h st :
  catch_ParseError (scan_response_header h st) st = Ok (scan_step st h).
Proof.
  unfold scan_step, scan_response_header.
  rewrite !parse_date_cases, parseDeltaSeconds_cases.
  destruct (key h =? "Age")%string; [now destruct (age_of (value h))|].
  destruct (key h =? "Cache-Control")%string; [reflexivity|].
  destruct (key h =? "Date")%string; [now destruct (date_of (value h))|].
  destruct (key h =? "Etag")%string; [reflexivity|].
  destruct (key h =? "Expires")%string; [now destruct (date_of (value h))|].
  destruct (key h =? "Last-Modified")%string;
    [now destruct (date_of (value h))|].
  reflexivity.
Qed.

Lemma scan_response_headers_fold hs : forall st,
  scan_response_headers hs st = Ok (fold_left scan_step hs st).
Proof.
  induction hs as [|h hs IH]; intros st; simpl; [reflexivity|].
  rewrite scan_response_header_caught. simpl. apply IH.
Qed.

Lemma scan_step_date st h :
  scan_date_value (scan_step st h)
  = if (key h =? "Date")%string
    then match date_of (value h) with
         | Some t => Some t
         | None => scan_date_value st
         end
    else scan_date_value st.
Proof.
  unfold scan_step, scan_response_header.
  rewrite !parse_date_cases, parseDeltaSeconds_cases.
  destruct (String.eqb_spec (key h) "Date") as [->|Hd]; simpl.
  - now destruct (date_of (value h)).
  - destruct (key h =? "Age")%string; [now destruct (age_of (value h))|].
    destruct (key h =? "Cache-Control")%string; [reflexivity|].
    destruct (key h =? "Etag")%string; [reflexivity|].
    destruct (key h =? "Expires")%string;
      [now destruct (date_of (value h))|].
    destruct (key h =? "Last-Modified")%string;
      [now destruct (date_of (value h))|].
    reflexivity.
Qed.

Lemma scan_step_age st h :
  age_value (scan_step st h)
  = if (key h =? "Age")%string
    then match age_of (value h) with
         | Some t => t
         | None => age_value st
         end
    else age_value st.
Proof.
  unfold scan_step, scan_response_header.
  rewrite !parse_date_cases, parseDeltaSeconds_cases.
  destruct (key h =? "Age")%string; [now destruct (age_of (value h))|].
  destruct (key h =? "Cache-Control")%string; [reflexivity|].
  destruct (key h =? "Date")%string; [now destruct (date_of (value h))|].
  destruct (key h =? "Etag")%string; [reflexivity|].
  destruct (key h =? "Expires")%string; [now destruct (date_of (value h))|].
  destruct (key h =? "Last-Modified")%string;
    [now destruct (date_of (value h))|].
  reflexivity.
Qed.

Lemma fold_scan_date hs : forall st,
  scan_date_value (fold_left scan_step hs st)
  = scan_last "Date" date_of Some hs (scan_date_value st).
Proof.
  induction hs as [|h hs IH]; intros st; simpl; [reflexivity|].
  now rewrite IH, scan_step_date.
Qed.

Lemma fold_scan_age hs : forall st,
  age_value (fold_left scan_step hs st)
  = scan_last "Age" age_of id hs (age_value st).
Proof.
  induction hs as [|h hs IH]; intros st; simpl; [reflexivity|].
  now rewrite IH, scan_step_age.
Qed.

(** Some [Date] header parses exactly when the scan ends with a date. *)
Lemma scan_last_is_Some (k : string) parse hs : forall acc : option Z,
  is_Some (scan_last k parse Some hs acc) <->
  is_Some acc
  \/ exists h, h ∈ hs /\ key h = k /\ is_Some (parse (value h)).
Proof.
  induction hs as [|h hs IH]; intros acc; simpl.
  - split; [auto|]. intros [?|(h & Hin & _)]; [assumption|].
    now apply elem_of_nil in Hin.
  - rewrite IH. split.
    + intros [Hacc|(h' & Hin & Hk & Hp)].
      * destruct (String.eqb_spec (key h) k) as [Hk|Hk]; [|auto].
        destruct (parse (value h)) as [z|] eqn:Hz; [|auto].
        right. exists h. split; [apply list_elem_of_here|].
        rewrite Hz. eauto.
      * right. exists h'. split; [now apply list_elem_of_further|auto].
    + intros [Hacc|(h' & Hin & Hk & Hp)].
      * left. destruct (key h =? k)%string; [|assumption].
        destruct (parse (value h)); eauto.
      * apply elem_of_cons in Hin as [->|Hin].
        -- left. rewrite <- Hk, String.eqb_refl.
           destruct Hp as [z ->]. eauto.
        -- right. eauto.
Qed.

Lemma date_header_is_Some hs :
  is_Some (date_header hs) <->
  exists h, h ∈ hs /\ key h = "Date" /\ is_Some (get_time (value h)).
Proof.
  unfold date_header. rewrite scan_last_is_Some. split.
  - intros [[? [=]]|(h & Hin & Hk & Hp)].
    exists h. repeat split; try assumption.
    unfold date_of in Hp. destruct (get_time (value h)); [eauto|].
    now destruct Hp.
  - intros (h & Hin & Hk & [t Hp]). right. exists h.
    repeat split; try assumption. unfold date_of. rewrite Hp. simpl. eauto.
Qed.

(** The loop of [parseCacheControl] never fails: a [ParseError] in a
    field is caught. *)
Lemma parseCacheControl_field_caught field st :
  exists st', catch_ParseError (parseCacheControl_field field st) st = Ok st'.
Proof.
  unfold parseCacheControl_field.
  rewrite !parseDeltaSeconds_cases.
  repeat match goal with
         | |- context [if ?b then _ else _] => destruct b
         | |- context [match age_of ?v with _ => _ end] => destruct (age_of v)
         end; simpl; eauto.
Qed.

Lemma parseCacheControl_loop_total fuel : forall ss st,
  exists st', parseCacheControl_loop fuel ss st = Ok st'.
Proof.
  induction fuel as [|fuel IH]; intros ss st; simpl; [eauto|].
  destruct (getline (ws ss) ",") as [field ss'].
  destruct (failbit ss'); [eauto|].
  destruct (parseCacheControl_field_caught field st) as (st1 & ->).
  simpl. apply IH.
Qed.

(** Each turn of the loop that does not end it takes at least one
    character from the stream, so the fuel given in [parseCacheControl]
    suffices: more fuel gives the same result. *)
Lemma length_skip_ws s :
  (String.length (skip_ws s) <= String.length s)%nat.
Proof.
  induction s as [|c s IH]; simpl; [lia|].
  destruct (isspace c); simpl; lia.
Qed.

Lemma read_until_length d s line rest :
  read_until d s = (line, rest) ->
  match rest with
  | Some r => (String.length r < String.length s)%nat
  | None => line = s
  end.
Proof.
  revert line rest; induction s as [|c s IH]; intros line rest; simpl.
  - now intros [= <- <-].
  - destruct (c =? d)%char.
    + intros [= <- <-]. simpl. lia.
    + destruct (read_until d s) as [l r] eqn:Hr.
      intros [= <- <-]. specialize (IH _ _ eq_refl).
      destruct r; [lia | now rewrite IH].
Qed.

Lemma getline_ws_shrinks ss d field ss' :
  getline (ws ss) d = (field, ss') ->
  failbit ss' = false ->
  (String.length (rdbuf ss') < String.length (rdbuf ss))%nat.
Proof.
  unfold ws, getline.
  destruct (good ss) eqn:Hgood.
  2:{ simpl. intros [= <- <-]. discriminate. }
  pose proof (length_skip_ws (rdbuf ss)) as Hskip.
  destruct (String.eqb_spec (skip_ws (rdbuf ss)) EmptyString) as [He|Hne].
  { unfold good. simpl. intros [= <- <-]. discriminate. }
  unfold good. simpl.
  destruct (read_until d (skip_ws (rdbuf ss))) as [line rest] eqn:Hr.
  apply read_until_length in Hr.
  destruct rest as [r|]; intros [= <- <-]; simpl.
  - intros _. lia.
  - subst line. intros _.
    destruct (skip_ws (rdbuf ss)); [congruence | simpl in *; lia].
Qed.

Lemma parseCacheControl_loop_fuel fuel : forall fuel' ss st,
  (String.length (rdbuf ss) < fuel)%nat ->
  (String.length (rdbuf ss) < fuel')%nat ->
  parseCacheControl_loop fuel ss st = parseCacheControl_loop fuel' ss st.
Proof.
  induction fuel as [|fuel IH]; intros [|fuel'] ss st Hf Hf'; try lia.
  simpl. destruct (getline (ws ss) ",") as [field ss'] eqn:Hg.
  destruct (failbit ss') eqn:Hfail; [reflexivity|].
  pose proof (getline_ws_shrinks _ _ _ _ Hg Hfail).
  destruct (catch_ParseError _ st) as [st'| |]; simpl; try reflexivity.
  apply IH; lia.
Qed.

Lemma parseCacheControl_total ci cc exp now :
  exists ci',
    parseCacheControl ci cc exp now = Ok ci'
    /\ date_value ci' = date_value ci
    /\ request_time ci' = request_time ci
    /\ response_time ci' = response_time ci
    /\ corrected_initial_age ci' = corrected_initial_age ci
    /\ last_modified ci' = last_modified ci
    /\ etag ci' = etag ci.
Proof.
  unfold parseCacheControl.
  destruct (parseCacheControl_loop_total (S (String.length cc))
              (istream_of cc)
              (mkCacheControlState false false false None None))
    as (st & ->).
  simpl.
  destruct (s_maxage st), (max_age st), exp,
    (last_modified ci) eqn:Hlm;
    eexists; (split; [reflexivity|]); simpl; auto 10.
Qed.

Lemma parseResponseCacheInfo_total p ci request_time response_time now :
  exists ok ci',
    parseResponseCacheInfo p ci request_time response_time now = Ok (ok, ci').
Proof.
  unfold parseResponseCacheInfo.
  rewrite scan_response_headers_fold. simpl.
  destruct (scan_date_value _) as [d|]; [|eauto].
  match goal with
  | |- context [parseCacheControl ?c ?cc ?e now] =>
      destruct (parseCacheControl_total c cc e now) as (ci' & -> & _)
  end.
  simpl. eauto.
Qed.

(** C3 (as amended).  [parseResponseCacheInfo] returns true exactly when
    some [Date] header parses under the HTTP time format, and then, when
    the differences [response_time - date_value] and
    [response_time - request_time] and the sum of the [Age] header value
    (0 when absent or unparseable) and the latter fit the 64-bit count of
    the clock's durations, [corrected_initial_age] is the maximum of the
    apparent age [max(0, response_time - date_value)] and of the [Age]
    value plus the response delay [response_time - request_time]. *)
Theorem parseResponseCacheInfo_corrected_initial_age
    (p : HttpParser) (ci : ResponseCacheInfo)
    (request_time response_time now : Z) :
  let hs := headerLines (message p) in
  exists ok ci',
    parseResponseCacheInfo p ci request_time response_time now = Ok (ok, ci')
    /\ (ok = true <->
        exists h, h ∈ hs /\ key h = "Date" /\ is_Some (get_time (value h)))
    /\ (ok = true ->
        date_header hs = Some (date_value ci')
        /\ let apparent_age := Z.max 0 (response_time - date_value ci') in
           let response_delay := response_time - request_time in
           in_int64 (response_time - date_value ci') ->
           in_int64 response_delay ->
           in_int64 (age_header hs + response_delay) ->
           corrected_initial_age ci'
           = Z.max apparent_age (age_header hs + response_delay)).
Proof.
  intros hs. unfold parseResponseCacheInfo. fold hs.
  rewrite scan_response_headers_fold. simpl.
  rewrite fold_scan_date, fold_scan_age. simpl.
  fold (date_header hs). fold (age_header hs).
  pose proof (date_header_is_Some hs) as Hiff.
  destruct (date_header hs) as [d|] eqn:Hd.
  - match goal with
    | |- context [parseCacheControl ?c ?cc ?e now] =>
        destruct (parseCacheControl_total c cc e now)
          as (ci' & -> & Hdate & _ & _ & Hage & _)
    end.
    simpl. exists true, ci'. split; [reflexivity|].
    split; [split; [intros _; apply Hiff; eauto | reflexivity]|]. intros _.
    rewrite Hdate, Hage. simpl. split; [reflexivity|].
    intros Hdiff Hdelay Hsum.
    rewrite (int64_in _ Hdiff), (int64_in _ Hdelay), (int64_in _ Hsum).
    f_equal. unfold seconds. destruct (Z.gtb_spec response_time d); lia.
  - eexists false, _. split; [reflexivity|].
    split; [|discriminate].
    split; [discriminate|]. intros Hex. apply Hiff in Hex as [? [=]].
Qed.

(** *** Freshness lifetime *)

Lemma parseCacheControl_loop_empty st :
  parseCacheControl_loop 1 (istream_of EmptyString) st = Ok st.
Proof. reflexivity. Qed.

(** The chain at the end of [parseCacheControl]: the first of [s-maxage],
    [max-age], [Expires] and [Last-Modified] that is there decides; with
    none of them no assignment is made, and [freshness_lifetime] keeps the
    value it had in the caller's object. *)
Lemma parseCacheControl_precedence ci cc exp now :
  exists st ci',
    parseCacheControl_loop (S (String.length cc)) (istream_of cc)
      (mkCacheControlState false false false None None) = Ok st
    /\ parseCacheControl ci cc exp now = Ok ci'
    /\ freshness_lifetime ci' =
       match s_maxage st, max_age st, exp, last_modified ci with
       | Some d, _, _, _ => d
       | None, Some d, _, _ => d
       | None, None, Some e, _ => int64 (e - date_value ci)
       | None, None, None, Some lm => Z.quot (int64 (now - lm)) 10
       | None, None, None, None => freshness_lifetime ci
       end.
Proof.
  unfold parseCacheControl.
  destruct (parseCacheControl_loop_total (S (String.length cc))
              (istream_of cc)
              (mkCacheControlState false false false None None))
    as (st & Hst).
  rewrite Hst. simpl. exists st.
  destruct (s_maxage st), (max_age st), exp, (last_modified ci) eqn:Hlm;
    eexists; (split; [reflexivity|]); (split; [reflexivity|]); reflexivity.
Qed.

Lemma scan_step_no_freshness st h :
  no_freshness_header h ->
  cache_control (scan_step st h) = cache_control st
  /\ expires (scan_step st h) = expires st
  /\ last_modified (scan_ci (scan_step st h)) = last_modified (scan_ci st)
  /\ freshness_lifetime (scan_ci (scan_step st h))
     = freshness_lifetime (scan_ci st).
Proof.
  intros (Hcc & Hexp & Hlm).
  apply String.eqb_neq in Hcc, Hexp, Hlm.
  unfold scan_step, scan_response_header.
  rewrite !parse_date_cases, parseDeltaSeconds_cases.
  rewrite Hcc, Hexp, Hlm.
  destruct (key h =? "Age")%string; [now destruct (age_of (value h))|].
  destruct (key h =? "Date")%string; [now destruct (date_of (value h))|].
  destruct (key h =? "Etag")%string; simpl; auto.
Qed.

Lemma fold_scan_no_freshness hs : forall st,
  Forall no_freshness_header hs ->
  cache_control (fold_left scan_step hs st) = cache_control st
  /\ expires (fold_left scan_step hs st) = expires st
  /\ last_modified (scan_ci (fold_left scan_step hs st))
     = last_modified (scan_ci st)
  /\ freshness_lifetime (scan_ci (fold_left scan_step hs st))
     = freshness_lifetime (scan_ci st).
Proof.
  induction hs as [|h hs IH]; intros st Hhs; simpl; [auto|].
  apply Forall_cons in Hhs as [Hh Hhs].
  destruct (IH (scan_step st h) Hhs) as (-> & -> & -> & ->).
  now apply scan_step_no_freshness.
Qed.

(** C4.  For a response that has no [Cache-Control], [Expires] or
    [Last-Modified] header, none of the four sources of a freshness
    lifetime applies (lemma [parseCacheControl_precedence] has the order
    among them), and [parseResponseCacheInfo] makes no assignment to
    [freshness_lifetime]: it comes back as whatever the caller's
    [ResponseCacheInfo] held, not as zero.  The callers pass a
    default-initialised local, whose durations are indeterminate. *)
Theorem freshness_lifetime_left_unassigned
    (p : HttpParser) (ci : ResponseCacheInfo)
    (request_time response_time now : Z) :
  Forall no_freshness_header (headerLines (message p)) ->
  last_modified ci = None ->
  exists ok ci',
    parseResponseCacheInfo p ci request_time response_time now = Ok (ok, ci')
    /\ freshness_lifetime ci' = freshness_lifetime ci.
Proof.
  intros Hhs Hlm. unfold parseResponseCacheInfo.
  rewrite scan_response_headers_fold. simpl.
  destruct (fold_scan_no_freshness _
              (mkResponseScan ci None None 0 EmptyString) Hhs)
    as (Hcc & Hexp & Hlm' & Hfl). simpl in *.
  destruct (scan_date_value _) as [d|]; [|eauto].
  rewrite Hcc, Hexp.
  unfold parseCacheControl. simpl String.length.
  rewrite parseCacheControl_loop_empty. simpl.
  rewrite Hlm', Hlm. simpl. eauto.
Qed.

End EvaluatorFacts.

Section EvaluatorExamples.
#[local] Existing Instance UTC.runtime.

Lemma parseResponseCacheInfo_corrected_initial_age_witness :
  let p := HttpParser_ctor
             (mkHttpMessage ("HTTP/1.1", "200", "OK")
                [mkHeader "Date" "Wed, 28 Feb 2018 20:51:55 GMT";
                 mkHeader "Age" "10"] EmptyString) in
  let ci := mkResponseCacheInfo 0 0 0 None 0 0 EmptyString false false false in
  exists ci',
    parseResponseCacheInfo p ci (seconds (feb_28 + 1)) (seconds (feb_28 + 3)) 0
    = Ok (true, ci')
    /\ date_value ci' = seconds feb_28
    /\ corrected_initial_age ci' = seconds 12.
Proof.
  intros p ci.
  destruct (parseResponseCacheInfo_corrected_initial_age p ci
              (seconds (feb_28 + 1)) (seconds (feb_28 + 3)) 0)
    as (ok & ci' & Hrun & Hok & Hage).
  assert (Htrue : ok = true).
  { apply Hok. eexists. split; [apply list_elem_of_here|].
    split; [reflexivity|]. vm_compute. eauto. }
  subst ok. exists ci'. split; [exact Hrun|].
  destruct (Hage eq_refl) as [Hdate Hcia].
  assert (Hd : date_header (headerLines (message p)) = Some (seconds feb_28))
    by reflexivity.
  rewrite Hd in Hdate. injection Hdate as Hdate.
  split; [now rewrite <- Hdate|].
  cbv zeta in Hcia. rewrite <- Hdate in Hcia.
  rewrite Hcia;
    [reflexivity | vm_compute; split; [discriminate | reflexivity]..].
Defined.

(** C3 as stated fails: for a response dated in the year 1700 and read
    in 2018 the difference [response_time - date_value] is beyond the
    64-bit count of a duration.  The apparent age that the code computes
    is negative, and [corrected_initial_age] comes out as 0, which is not
    the maximum that the claim gives. *)
Lemma corrected_initial_age_overflow :
  let p := HttpParser_ctor
             (mkHttpMessage ("HTTP/1.1", "200", "OK")
                [mkHeader "Date" "Fri, 01 Jan 1700 00:00:00 GMT"]
                EmptyString) in
  let t := seconds feb_28 in
  exists ci',
    parseResponseCacheInfo p ci0 t t 0 = Ok (true, ci')
    /\ date_value ci' = seconds (-8520336000)
    /\ corrected_initial_age ci' = 0
    /\ Z.max (Z.max 0 (t - date_value ci')) (0 + (t - t))
       = 10040187115000000000
    /\ corrected_initial_age ci'
       <> Z.max (Z.max 0 (t - date_value ci')) (0 + (t - t)).
Proof.
  intros p t. eexists. split; [vm_compute; reflexivity|].
  vm_compute. repeat split; discriminate.
Qed.

Lemma freshness_lifetime_left_unassigned_witness :
  let p := HttpParser_ctor
             (mkHttpMessage ("HTTP/1.1", "200", "OK")
                [mkHeader "Date" "Wed, 28 Feb 2018 20:51:55 GMT";
                 mkHeader "Content-Length" "3"] "abc") in
  let ci := mkResponseCacheInfo 0 0 0 None 0 (seconds 31337) EmptyString
              false false false in
  exists ok ci',
    parseResponseCacheInfo p ci (seconds feb_28) (seconds (feb_28 + 1))
      (seconds (feb_28 + 1)) = Ok (ok, ci')
    /\ freshness_lifetime ci' = seconds 31337.
Proof.
  intros p ci.
  apply (freshness_lifetime_left_unassigned p ci).
  - repeat (constructor; [repeat split; discriminate|]). constructor.
  - reflexivity.
Defined.

(** The same response in full: the evaluator succeeds, and of the
    caller's object only [freshness_lifetime] is left as it was. *)
Example freshness_lifetime_junk (junk : Z) :
  let p := HttpParser_ctor
             (mkHttpMessage ("HTTP/1.1", "200", "OK")
                [mkHeader "Date" "Wed, 28 Feb 2018 20:51:55 GMT";
                 mkHeader "Content-Length" "3"] "abc") in
  let ci := mkResponseCacheInfo 0 0 0 None junk junk EmptyString
              false false false in
  parseResponseCacheInfo p ci (seconds feb_28) (seconds (feb_28 + 1))
    (seconds (feb_28 + 1))
  = Ok (true,
        mkResponseCacheInfo (seconds feb_28) (seconds feb_28)
          (seconds (feb_28 + 1)) None (seconds 1) junk EmptyString
          false false false).
Proof. reflexivity. Qed.

(** [cache_tests] of [http_test.cpp], and the lifetime it prints. *)
Example cache_test :
  let p := HttpParser_ctor
             (mkHttpMessage ("HTTP/1.1", "200", "OK")
                [mkHeader "Date" "Wed, 28 Feb 2018 20:51:55 GMT";
                 mkHeader "Cache-Control"
                   "no-cache, no-store, s-maxage=86400, max-age=100"]
                EmptyString) in
  let ci := mkResponseCacheInfo 0 0 0 None 0 0 EmptyString false false false in
  exists ci',
    parseResponseCacheInfo p ci (seconds (feb_28 + 8)) (seconds (feb_28 + 10))
      (seconds (feb_28 + 10)) = Ok (true, ci')
    /\ no_cache ci' = true /\ no_store ci' = true /\ private_ ci' = false
    /\ freshness_lifetime ci' = seconds 86400
    /\ corrected_initial_age ci' = seconds 10.
Proof. eexists. split; [reflexivity|]. repeat split. Qed.

(** Scenario 1 of the specification: [max-age=100] gives a lifetime of
    100 seconds. *)
Example max_age_100 :
  let p := HttpParser_ctor
             (mkHttpMessage ("HTTP/1.1", "200", "OK")
                [mkHeader "Date" "Wed, 28 Feb 2018 20:51:55 GMT";
                 mkHeader "Cache-Control" "max-age=100";
                 mkHeader "Content-Length" "3"] "abc") in
  let ci := mkResponseCacheInfo 0 0 0 None 0 0 EmptyString false false false in
  exists ci',
    parseResponseCacheInfo p ci (seconds feb_28) (seconds feb_28)
      (seconds feb_28) = Ok (true, ci')
    /\ freshness_lifetime ci' = seconds 100.
Proof. eexists. split; reflexivity. Qed.

(** The precedence of the four sources, on one response that has them
    all and on the same response with the stronger ones taken away. *)
Example freshness_precedence :
  let date := mkHeader "Date" "Wed, 28 Feb 2018 20:51:55 GMT" in
  let expires := mkHeader "Expires" "Wed, 28 Feb 2018 20:52:55 GMT" in
  let modified := mkHeader "Last-Modified" "Wed, 28 Feb 2018 20:50:15 GMT" in
  let lifetime cc :=
    let p := HttpParser_ctor
               (mkHttpMessage ("HTTP/1.1", "200", "OK")
                  ([date; expires; modified] ++ cc) EmptyString) in
    match parseResponseCacheInfo p
            (mkResponseCacheInfo 0 0 0 None 0 0 EmptyString false false false)
            (seconds feb_28) (seconds feb_28) (seconds feb_28) with
    | Ok (true, ci) => Some (freshness_lifetime ci)
    | _ => None
    end in
  lifetime [mkHeader "Cache-Control" "max-age=5, s-maxage=7"]
  = Some (seconds 7)
  /\ lifetime [mkHeader "Cache-Control" "max-age=5, s-maxage=x"]
     = Some (seconds 5)
  /\ lifetime [mkHeader "Cache-Control" "max-age=, public"]
     = Some (seconds 60)
  /\ (let p := HttpParser_ctor
                 (mkHttpMessage ("HTTP/1.1", "200", "OK") [date; modified]
                    EmptyString) in
      match parseResponseCacheInfo p
              (mkResponseCacheInfo 0 0 0 None 0 0 EmptyString
                 false false false)
              (seconds feb_28) (seconds feb_28) (seconds feb_28) with
      | Ok (true, ci) => Some (freshness_lifetime ci)
      | _ => None
      end) = Some (seconds 10).
Proof. vm_compute. repeat split. Qed.

End EvaluatorExamples.



(** ** The cache and the remote half-connection *)

Section CacheFacts.
Context `{Runtime}.

Lemma cache_get_slot (cache : Server.cache_type) url (e : CacheEntry) :
  cache !! slot_of cache url = Some e ->
  cache_get cache url = Ok (Cache.key e, Cache.value e).
Proof.
  unfold slot_of, cache_get, Cache.Accessor_get, Cache.getEntry.
  now intros ->.
Qed.

Lemma cache_set_slot (cache : Server.cache_type) url v (e : CacheEntry) :
  cache !! slot_of cache url = Some e ->
  cache_set cache url v
  = Ok (<[slot_of cache url := Cache.mkEntry url v]> cache).
Proof.
  unfold slot_of, cache_set, Cache.Accessor_set, Cache.getEntry.
  now intros ->.
Qed.

Lemma cache_assign_slot (cache : Server.cache_type) url v (e : CacheEntry) :
  cache !! slot_of cache url = Some e ->
  cache_assign cache url v
  = Ok (<[slot_of cache url := Cache.mkEntry (Cache.key e) v]> cache).
Proof.
  unfold slot_of, cache_assign, Cache.Accessor_assign, Cache.getEntry.
  now intros ->.
Qed.

(** A [get] right after a [set] under the same accessor returns the key
    and the value that were set. *)
Lemma cache_get_set (cache cache' : Server.cache_type) url v :
  cache_set cache url v = Ok cache' -> cache_get cache' url = Ok (url, v).
Proof.
  unfold cache_set, Cache.Accessor_set, Cache.getEntry.
  destruct (cache !! Cache.index hasher cache url) as [e|] eqn:He;
    [|discriminate].
  intros [= <-].
  apply lookup_lt_Some in He.
  unfold cache_get, Cache.Accessor_get, Cache.getEntry.
  replace (Cache.index hasher (<[_ := _]> cache) url)
    with (Cache.index hasher cache url)
    by (unfold Cache.index; now rewrite length_insert).
  now rewrite list_lookup_insert_eq.
Qed.

Lemma store_cache_200 cache rc ci (e : CacheEntry) :
  cache !! slot_of cache (request_url rc) = Some e ->
  store_cache cache rc "200" ci
  = Ok (true,
        <[slot_of cache (request_url rc) :=
            Cache.mkEntry (request_url rc)
              (Some (Server.mkCacheItem (message (parser rc)) ci))]> cache).
Proof.
  intros He. unfold store_cache.
  rewrite (cache_get_slot _ _ _ He). simpl.
  now rewrite (cache_set_slot _ _ _ _ He).
Qed.

Lemma store_cache_match cache rc status ci (e : CacheEntry) item :
  cache !! slot_of cache (request_url rc) = Some e ->
  status <> "200" ->
  Cache.key e = request_url rc ->
  Cache.value e = Some item ->
  store_cache cache rc status ci
  = Ok (true,
        <[slot_of cache (request_url rc) :=
            Cache.mkEntry (Cache.key e)
              (Some (revalidated item (message (parser rc)) ci))]> cache).
Proof.
  intros He Hs Hk Hv. unfold store_cache.
  rewrite (cache_get_slot _ _ _ He). simpl.
  apply String.eqb_neq in Hs. rewrite Hs, Hk, String.eqb_refl, Hv.
  rewrite (cache_assign_slot _ _ _ _ He). simpl. now rewrite Hk.
Qed.

Lemma store_cache_mismatch cache rc status ci (e : CacheEntry) :
  cache !! slot_of cache (request_url rc) = Some e ->
  status <> "200" ->
  Cache.key e <> request_url rc ->
  store_cache cache rc status ci = Ok (false, cache).
Proof.
  intros He Hs Hk. unfold store_cache.
  rewrite (cache_get_slot _ _ _ He). simpl.
  apply String.eqb_neq in Hs, Hk. now rewrite Hs, Hk.
Qed.

(** A slot that was never set and whose (empty) key equals the URL: the
    code dereferences its null pointer. *)
Lemma store_cache_null cache rc status ci (e : CacheEntry) :
  cache !! slot_of cache (request_url rc) = Some e ->
  status <> "200" ->
  Cache.key e = request_url rc ->
  Cache.value e = None ->
  store_cache cache rc status ci = Undefined.
Proof.
  intros He Hs Hk Hv. unfold store_cache.
  rewrite (cache_get_slot _ _ _ He). simpl.
  apply String.eqb_neq in Hs. now rewrite Hs, Hk, String.eqb_refl, Hv.
Qed.

(** C2.  For a call of [store_cache] on a cache whose slot for
    [request_url] is [e]: with status 304 and [e]'s key equal to
    [request_url], the item of the slot gets the header lines of the 304
    response and the new [ResponseCacheInfo], and keeps its body (and
    start line) and the slot its key; with status 304 and a different
    key, the cache is unchanged and the call returns false; with status
    200, key and value of the slot are overwritten with the request URL
    and the new item.  No other slot changes. *)
Theorem store_cache_effect
    (cache : Server.cache_type) (rc : RemoteConnection)
    (ci : ResponseCacheInfo) (e : CacheEntry) :
  let i := slot_of cache (request_url rc) in
  let response := message (parser rc) in
  cache !! i = Some e ->
  (forall item,
     Cache.key e = request_url rc -> Cache.value e = Some item ->
     exists cache' item',
       store_cache cache rc "304" ci = Ok (true, cache')
       /\ cache' !! i = Some (Cache.mkEntry (request_url rc) (Some item'))
       /\ headerLines (Server.message item') = headerLines response
       /\ Server.info item' = ci
       /\ body (Server.message item') = body (Server.message item)
       /\ startLine (Server.message item') = startLine (Server.message item)
       /\ (forall j, j <> i -> cache' !! j = cache !! j))
  /\ (Cache.key e <> request_url rc ->
      store_cache cache rc "304" ci = Ok (false, cache))
  /\ (exists cache',
        store_cache cache rc "200" ci = Ok (true, cache')
        /\ cache' !! i
           = Some (Cache.mkEntry (request_url rc)
                     (Some (Server.mkCacheItem response ci)))
        /\ (forall j, j <> i -> cache' !! j = cache !! j)).
Proof.
  intros i response He.
  pose proof (lookup_lt_Some _ _ _ He) as Hlt.
  repeat split.
  - intros item Hk Hv.
    rewrite (store_cache_match _ _ "304" _ _ _ He) by (done || discriminate).
    eexists _, _. split; [reflexivity|].
    split; [rewrite list_lookup_insert_eq by exact Hlt; now rewrite Hk|].
    repeat split.
    intros j Hj. now apply list_lookup_insert_ne.
  - intros Hk. apply (store_cache_mismatch _ _ _ _ _ He); [discriminate|done].
  - rewrite (store_cache_200 _ _ _ _ He).
    eexists. split; [reflexivity|].
    split; [now rewrite list_lookup_insert_eq|].
    intros j Hj. now apply list_lookup_insert_ne.
Qed.

(** *** The caching decision *)

Lemma is_cacheable_iff rc request_method status ci now :
  exists ok ci',
    is_cacheable rc request_method status ci now = Ok (ok, ci')
    /\ (ok = true <-> cacheable rc request_method status ci now).
Proof.
  unfold is_cacheable, cacheable, MAX_CACHEABLE_BODYSIZE.
  destruct (String.eqb_spec request_method "GET") as [Hm|Hm]; simpl.
  2:{ eexists _, _. split; [reflexivity|]. split; [discriminate|].
      now intros [? _]. }
  destruct (String.eqb_spec status "200") as [H200|H200];
    destruct (String.eqb_spec status "304") as [H304|H304]; simpl.
  4:{ eexists _, _. split; [reflexivity|]. split; [discriminate|].
      intros (_ & [?|?] & _); contradiction. }
  all: destruct (Z.gtb_spec (size (body (message (parser rc))))
                   (2 * 1024 * 1024)) as [Hsz|Hsz];
    [ eexists _, _; split; [reflexivity|]; split; [discriminate|];
      intros (_ & _ & ? & _); lia |].
  all: destruct (parseResponseCacheInfo_total (parser rc) ci
                   (rc_request_time rc) (rc_response_time rc) now)
         as ([] & ci' & Hp); rewrite Hp; simpl.
  all: try (eexists _, _; split; [reflexivity|]; split; [discriminate|];
            intros (_ & _ & _ & ? & [=] & _)).
  all: destruct (no_store ci') eqn:Hns; simpl;
    [ eexists _, _; split; [reflexivity|]; split; [discriminate|];
      intros (_ & _ & _ & ? & [= <-] & ? & _); congruence |].
  all: destruct (private_ ci') eqn:Hpr; simpl;
    [ eexists _, _; split; [reflexivity|]; split; [discriminate|];
      intros (_ & _ & _ & ? & [= <-] & _ & ?); congruence |].
  all: eexists _, _; split; [reflexivity|]; split; [intros _|reflexivity];
    repeat split; eauto.
Qed.

(** A body of exactly 2 MiB passes the size test of [is_cacheable], one
    more byte fails it. *)
Lemma body_size_boundary (n : Z) :
  (n = 2 * 1024 * 1024 -> (n >? MAX_CACHEABLE_BODYSIZE) = false)
  /\ (n = 2 * 1024 * 1024 + 1 -> (n >? MAX_CACHEABLE_BODYSIZE) = true).
Proof. split; intros ->; reflexivity. Qed.

(** C1 (as amended).  For a response that [on_read_done] relays (its
    protocol is HTTP/1.0 or 1.1 and the parser got past the headers), on
    a cache whose slot for the request URL is [e]: [is_cacheable] returns
    true exactly when the method is GET, the status is 200 or 304, the
    body has at most 2 MiB, [parseResponseCacheInfo] succeeds and neither
    [no-store] nor [private] is set; when a condition fails nothing is
    written to the cache; and when they all hold the response is stored
    exactly when its status is 200 or the slot's key is the request URL
    (a 304 for a URL that the slot does not hold is not stored). *)
Theorem stored_iff_cacheable_and_slot_matches
    (cache : Server.cache_type) (rc : RemoteConnection)
    (request_method : string) (ci : ResponseCacheInfo) (now now' : Z)
    (e : CacheEntry) :
  let response := message (parser rc) in
  let status := startLine1 response in
  let rc' := mkRemoteConnection (parser rc) (request_url rc)
               (request_host rc) (rc_request_time rc) now in
  let i := slot_of cache (request_url rc) in
  check_protocol (startLine0 response) = true ->
  state (parser rc) = BODY \/ state (parser rc) = ACCEPT ->
  cache !! i = Some e ->
  (exists ok ci',
     is_cacheable rc' request_method status ci now' = Ok (ok, ci')
     /\ (ok = true <-> cacheable rc' request_method status ci now'))
  /\ (~ cacheable rc' request_method status ci now' ->
      RemoteConnection_on_read_done cache rc request_method ci now now'
      = Ok (mkRemoteOutcome response false cache))
  /\ (cacheable rc' request_method status ci now' ->
      (status = "304" -> Cache.key e = request_url rc ->
       is_Some (Cache.value e)) ->
      exists out,
        RemoteConnection_on_read_done cache rc request_method ci now now'
        = Ok out
        /\ to_client out = response
        /\ (cached out = true <->
            status = "200" \/ Cache.key e = request_url rc)
        /\ (cached out = false -> cache_after out = cache)
        /\ (cached out = true ->
            exists item,
              cache_after out !! i
              = Some (Cache.mkEntry (request_url rc) (Some item))
              /\ headerLines (Server.message item) = headerLines response)).
Proof.
  intros response status rc' i Hproto Hstate He.
  destruct (is_cacheable_iff rc' request_method status ci now')
    as (ok & ci' & Hic & Hok).
  pose proof (lookup_lt_Some _ _ _ He) as Hlt.
  assert (Hrun :
    RemoteConnection_on_read_done cache rc request_method ci now now'
    = if ok then
        '(stored, cache') ← store_cache cache rc' status ci';
        Ok (mkRemoteOutcome response stored cache')
      else Ok (mkRemoteOutcome response false cache)).
  { unfold RemoteConnection_on_read_done. fold response. rewrite Hproto.
    destruct Hstate as [-> | ->]; simpl; fold rc' status; now rewrite Hic. }
  split; [eauto|]. split.
  - intros Hn. rewrite Hrun. destruct ok; [|reflexivity].
    exfalso. apply Hn. now apply Hok.
  - intros Hc Hitem. rewrite Hrun.
    replace ok with true by (symmetry; now apply Hok).
    pose proof Hc as (_ & Hstatus & _).
    destruct Hstatus as [H200 | H304].
    + rewrite H200.
      rewrite (store_cache_200 cache rc' ci' e He). simpl.
      eexists. split; [reflexivity|]. simpl.
      split; [reflexivity|]. split; [tauto|]. split; [discriminate|].
      intros _. eexists. fold i.
      rewrite list_lookup_insert_eq by exact Hlt. split; reflexivity.
    + assert (Hne : status <> "200") by (rewrite H304; discriminate).
      destruct (String.eqb_spec (Cache.key e) (request_url rc)) as [Hk|Hk].
      * destruct (Hitem H304 Hk) as [item Hv].
        rewrite (store_cache_match cache rc' status ci' e item He Hne Hk Hv).
        simpl. eexists. split; [reflexivity|]. simpl.
        split; [reflexivity|]. split; [tauto|]. split; [discriminate|].
        intros _. eexists. fold i.
        rewrite list_lookup_insert_eq by exact Hlt.
        rewrite Hk. split; reflexivity.
      * rewrite (store_cache_mismatch cache rc' status ci' e He Hne Hk).
        simpl. eexists. split; [reflexivity|]. simpl.
        split; [reflexivity|].
        split; [split; [discriminate | intros [?|?]; congruence]|].
        split; [reflexivity | discriminate].
Qed.

(** ** The client half-connection *)

Lemma scan_request_headers_total hs : forall ci,
  exists ci', scan_request_headers hs ci = Ok ci'.
Proof.
  induction hs as [|h hs IH]; intros ci; simpl; [eauto|].
  assert (Hstep : exists ci1,
            catch_ParseError (scan_request_header h ci) ci = Ok ci1).
  { unfold scan_request_header. rewrite parse_date_cases.
    destruct (key h =? "Cache-Control")%string; [simpl; eauto|].
    destruct (key h =? "If-Modified-Since")%string;
      [destruct (date_of (value h)); simpl; eauto|].
    destruct (key h =? "If-None-Match")%string; simpl; eauto. }
  destruct Hstep as (ci1 & ->). simpl. apply IH.
Qed.

Lemma strip_validators_none m :
  Forall (fun h => is_validator h = false)
    (headerLines (forwarded_request (strip_validators m))).
Proof.
  unfold forwarded_request, start_resolve, strip_validators; simpl.
  apply Forall_forall. intros h Hin.
  apply list_elem_of_In, filter_In in Hin as [_ Hh].
  now apply negb_true_iff in Hh.
Qed.

Lemma check_cached_spec m item ci now :
  check_cached m item ci now
  = if needs_validation ci (Server.info item) now
    then (None,
          mkHttpMessage (startLine m)
            (revalidation_headers (headerLines m) (Server.info item))
            (body m))
    else (Some item, m).
Proof.
  unfold check_cached, needs_validation, revalidation_headers.
  destruct (rq_no_cache ci || no_cache (Server.info item)); simpl.
  - destruct (last_modified (Server.info item)),
      (etag (Server.info item) =? EmptyString)%string; simpl; try reflexivity.
    now destruct m.
  - destruct (current_age _ now >=? freshness_lifetime _); [|reflexivity].
    destruct (last_modified (Server.info item)),
      (etag (Server.info item) =? EmptyString)%string; simpl; try reflexivity.
    now destruct m.
Qed.

(** The first header named [k] after [replace_header]. *)
Lemma replace_header_lines_find hs k v :
  List.find (fun h => (key h =? k)%string) (replace_header_lines hs k v)
  = Some (mkHeader k v).
Proof.
  induction hs as [|h hs IH]; simpl.
  - now rewrite String.eqb_refl.
  - destruct (String.eqb_spec (key h) k) as [Hk|Hk]; simpl.
    + now rewrite Hk, String.eqb_refl.
    + apply String.eqb_neq in Hk. now rewrite Hk.
Qed.

Lemma replace_header_lines_find_other hs k k' v :
  k <> k' ->
  List.find (fun h => (key h =? k')%string) (replace_header_lines hs k v)
  = List.find (fun h => (key h =? k')%string) hs.
Proof.
  intros Hne. induction hs as [|h hs IH]; simpl.
  - apply String.eqb_neq in Hne. now rewrite Hne.
  - destruct (String.eqb_spec (key h) k) as [Hk|Hk]; simpl.
    + assert (Hk' : (key h =? k')%string = false)
        by (apply String.eqb_neq; congruence).
      now rewrite Hk'.
    + now rewrite IH.
Qed.

(** C8 (as amended).  A request for which [on_read_done] finds no cache
    entry (any method other than GET, or a GET whose slot is empty or
    holds another URL) is forwarded without any [If-Modified-Since] or
    [If-None-Match] header.  A GET whose cached entry needs validation
    (marked [no-cache], or stale) is forwarded with the first
    [If-Modified-Since] header replaced by, or such a header added with,
    the entry's [Last-Modified] when the entry has one, and likewise
    [If-None-Match] with the entry's [ETag] when that is not empty; the
    other header lines, among them a client's validator for which the
    entry has no value, are forwarded as the client sent them. *)
Theorem forwarded_validators
    (cache : Server.cache_type) (p : HttpParser) (rci : RequestCacheInfo)
    (now : Z) (e : CacheEntry) :
  let m := message p in
  check_protocol (startLine2 m) = true ->
  (startLine0 m = "GET" -> cache !! slot_of cache (startLine1 m) = Some e) ->
  exists ci tunneling,
    parseRequestCacheInfo p rci = Ok ci
    /\ match cached_entry e m with
       | None =>
           ClientConnection_on_read_done cache p rci now
           = Ok (tunneling, Fetch (strip_validators m))
           /\ Forall (fun h => is_validator h = false)
                (headerLines (forwarded_request (strip_validators m)))
       | Some item =>
           let ri := Server.info item in
           if needs_validation ci ri now then
             exists request,
               ClientConnection_on_read_done cache p rci now
               = Ok (tunneling, Fetch request)
               /\ headerLines (forwarded_request request)
                  = revalidation_headers (headerLines m) ri
               /\ (forall lm, last_modified ri = Some lm ->
                   List.find (fun h => (key h =? "If-Modified-Since")%string)
                     (headerLines (forwarded_request request))
                   = Some (mkHeader "If-Modified-Since" (put_time lm)))
               /\ (etag ri <> EmptyString ->
                   List.find (fun h => (key h =? "If-None-Match")%string)
                     (headerLines (forwarded_request request))
                   = Some (mkHeader "If-None-Match" (etag ri)))
               /\ (last_modified ri = None -> etag ri = EmptyString ->
                   headerLines (forwarded_request request) = headerLines m)
           else
             ClientConnection_on_read_done cache p rci now
             = Ok (tunneling, Respond (Server.message item))
       end.
Proof.
  intros m Hproto He.
  destruct (scan_request_headers_total (headerLines m)
              (mkRequestCacheInfo (if_modified_since rci)
                 (if_none_match rci) false)) as (ci & Hci).
  exists ci, (startLine0 m =? "CONNECT")%string.
  split; [exact Hci|].
  unfold ClientConnection_on_read_done, cached_entry. fold m.
  rewrite Hproto. simpl negb. cbv iota.
  unfold parseRequestCacheInfo. fold m. rewrite Hci. simpl.
  destruct (String.eqb_spec (startLine0 m) "GET") as [Hget|Hget]; simpl.
  2:{ split; [reflexivity | apply strip_validators_none]. }
  rewrite (cache_get_slot _ _ _ (He Hget)). simpl.
  destruct (Cache.value e) as [item|] eqn:Hv.
  2:{ destruct (Cache.key e =? startLine1 m)%string;
        (split; [reflexivity | apply strip_validators_none]). }
  destruct (Cache.key e =? startLine1 m)%string; simpl.
  2:{ split; [reflexivity | apply strip_validators_none]. }
  rewrite check_cached_spec.
  destruct (needs_validation ci (Server.info item) now); [|reflexivity].
  eexists. split; [reflexivity|]. simpl.
  split; [reflexivity|].
  unfold revalidation_headers. repeat split.
  - intros lm ->.
    destruct (etag (Server.info item) =? EmptyString)%string.
    + apply replace_header_lines_find.
    + rewrite replace_header_lines_find_other by discriminate.
      apply replace_header_lines_find.
  - intros Hetag. apply String.eqb_neq in Hetag. rewrite Hetag.
    apply replace_header_lines_find.
  - intros -> ->. reflexivity.
Qed.

End CacheFacts.

(** ** Scenarios

    The scenarios of the specification, run on the concrete run time. *)
Section Scenarios.
#[local] Existing Instance UTC.runtime.

Example response_200_parsed :
  parsed 16 (HttpParser_ctor empty_message)
    ("HTTP/1.1 200 OK" +:+ CRLF
     +:+ "Date: Wed, 28 Feb 2018 20:51:55 GMT" +:+ CRLF
     +:+ "Cache-Control: max-age=100" +:+ CRLF
     +:+ "ETag: v1" +:+ CRLF
     +:+ "Content-Length: 3" +:+ CRLF +:+ CRLF +:+ "abc")
  = Some response_200.
Proof. reflexivity. Qed.

Example response_304_parsed :
  parsed 16 (HttpParser_ctor empty_message)
    ("HTTP/1.1 304 Not Modified" +:+ CRLF
     +:+ "Date: Wed, 28 Feb 2018 20:55:00 GMT" +:+ CRLF
     +:+ "Cache-Control: max-age=200" +:+ CRLF +:+ CRLF)
  = Some response_304.
Proof. reflexivity. Qed.

Example scenario_1 :
  exists item,
    cache_x = [Cache.mkEntry origin_x (Some item)]
    /\ Server.message item = message response_200
    /\ freshness_lifetime (Server.info item) = seconds 100
    /\ etag (Server.info item) = "v1".
Proof. eexists. split; [reflexivity|]. repeat split. Qed.

Lemma stored_iff_cacheable_and_slot_matches_witness :
  exists out,
    RemoteConnection_on_read_done (cache_ctor 1) (remote response_200 origin_x)
      "GET" ci0 (seconds feb_28) (seconds feb_28) = Ok out
    /\ cached out = true
    /\ cache_after out = cache_x.
Proof.
  destruct (stored_iff_cacheable_and_slot_matches (cache_ctor 1)
              (remote response_200 origin_x) "GET" ci0
              (seconds feb_28) (seconds feb_28)
              (Cache.mkEntry EmptyString None))
    as (_ & _ & Hstored).
  - reflexivity.
  - right; reflexivity.
  - reflexivity.
  - destruct Hstored as (out & Hrun & _ & Hcached & _).
    + repeat split; [left; reflexivity | vm_compute; discriminate |].
      eexists. split; [reflexivity|]. split; reflexivity.
    + discriminate.
    + exists out. split; [exact Hrun|].
      split; [apply Hcached; left; reflexivity|].
      unfold cache_x, cache_after_fetch. now rewrite Hrun.
Defined.

(** C1 as stated fails: a 304 response to a GET, with a parseable
    [Date] and neither [no-store] nor [private], arrives when the slot of
    its URL holds another URL.  Every condition of the claim holds, and
    the response is not stored: the cache is as before. *)
Lemma not_stored_304_without_entry :
  let rc := remote response_304 origin_x in
  let now := seconds (feb_28 + 200) in
  let rc' := mkRemoteConnection (parser rc) (request_url rc)
               (request_host rc) (rc_request_time rc) now in
  cacheable rc' "GET" "304" ci0 now
  /\ RemoteConnection_on_read_done cache_y rc "GET" ci0 now now
     = Ok (mkRemoteOutcome (message response_304) false cache_y).
Proof.
  split; [|reflexivity].
  repeat split; [right; reflexivity | vm_compute; discriminate |].
  eexists. split; [reflexivity|]. split; reflexivity.
Qed.

Lemma store_cache_effect_witness :
  exists item item',
    cache_x = [Cache.mkEntry origin_x (Some item)]
    /\ store_cache cache_x (remote response_304 origin_x) "304" ci0
       = Ok (true, [Cache.mkEntry origin_x (Some item')])
    /\ headerLines (Server.message item')
       = headerLines (message response_304)
    /\ body (Server.message item') = "abc".
Proof.
  destruct (store_cache_effect cache_x (remote response_304 origin_x) ci0
              (Cache.mkEntry origin_x
                 (Some (Server.mkCacheItem (message response_200)
                          (mkResponseCacheInfo (seconds feb_28)
                             (seconds feb_28) (seconds feb_28) None 0
                             (seconds 100) "v1" false false false)))))
    as (Hmatch & _ & _); [reflexivity|].
  destruct (Hmatch _ eq_refl eq_refl)
    as (cache' & item' & Hrun & Hslot & Hhs & _ & Hbody & _).
  eexists _, item'. split; [reflexivity|].
  assert (Hcache' : cache' = [Cache.mkEntry origin_x (Some item')]).
  { pose proof Hrun as Hlen. vm_compute in Hlen.
    injection Hlen as <-. vm_compute in Hslot. now injection Hslot as <-. }
  rewrite Hrun, Hcache'. repeat split; assumption.
Defined.

Lemma forwarded_validators_witness :
  exists request,
    ClientConnection_on_read_done cache_x request_with_validators rci0
      (seconds (feb_28 + 1000)) = Ok (false, Fetch request)
    /\ List.find (fun h => (key h =? "If-None-Match")%string)
         (headerLines (forwarded_request request))
       = Some (mkHeader "If-None-Match" "v1").
Proof.
  destruct (forwarded_validators cache_x request_with_validators rci0
              (seconds (feb_28 + 1000))
              (Cache.mkEntry origin_x
                 (Some (Server.mkCacheItem (message response_200)
                          (mkResponseCacheInfo (seconds feb_28)
                             (seconds feb_28) (seconds feb_28) None 0
                             (seconds 100) "v1" false false false)))))
    as (ci & tunneling & Hci & Hrun).
  - reflexivity.
  - intros _. reflexivity.
  - assert (Hci' : Ok ci
                   = Ok (mkRequestCacheInfo (Some 0) "client-tag" false))
      by (rewrite <- Hci; reflexivity).
    injection Hci' as ->.
    change (cached_entry _ _)
      with (Some (Server.mkCacheItem (message response_200)
                    (mkResponseCacheInfo (seconds feb_28)
                       (seconds feb_28) (seconds feb_28) None 0
                       (seconds 100) "v1" false false false))) in Hrun.
    cbv beta iota zeta in Hrun.
    change (needs_validation _ _ _) with true in Hrun.
    cbv beta iota in Hrun.
    destruct Hrun as (request & Hrun & _ & _ & Hetag & _).
    exists request. split.
    + rewrite Hrun. f_equal. f_equal.
      pose proof Hrun as Hrun'. vm_compute in Hrun'.
      now injection Hrun' as <- _.
    + apply Hetag. discriminate.
Defined.

(** C8 as stated fails: the GET finds a cached entry that has expired
    and has neither [Last-Modified] nor [ETag]; it is forwarded to the
    origin with the client's own [If-None-Match] and [If-Modified-Since]
    in place. *)
Lemma client_validators_forwarded :
  let m := message request_with_validators in
  exists request,
    ClientConnection_on_read_done cache_stale request_with_validators rci0
      (seconds (feb_28 + 1)) = Ok (false, Fetch request)
    /\ headerLines (forwarded_request request) = headerLines m
    /\ mkHeader "If-None-Match" "client-tag"
       ∈ headerLines (forwarded_request request)
    /\ mkHeader "If-Modified-Since" "Thu, 01 Jan 1970 00:00:00 GMT"
       ∈ headerLines (forwarded_request request)
    /\ ~ Forall (fun h => is_validator h = false)
           (headerLines (forwarded_request request)).
Proof.
  exists (message request_with_validators).
  split; [vm_compute; reflexivity|]. split; [reflexivity|].
  split; [|split].
  - apply list_elem_of_In. simpl. auto.
  - apply list_elem_of_In. simpl. auto.
  - intros Hall.
    apply Forall_forall
      with (x := mkHeader "If-None-Match" "client-tag") in Hall.
    + discriminate.
    + apply list_elem_of_In. simpl. auto.
Qed.

(** Scenario 2: an immediate repeat of the GET is served from the cache. *)
Example scenario_2 :
  ClientConnection_on_read_done cache_x
    (mkHttpParser (mkHttpMessage ("GET", origin_x, "HTTP/1.1")
                     [mkHeader "Host" "origin"] EmptyString) ACCEPT PLAIN 0)
    rci0 (seconds (feb_28 + 1))
  = Ok (false, Respond (message response_200)).
Proof. reflexivity. Qed.

(** Scenario 4: a response with [no-store] leaves the cache as it was. *)
Example scenario_4 :
  let response :=
    mkHttpParser
      (mkHttpMessage ("HTTP/1.1", "200", "OK")
         [mkHeader "Date" "Wed, 28 Feb 2018 20:51:55 GMT";
          mkHeader "Cache-Control" "no-store";
          mkHeader "Content-Length" "3"] "abc")
      ACCEPT LENGTH 3 in
  RemoteConnection_on_read_done cache_y (remote response origin_x) "GET" ci0
    (seconds feb_28) (seconds feb_28)
  = Ok (mkRemoteOutcome (message response) false cache_y).
Proof. reflexivity. Qed.

(** Scenario 7: without [Date] nothing is stored. *)
Example scenario_7 :
  let response :=
    mkHttpParser
      (mkHttpMessage ("HTTP/1.1", "200", "OK")
         [mkHeader "Cache-Control" "max-age=600";
          mkHeader "Content-Length" "3"] "abc")
      ACCEPT LENGTH 3 in
  RemoteConnection_on_read_done cache_y (remote response origin_x) "GET" ci0
    (seconds feb_28) (seconds feb_28)
  = Ok (mkRemoteOutcome (message response) false cache_y).
Proof. reflexivity. Qed.

(** Scenario 8: in a cache of one slot a second URL evicts the first,
    and a GET for the first one misses. *)
Example scenario_8 :
  let cache :=
    cache_after_fetch cache_x response_200 "http://origin/y"
      (seconds feb_28) in
  cache = cache_y
  /\ ClientConnection_on_read_done cache
       (mkHttpParser (mkHttpMessage ("GET", origin_x, "HTTP/1.1")
                        [mkHeader "Host" "origin"] EmptyString)
          ACCEPT PLAIN 0)
       rci0 (seconds (feb_28 + 1))
     = Ok (false,
           Fetch (mkHttpMessage ("GET", origin_x, "HTTP/1.1")
                    [mkHeader "Host" "origin"] EmptyString)).
Proof. vm_compute. split; reflexivity. Qed.

End Scenarios.

(** * More properties

    Further properties of the parser, the evaluator, the cache and the
    two half-connections: edge cases, round trips and how the parts
    compose. *)

(** ** Strings, continued *)
Lemma drop_str_append a b : drop_str (String.length a) (a +:+ b) = b.
Proof. induction a as [|c a IH]; simpl; auto. Qed.

Lemma find_if_all_not P a :
  all_chars (fun c => negb (P c)) a = true -> find_if P a = None.
Proof.
  induction a as [|d a IH]; simpl; [reflexivity|].
  intros [Hd Ha]%andb_true_iff. apply negb_true_iff in Hd.
  now rewrite Hd, (IH Ha).
Qed.

Lemma substr_app a b c :
  size (a +:+ b +:+ c) < size_t_modulus ->
  substr (a +:+ b +:+ c) (String.length a)
    (wrap (Z.of_nat (String.length a + String.length b) - Z.of_nat (String.length a)))
  = b.
Proof.
  unfold substr, size, wrap. rewrite !length_append. intros Hsz.
  replace (Z.of_nat (String.length a + String.length b) - Z.of_nat (String.length a))
    with (Z.of_nat (String.length b)) by lia.
  rewrite Z.mod_small by lia.
  rewrite Z.min_l by lia. rewrite Nat2Z.id, drop_str_append. apply take_str_append.
Qed.

(** ** [HttpUrl], continued *)

Lemma tolower_colon c : (tolower c =? ":")%char = (c =? ":")%char.
Proof. destruct c as [[] [] [] [] [] [] [] []]; reflexivity. Qed.

Lemma tolower_slash c : (tolower c =? "/")%char = (c =? "/")%char.
Proof. destruct c as [[] [] [] [] [] [] [] []]; reflexivity. Qed.

Lemma free_of_cons chars c s :
  free_of chars (String c s) = negb (mem_char c chars) && free_of chars s.
Proof. reflexivity. Qed.

Lemma not_colon_slash c :
  negb (mem_char c ":/") = true -> (c =? ":")%char = false /\ (c =? "/")%char = false.
Proof.
  simpl. rewrite orb_false_r. intros [? ?]%negb_true_iff%orb_false_iff. auto.
Qed.

Lemma not_slash c :
  negb (mem_char c "/") = true -> (c =? "/")%char = false.
Proof. simpl. rewrite orb_false_r. now intros ?%negb_true_iff. Qed.

Lemma url_scheme_authority host port :
  free_of ":/" host = true -> free_of "/" port = true ->
  url_scheme (host +:+ ":" +:+ port) = (NONE, 0%nat).
Proof.
  intros Hh Hp. unfold url_scheme.
  assert (H1 : strncasecmp_eq (host +:+ ":" +:+ port) "http://" = false).
  { destruct host as [|c0 [|c1 [|c2 [|c3 [|c4 host]]]]]; simpl;
      rewrite ?andb_false_r; try reflexivity.
    - change (tolower ":") with ":"%char. change (tolower "/") with "/"%char.
      destruct port as [|d port]; [now rewrite ?andb_false_r|].
      simpl in Hp. apply andb_true_iff in Hp as [Hd _]. apply not_slash in Hd.
      simpl. change (tolower "/") with "/"%char.
      rewrite tolower_slash, Hd. now rewrite ?andb_false_r.
    - rewrite !free_of_cons in Hh.
      repeat (apply andb_true_iff in Hh as [? Hh]).
      change (tolower ":") with ":"%char.
      match goal with H : negb (mem_char c4 _) = true |- _ =>
        apply not_colon_slash in H as [Hc _] end.
      rewrite tolower_colon, Hc. now rewrite ?andb_false_r. }
  assert (H2 : strncasecmp_eq (host +:+ ":" +:+ port) "https://" = false).
  { destruct host as [|c0 [|c1 [|c2 [|c3 [|c4 [|c5 host]]]]]]; simpl;
      rewrite ?andb_false_r; try reflexivity.
    - change (tolower ":") with ":"%char. change (tolower "/") with "/"%char.
      destruct port as [|d port]; [now rewrite ?andb_false_r|].
      simpl in Hp. apply andb_true_iff in Hp as [Hd _]. apply not_slash in Hd.
      simpl. change (tolower "/") with "/"%char.
      rewrite tolower_slash, Hd. now rewrite ?andb_false_r.
    - rewrite !free_of_cons in Hh.
      repeat (apply andb_true_iff in Hh as [? Hh]).
      change (tolower ":") with ":"%char.
      match goal with H : negb (mem_char c5 _) = true |- _ =>
        apply not_colon_slash in H as [Hc _] end.
      rewrite tolower_colon, Hc. now rewrite ?andb_false_r. }
  now rewrite H1, H2.
Qed.

Lemma url_scheme_prefix pr rest :
  pr <> NONE ->
  url_scheme (url_prefix pr +:+ rest) = (pr, String.length (url_prefix pr)).
Proof. destruct pr; [congruence | |]; intros _; destruct rest; reflexivity. Qed.

Lemma free_of_find chars s c r :
  free_of chars s = true -> mem_char c chars = true ->
  find_if (fun c => mem_char c chars) (s +:+ String c r) = Some (String.length s).
Proof.
  intros Hs Hc. apply find_if_app; [exact Hs | exact Hc].
Qed.

Lemma all_chars_ext Q Q' s :
  (forall c, Q c = Q' c) -> all_chars Q s = all_chars Q' s.
Proof.
  intros HQ. induction s as [|c s IH]; simpl; [reflexivity|].
  now rewrite HQ, IH.
Qed.

Lemma free_of_slash s :
  free_of "/" s = true ->
  all_chars (fun c => negb (c =? "/")%char) s = true.
Proof.
  unfold free_of. intros Hs.
  erewrite all_chars_ext; [exact Hs|].
  intros c. simpl. now rewrite orb_false_r.
Qed.

Lemma strncasecmp_eq_length lit : forall s,
  strncasecmp_eq s lit = true -> (String.length lit <= String.length s)%nat.
Proof.
  induction lit as [|d lit IH]; intros [|c s]; simpl; try lia; try discriminate.
  intros [_ Hs]%andb_true_iff. apply IH in Hs. lia.
Qed.

(** The parts of a URL, found in the URL composed from them. *)
Lemma HttpUrl_ctor_parts pr last host tail url :
  url_scheme url = (pr, last) ->
  free_of ":/" host = true ->
  drop_str last url = host +:+ tail ->
  size url < size_t_modulus ->
  (forall port path,
     tail = ":" +:+ port +:+ path ->
     free_of "/" port = true ->
     path = EmptyString \/ begins_with "/" path ->
     HttpUrl_ctor url = mkHttpUrl pr host port (path_or_root path))
  /\ (tail = EmptyString \/ begins_with "/" tail ->
      HttpUrl_ctor url = mkHttpUrl pr host (default_port pr) (path_or_root tail)).
Proof.
  intros Hs Hh Hd Hsz.
  assert (Hlast : (last <= String.length url)%nat).
  { unfold url_scheme in Hs.
    destruct (strncasecmp_eq url "http://") eqn:E1;
      [apply strncasecmp_eq_length in E1; injection Hs as <- <-; exact E1|].
    destruct (strncasecmp_eq url "https://") eqn:E2;
      [apply strncasecmp_eq_length in E2; injection Hs as <- <-; exact E2|].
    injection Hs as <- <-. lia. }
  assert (Hlen : String.length url
                 = (last + (String.length host + String.length tail))%nat).
  { pose proof (length_drop_str last url) as Hl. rewrite Hd, length_append in Hl. lia. }
  assert (Hhost : forall pos, pos = (last + String.length host)%nat ->
            substr url last (wrap (Z.of_nat pos - Z.of_nat last)) = host).
  { intros pos ->. unfold substr, size, wrap in *.
    replace (Z.of_nat (last + String.length host) - Z.of_nat last)
      with (Z.of_nat (String.length host)) by lia.
    rewrite Z.mod_small by lia. rewrite Z.min_l by lia.
    rewrite Nat2Z.id, Hd. apply take_str_append. }
  assert (Hdrop : drop_str (last + String.length host) url = tail).
  { now rewrite drop_str_add, Hd, drop_str_append. }
  unfold HttpUrl_ctor. rewrite Hs. split.
  - intros port path -> Hp Hpath.
    change (":" +:+ port +:+ path) with (String ":" (port +:+ path)) in *.
    unfold find_first_of, find_from. rewrite Hd.
    rewrite free_of_find by (exact Hh || reflexivity). simpl option_map; cbv beta iota.
    rewrite Hhost by reflexivity.
    unfold char_at_is. rewrite get_drop_str, Hdrop. simpl.
    unfold find_char, find_from.
    replace (last + String.length host + 1)%nat
      with ((last + String.length host) + 1)%nat by lia.
    rewrite drop_str_add, Hdrop. simpl drop_str.
    destruct Hpath as [-> | [r ->]].
    + replace (port +:+ EmptyString) with port
        by (symmetry; apply append_empty_r).
      rewrite find_if_all_not by (now apply free_of_slash).
      simpl. unfold substr_from.
      replace (last + String.length host + 1)%nat
        with ((last + String.length host) + 1)%nat by lia.
      rewrite drop_str_add, Hdrop. simpl.
      replace (port +:+ EmptyString) with port
        by (symmetry; apply append_empty_r).
      reflexivity.
    + rewrite find_if_app by (now apply free_of_slash || reflexivity).
      simpl option_map; cbv beta iota. unfold substr_from.
      replace (last + String.length host + 1 + String.length port)%nat
        with ((last + String.length host) + (1 + String.length port))%nat by lia.
      rewrite drop_str_add, Hdrop. simpl drop_str. rewrite drop_str_append.
      f_equal.
      unfold substr, size, wrap in *. simpl in Hlen. rewrite length_append in Hlen.
      simpl in Hlen.
      replace (Z.of_nat (last + String.length host + (1 + String.length port))
               - Z.of_nat (last + String.length host) - 1)
        with (Z.of_nat (String.length port)) by lia.
      rewrite Z.mod_small by lia. rewrite Z.min_l by lia.
      rewrite Nat2Z.id, drop_str_add, Hdrop. simpl. apply take_str_append.
  - intros Htail. unfold find_first_of, find_from. rewrite Hd.
    destruct Htail as [-> | [r ->]].
    + replace (host +:+ EmptyString) with host
        by (symmetry; apply append_empty_r).
      rewrite find_if_all_not by exact Hh. simpl. unfold substr_from.
      rewrite Hd.
      replace (host +:+ EmptyString) with host
        by (symmetry; apply append_empty_r).
      reflexivity.
    + rewrite free_of_find by (exact Hh || reflexivity). simpl option_map; cbv beta iota.
      rewrite Hhost by reflexivity.
      unfold char_at_is. rewrite get_drop_str, Hdrop. simpl.
      unfold substr_from. now rewrite Hdrop.
Qed.

Lemma url_scheme_plain host path :
  free_of ":/" host = true -> path = EmptyString \/ begins_with "/" path ->
  url_scheme (host +:+ path) = (NONE, 0%nat).
Proof.
  intros Hh Hp. unfold url_scheme.
  assert (H1 : strncasecmp_eq (host +:+ path) "http://" = false).
  { destruct host as [|c0 [|c1 [|c2 [|c3 [|c4 host]]]]];
      try (destruct Hp as [-> | [r ->]]; simpl; now rewrite ?andb_false_r).
    simpl. rewrite !free_of_cons in Hh.
    repeat (apply andb_true_iff in Hh as [? Hh]).
    change (tolower ":") with ":"%char.
    match goal with H : negb (mem_char c4 _) = true |- _ =>
      apply not_colon_slash in H as [Hc _] end.
    rewrite tolower_colon, Hc. now rewrite ?andb_false_r. }
  assert (H2 : strncasecmp_eq (host +:+ path) "https://" = false).
  { destruct host as [|c0 [|c1 [|c2 [|c3 [|c4 [|c5 host]]]]]];
      try (destruct Hp as [-> | [r ->]]; simpl; now rewrite ?andb_false_r).
    simpl. rewrite !free_of_cons in Hh.
    repeat (apply andb_true_iff in Hh as [? Hh]).
    change (tolower ":") with ":"%char.
    match goal with H : negb (mem_char c5 _) = true |- _ =>
      apply not_colon_slash in H as [Hc _] end.
    rewrite tolower_colon, Hc. now rewrite ?andb_false_r. }
  now rewrite H1, H2.
Qed.

(** X1.  A URL put together from its parts is taken apart into the same
    parts: for a host without [:] and [/], a port without [/] and a path
    that is empty or begins with [/], the URL [scheme host : port path]
    gives that protocol, host and port, and the path (or [/] for the empty
    one); without [: port] it gives the default port of the protocol.  A
    URL without scheme is the authority form [host:port] of a CONNECT
    request or has no port. *)
Theorem HttpUrl_of_parts (pr : Protocol) (host port path : string) :
  free_of ":/" host = true ->
  free_of "/" port = true ->
  path = EmptyString \/ begins_with "/" path ->
  size (url_prefix pr +:+ host +:+ ":" +:+ port +:+ path) < size_t_modulus ->
  (pr = NONE -> path = EmptyString ->
   HttpUrl_ctor (host +:+ ":" +:+ port) = mkHttpUrl NONE host port "/")
  /\ (pr <> NONE ->
      HttpUrl_ctor (url_prefix pr +:+ host +:+ ":" +:+ port +:+ path)
      = mkHttpUrl pr host port (path_or_root path))
  /\ HttpUrl_ctor (url_prefix pr +:+ host +:+ path)
     = mkHttpUrl pr host (default_port pr) (path_or_root path).
Proof.
  intros Hh Hp Hpath Hsz.
  assert (Hsz' : size (url_prefix pr +:+ host +:+ path) < size_t_modulus).
  { unfold size in *. rewrite !length_append in *. simpl in Hsz. lia. }
  split; [|split].
  - intros -> ->. simpl in Hsz. rewrite append_empty_r in Hsz.
    refine (proj1 (HttpUrl_ctor_parts NONE 0 host (":" +:+ port) _
                     (url_scheme_authority _ _ Hh Hp) Hh eq_refl Hsz)
              port EmptyString _ Hp (or_introl eq_refl)).
    now rewrite append_empty_r.
  - intros Hpr.
    refine (proj1 (HttpUrl_ctor_parts pr _ host (":" +:+ port +:+ path) _
                     (url_scheme_prefix pr _ Hpr) Hh _ Hsz)
              port path eq_refl Hp Hpath).
    apply drop_str_append.
  - assert (pr = NONE \/ pr <> NONE) as [-> | Hpr]
      by (destruct pr; [left; reflexivity | right; discriminate
                        | right; discriminate]).
    + exact (proj2 (HttpUrl_ctor_parts NONE 0 host path _
                      (url_scheme_plain _ _ Hh Hpath) Hh eq_refl Hsz') Hpath).
    + refine (proj2 (HttpUrl_ctor_parts pr _ host path _
                       (url_scheme_prefix pr _ Hpr) Hh _ Hsz') Hpath).
      apply drop_str_append.
Qed.

Lemma HttpUrl_of_parts_witness :
  HttpUrl_ctor "https://example.org:8443/a/b?c=d"
  = mkHttpUrl HTTPS "example.org" "8443" "/a/b?c=d"
  /\ HttpUrl_ctor "https://example.org/a/b?c=d"
     = mkHttpUrl HTTPS "example.org" "443" "/a/b?c=d".
Proof.
  destruct (HttpUrl_of_parts HTTPS "example.org" "8443" "/a/b?c=d")
    as (_ & Hport & Hplain).
  - reflexivity.
  - reflexivity.
  - right. eexists. reflexivity.
  - vm_compute. reflexivity.
  - split; [apply Hport; discriminate | exact Hplain].
Defined.

(** ** [canonicalize] *)

Lemma isalpha_tolower c : isalpha (tolower c) = isalpha c.
Proof. destruct c as [[] [] [] [] [] [] [] []]; reflexivity. Qed.

Lemma isalpha_toupper c : isalpha (toupper c) = isalpha c.
Proof. destruct c as [[] [] [] [] [] [] [] []]; reflexivity. Qed.

Lemma tolower_tolower c : tolower (tolower c) = tolower c.
Proof. destruct c as [[] [] [] [] [] [] [] []]; reflexivity. Qed.

Lemma tolower_toupper c : tolower (toupper c) = tolower c.
Proof. destruct c as [[] [] [] [] [] [] [] []]; reflexivity. Qed.

Lemma toupper_tolower c : toupper (tolower c) = toupper c.
Proof. destruct c as [[] [] [] [] [] [] [] []]; reflexivity. Qed.

Lemma toupper_toupper c : toupper (toupper c) = toupper c.
Proof. destruct c as [[] [] [] [] [] [] [] []]; reflexivity. Qed.

Lemma tolower_not_alpha c : isalpha c = false -> tolower c = c.
Proof.
  unfold isalpha, tolower. now intros [-> _]%orb_false_iff.
Qed.

Lemma lowercase_canonicalize_from s : forall first,
  lowercase (canonicalize_from first s) = lowercase s.
Proof.
  induction s as [|ch s IH]; intros first; simpl; [reflexivity|].
  destruct (isalpha ch); simpl; rewrite IH; [|reflexivity].
  destruct first; now rewrite ?tolower_toupper, ?tolower_tolower.
Qed.

Lemma canonicalize_from_lowercase s : forall first,
  canonicalize_from first (lowercase s) = canonicalize_from first s.
Proof.
  induction s as [|ch s IH]; intros first; simpl; [reflexivity|].
  rewrite isalpha_tolower, !IH.
  destruct (isalpha ch) eqn:Ha.
  - destruct first; now rewrite ?toupper_tolower, ?tolower_tolower.
  - now rewrite (tolower_not_alpha _ Ha).
Qed.

Lemma canonicalize_from_idempotent s : forall first,
  canonicalize_from first (canonicalize_from first s)
  = canonicalize_from first s.
Proof.
  induction s as [|ch s IH]; intros first; simpl; [reflexivity|].
  destruct (isalpha ch) eqn:Ha; simpl.
  - destruct first;
      rewrite ?isalpha_toupper, ?isalpha_tolower, Ha, IH;
      now rewrite ?toupper_toupper, ?tolower_tolower.
  - now rewrite Ha, IH.
Qed.

Lemma length_canonicalize_from s : forall first,
  String.length (canonicalize_from first s) = String.length s.
Proof.
  induction s as [|ch s IH]; intros first; simpl; [reflexivity|].
  destruct (isalpha ch); simpl; now rewrite IH.
Qed.

(** X2.  [canonicalize] gives header keys a normal form for comparison
    without regard to case: it is idempotent, keeps the length, and two
    keys have the same canonical form exactly when they are equal up to
    the case of their ASCII letters. *)
Theorem canonicalize_normal_form (s t : string) :
  canonicalize (canonicalize s) = canonicalize s
  /\ String.length (canonicalize s) = String.length s
  /\ (canonicalize s = canonicalize t <-> lowercase s = lowercase t).
Proof.
  unfold canonicalize. split; [apply canonicalize_from_idempotent|].
  split; [apply length_canonicalize_from|]. split.
  - intros Heq.
    rewrite <- (lowercase_canonicalize_from s true), Heq.
    apply lowercase_canonicalize_from.
  - intros Heq.
    rewrite <- (canonicalize_from_lowercase s), Heq.
    apply canonicalize_from_lowercase.
Qed.

(** ** The start line *)

Lemma find_from_split P s pos :
  (pos <= String.length s)%nat ->
  match find_from P s pos with
  | Some i =>
      exists a c r,
        drop_str pos s = a +:+ String c r
        /\ i = (pos + String.length a)%nat
        /\ all_chars (fun c => negb (P c)) a = true /\ P c = true
  | None => all_chars (fun c => negb (P c)) (drop_str pos s) = true
  end.
Proof.
  intros _. unfold find_from.
  pose proof (find_if_split P (drop_str pos s)) as Hs.
  destruct (find_if P (drop_str pos s)) as [j|]; simpl; [|exact Hs].
  destruct Hs as (a & c & r & Hd & <- & Ha & Hc). eauto 10.
Qed.

Lemma free_of_char c s :
  free_of (String c EmptyString) s
  = all_chars (fun d => negb (d =? c)%char) s.
Proof.
  unfold free_of. apply all_chars_ext. intros d. simpl.
  now rewrite orb_false_r.
Qed.

Lemma count_char_free c s :
  free_of (String c EmptyString) s = true -> count_char c s = 0%nat.
Proof.
  rewrite free_of_char. induction s as [|d s IH]; simpl; [reflexivity|].
  intros [Hd Hs]%andb_true_iff. apply negb_true_iff in Hd.
  now rewrite Hd, IH.
Qed.

Lemma count_char_append c a b :
  count_char c (a +:+ b) = (count_char c a + count_char c b)%nat.
Proof.
  induction a as [|d a IH]; [reflexivity|].
  change (String d a +:+ b) with (String d (a +:+ b)). simpl.
  rewrite IH. lia.
Qed.

(** [line.substr(pos, n)] for a piece of [line] found at [pos]. *)
Lemma substr_piece line pos piece tail i :
  size line < size_t_modulus ->
  (pos <= String.length line)%nat ->
  drop_str pos line = piece +:+ tail ->
  i = (pos + String.length piece)%nat ->
  substr line pos (wrap (Z.of_nat i - Z.of_nat pos)) = piece.
Proof.
  intros Hsz Hpos Hd ->. unfold substr, wrap, size in *.
  pose proof (length_drop_str pos line) as Hl.
  rewrite Hd, length_append in Hl.
  replace (Z.of_nat (pos + String.length piece) - Z.of_nat pos)
    with (Z.of_nat (String.length piece)) by lia.
  rewrite Z.mod_small by lia. rewrite Z.min_l by lia.
  rewrite Nat2Z.id, Hd. apply take_str_append.
Qed.

Lemma drop_str_piece line pos piece tail :
  drop_str pos line = piece +:+ tail ->
  drop_str (pos + String.length piece) line = tail.
Proof. intros Hd. now rewrite drop_str_add, Hd, drop_str_append. Qed.

(** X3.  [putStartLine] on a whole line: a line with two spaces or more
    is cut at its first two spaces, the third field running up to the
    first carriage return (so a reason phrase keeps its spaces), and the
    parser goes on to the headers; a line with fewer than two spaces
    raises [ParseError]. *)
Theorem putStartLine_fields (p : HttpParser) (line rest : string) :
  mem_char "010" line = false ->
  size line < size_t_modulus ->
  (exists f0 f1 f2 tail,
     line = f0 +:+ " " +:+ f1 +:+ " " +:+ f2 +:+ tail
     /\ free_of " " f0 = true /\ free_of " " f1 = true
     /\ free_of CR f2 = true
     /\ (tail = EmptyString \/ begins_with "013" tail)
     /\ (2 <= count_char " " line)%nat
     /\ putStartLine p (istream_of (line +:+ LF +:+ rest))
        = Ok (mkHttpParser
                (mkHttpMessage (f0, f1, f2) (headerLines (message p))
                   (body (message p)))
                HEADER (format p) (contentLength p),
              istream_of rest))
  \/ ((count_char " " line < 2)%nat
      /\ putStartLine p (istream_of (line +:+ LF +:+ rest))
         = Throw (ParseError "Invalid start line (need 3 fields)")).
Proof.
  intros Hline Hsz. unfold putStartLine.
  change (LF +:+ rest) with (String "010" rest).
  rewrite (getline_line _ _ Hline). simpl failbit. cbv iota.
  unfold find_first_of.
  pose proof (find_from_split (fun c => mem_char c " ") line 0 ltac:(lia)) as H0.
  destruct (find_from _ line 0) as [pos0|].
  2:{ right. split; [|reflexivity].
      rewrite count_char_free; [lia | exact H0]. }
  destruct H0 as (f0 & c0 & r0 & Hd0 & Hp0 & Hf0 & Hc0).
  simpl in Hd0, Hp0. subst pos0.
  assert (c0 = " "%char) as ->.
  { simpl in Hc0. rewrite orb_false_r in Hc0. now apply Ascii.eqb_eq in Hc0. }
  assert (Hlen0 : (String.length f0 + 1 <= String.length line)%nat).
  { rewrite Hd0, length_append. simpl. lia. }
  pose proof (find_from_split (fun c => mem_char c " ") line
                (String.length f0 + 1) Hlen0) as H1.
  assert (Hr0 : drop_str (String.length f0 + 1) line = r0).
  { rewrite drop_str_add. rewrite Hd0 at 1. now rewrite drop_str_append. }
  rewrite Hr0 in H1.
  destruct (find_from _ line (String.length f0 + 1)) as [pos1|].
  2:{ right. split; [|reflexivity].
      rewrite Hd0, count_char_append. simpl.
      rewrite !count_char_free by assumption. lia. }
  destruct H1 as (f1 & c1 & r1 & Hd1 & -> & Hf1 & Hc1).
  assert (c1 = " "%char) as ->.
  { simpl in Hc1. rewrite orb_false_r in Hc1. now apply Ascii.eqb_eq in Hc1. }
  left.
  assert (Hr1 : drop_str (String.length f0 + 1 + String.length f1 + 1) line
                = r1).
  { rewrite drop_str_add, (drop_str_piece line _ f1 (String " " r1)); [reflexivity|].
    now rewrite Hr0. }
  assert (Hlen1 : (String.length f0 + 1 + String.length f1 + 1
                   <= String.length line)%nat).
  { rewrite Hd0, length_append. simpl. rewrite Hd1, length_append. simpl. lia. }
  pose proof (find_from_split (fun c => mem_char c CR) line
                (String.length f0 + 1 + String.length f1 + 1) Hlen1) as H2.
  rewrite Hr1 in H2.
  assert (Hline_eq : forall f2 tail, r1 = f2 +:+ tail ->
            line = f0 +:+ " " +:+ f1 +:+ " " +:+ f2 +:+ tail).
  { intros f2 tail Hr. rewrite Hd0 at 1. rewrite Hd1, Hr. reflexivity. }
  assert (Hcount : (2 <= count_char " " line)%nat).
  { rewrite Hd0, count_char_append. simpl.
    rewrite Hd1, count_char_append. simpl. lia. }
  assert (Hfield0 : substr line 0 (wrap (Z.of_nat (String.length f0) - 0)) = f0).
  { apply (substr_piece line 0 f0 (String " " r0));
      [assumption | lia | exact Hd0 | reflexivity]. }
  assert (Hfield1 :
    substr line (String.length f0 + 1)
      (wrap (Z.of_nat (String.length f0 + 1 + String.length f1)
             - Z.of_nat (String.length f0 + 1))) = f1).
  { apply (substr_piece line _ f1 (String " " r1));
      [assumption | lia | now rewrite Hr0 | reflexivity]. }
  rewrite Hfield0, Hfield1.
  destruct (find_from _ line (String.length f0 + 1 + String.length f1 + 1))
    as [pos2|].
  - destruct H2 as (f2 & c2 & r2 & Hd2 & -> & Hf2 & Hc2).
    assert (c2 = "013"%char) as ->.
    { simpl in Hc2. rewrite orb_false_r in Hc2. now apply Ascii.eqb_eq in Hc2. }
    exists f0, f1, f2, (String "013" r2).
    split; [now apply Hline_eq|].
    split; [assumption|]. split; [assumption|]. split; [assumption|].
    split; [right; now exists r2|]. split; [assumption|].
    rewrite (substr_piece line _ f2 (String "013" r2));
      [reflexivity | assumption | lia | now rewrite Hr1 | reflexivity].
  - exists f0, f1, r1, EmptyString.
    split; [apply Hline_eq; symmetry; apply append_empty_r|].
    split; [assumption|]. split; [assumption|]. split; [assumption|].
    split; [now left|]. split; [assumption|].
    unfold substr_from. now rewrite Hr1.
Qed.

Lemma putStartLine_fields_witness :
  putStartLine (HttpParser_ctor empty_message)
    (istream_of ("HTTP/1.1 404 Not Found" +:+ CRLF +:+ "Host: a"))
  = Ok (mkHttpParser
          (mkHttpMessage ("HTTP/1.1", "404", "Not Found") [] EmptyString)
          HEADER PLAIN 0, istream_of "Host: a").
Proof.
  destruct (putStartLine_fields (HttpParser_ctor empty_message)
              ("HTTP/1.1 404 Not Found" +:+ CR) "Host: a")
    as [(f0 & f1 & f2 & tail & _ & _ & _ & _ & _ & _ & Hrun) | [Hcount _]].
  - reflexivity.
  - vm_compute. reflexivity.
  - etransitivity; [exact Hrun|]. rewrite <- Hrun. reflexivity.
  - vm_compute in Hcount. lia.
Defined.

(** ** Header lines *)

Lemma find_last_if_append P a b :
  find_last_if P (a +:+ b) =
  match find_last_if P b with
  | Some i => Some (String.length a + i)%nat
  | None => find_last_if P a
  end.
Proof.
  induction a as [|c a IH].
  { change (EmptyString +:+ b) with b. now destruct (find_last_if P b). }
  change (String c a +:+ b) with (String c (a +:+ b)). simpl.
  rewrite IH. now destruct (find_last_if P b).
Qed.

Lemma find_last_if_None P s :
  find_last_if P s = None <-> all_chars (fun c => negb (P c)) s = true.
Proof.
  induction s as [|c s IH]; simpl; [tauto|].
  destruct (find_last_if P s) as [i|].
  - split; [discriminate|]. intros [_ Hs]%andb_true_iff.
    apply IH in Hs. discriminate.
  - destruct (P c); simpl; [split; discriminate|].
    split; [intros _; now apply IH | reflexivity].
Qed.

Lemma find_last_if_Some P s : forall i,
  find_last_if P s = Some i ->
  exists c r, drop_str i s = String c r /\ P c = true
              /\ all_chars (fun c => negb (P c)) r = true.
Proof.
  induction s as [|d s IH]; intros i; simpl; [discriminate|].
  destruct (find_last_if P s) as [k|] eqn:Hk.
  - intros [= <-]. simpl. now apply IH.
  - destruct (P d) eqn:Hd; [|discriminate].
    intros [= <-]. exists d, s. simpl. split; [reflexivity|].
    split; [assumption|]. now apply find_last_if_None.
Qed.

Lemma find_last_if_drop P s : forall i j,
  find_last_if P s = Some i -> (j <= i)%nat ->
  find_last_if P (drop_str j s) = Some (i - j)%nat.
Proof.
  induction s as [|d s IH]; intros i j; simpl; [discriminate|].
  destruct j as [|j]; simpl.
  - intros -> _. f_equal. lia.
  - destruct (find_last_if P s) as [k|] eqn:Hk.
    + intros [= <-] Hj. rewrite (IH k j eq_refl) by lia. reflexivity.
    + destruct (P d); [|discriminate]. intros [= <-]. lia.
Qed.

Lemma find_if_le P s : forall j i c r,
  find_if P s = Some j -> drop_str i s = String c r -> P c = true ->
  (j <= i)%nat.
Proof.
  induction s as [|d s IH]; intros j i c r; simpl; [discriminate|].
  destruct (P d) eqn:Hd.
  - intros [= <-]. lia.
  - destruct (find_if P s) as [k|] eqn:Hk; simpl; [|discriminate].
    intros [= <-]. destruct i as [|i]; simpl.
    + intros [= -> ->]. congruence.
    + intros Hdrop Hc. pose proof (IH k i c r eq_refl Hdrop Hc). lia.
Qed.

Lemma rstrip_find_last Q s :
  rstrip Q s =
  match find_last_if (fun c => negb (Q c)) s with
  | Some i => take_str (S i) s
  | None => EmptyString
  end.
Proof.
  induction s as [|c s IH]; simpl; [reflexivity|].
  rewrite IH. destruct (find_last_if _ s) as [i|] eqn:Hl.
  - destruct s as [|d s]; [discriminate Hl|]. reflexivity.
  - now destruct (Q c).
Qed.

Lemma find_first_colon k r :
  free_of ": " k = true ->
  find_first_of (k +:+ String ":" r) ": " 0 = Some (String.length k).
Proof.
  intros Hk. unfold find_first_of, find_from. simpl drop_str.
  rewrite find_if_app by (exact Hk || reflexivity). simpl. f_equal.
Qed.

Lemma length_skip_chars Q s :
  (String.length (skip_chars Q s) <= String.length s)%nat.
Proof.
  induction s as [|c s IH]; simpl; [lia|].
  destruct (Q c); simpl; lia.
Qed.

(** The header of the line [k : r]. *)
Lemma header_of_key_value_line k r :
  free_of ": " k = true ->
  size (k +:+ ":" +:+ r) < size_t_modulus ->
  header_of_line (k +:+ ":" +:+ r)
  = Some (mkHeader (canonicalize k) (header_value r)).
Proof.
  intros Hk Hsz.
  change (k +:+ ":" +:+ r) with (k +:+ String ":" r) in *.
  set (line := k +:+ String ":" r) in *.
  assert (Hlen : String.length line = (String.length k + S (String.length r))%nat).
  { subst line. now rewrite length_append. }
  assert (Hr : drop_str (String.length k + 1) line = r).
  { subst line. now rewrite drop_str_add, drop_str_append. }
  unfold header_of_line.
  assert (Hblank : is_blank line = false).
  { subst line. unfold is_blank. apply orb_false_iff.
    split; apply String.eqb_neq; intros Heq;
      destruct k as [|c [|d k]]; vm_compute in Heq; discriminate Heq. }
  rewrite Hblank. unfold line at 1. rewrite (find_first_colon k r Hk).
  unfold char_at_is. rewrite get_drop_str. unfold line at 1.
  rewrite drop_str_append. simpl Ascii.eqb. cbv iota.
  f_equal. unfold split_header. simpl key. simpl value.
  assert (Hkey : substr line 0 (Z.of_nat (String.length k)) = k).
  { unfold substr, size. rewrite Hlen. rewrite Z.min_l by lia.
    rewrite Nat2Z.id. subst line. simpl drop_str. apply take_str_append. }
  rewrite Hkey. f_equal.
  assert (Hpos2 :
    find_last_if (fun c => negb (mem_char c SP_HT_CR)) line
    = match find_last_if (fun c => negb (mem_char c SP_HT_CR)) r with
      | Some i => Some (String.length k + S i)%nat
      | None => Some (String.length k + 0)%nat
      end).
  { unfold line. rewrite find_last_if_append. simpl find_last_if.
    now destruct (find_last_if _ r). }
  unfold find_last_not_of. rewrite Hpos2.
  unfold find_first_not_of, find_from. rewrite Hr.
  unfold header_value.
  pose proof (find_last_if_None (fun c => negb (mem_char c SP_HT_CR)) r)
    as Hnone.
  destruct (find_last_if _ r) as [i|] eqn:Hlast.
  - (* something other than white space follows the colon *)
    assert (Hall : all_chars space_tab_or_cr r = false).
    { destruct (all_chars space_tab_or_cr r) eqn:Ha; [|reflexivity].
      assert (Hn : @None nat = None) by reflexivity.
      exfalso. 
      assert (all_chars (fun c => negb (negb (mem_char c SP_HT_CR))) r = true).
      { erewrite all_chars_ext; [exact Ha|]. intros c. now rewrite negb_involutive. }
      apply Hnone in H. discriminate. }
    rewrite Hall.
    destruct (find_last_if_Some _ _ _ Hlast) as (c & r' & Hdi & Hc & _).
    destruct (find_if _ r) as [j|] eqn:Hj.
    2:{ exfalso. apply (find_if_not_None space_or_tab) in Hj.
        assert (Hcr : all_chars space_or_tab (drop_str i r) = true)
          by now apply all_chars_drop_str.
        rewrite Hdi in Hcr. simpl in Hcr.
        apply andb_true_iff in Hcr as [Hcs _].
        apply negb_true_iff in Hc. unfold space_or_tab in Hcs.
        simpl in Hcs, Hc. rewrite orb_false_r in Hcs.
        destruct (c =? " ")%char, (c =? "009")%char; simpl in *; discriminate. }
    assert (Hji : (j <= i)%nat).
    { apply (find_if_le _ _ _ _ _ _ Hj Hdi).
      apply negb_true_iff in Hc. simpl in Hc |- *.
      destruct (c =? " ")%char, (c =? "009")%char; simpl in *;
        reflexivity || discriminate. }
    simpl option_map. cbv iota beta.
    pose proof (find_if_not_Some space_or_tab _ _ Hj) as Ht.
    rewrite <- Ht. rewrite rstrip_find_last. unfold space_tab_or_cr.
    rewrite (find_last_if_drop _ _ _ _ Hlast Hji).
    unfold substr, wrap, size in *. rewrite Hlen in *.
    replace (Z.of_nat (S (String.length k + S i))
             - Z.of_nat (String.length k + 1 + j))
      with (Z.of_nat (S (i - j))) by lia.
    assert (Hilt : (i < String.length r)%nat).
    { pose proof (length_drop_str i r) as Hl. rewrite Hdi in Hl.
      simpl in Hl. lia. }
    rewrite Z.mod_small by lia. rewrite Z.min_l by lia.
    rewrite Nat2Z.id, drop_str_add, Hr. reflexivity.
  - (* only white space follows the colon *)
    assert (Hall : all_chars space_tab_or_cr r = true).
    { erewrite all_chars_ext; [apply Hnone; reflexivity|].
      intros c. unfold space_tab_or_cr. now rewrite negb_involutive. }
    rewrite Hall. cbv iota.
    destruct (find_if _ r) as [j|] eqn:Hj; simpl option_map; cbv iota beta.
    + pose proof (find_if_not_Some space_or_tab _ _ Hj) as Ht.
      rewrite <- Ht.
      pose proof (find_if_Some _ _ _ Hj) as (cj & rj & _ & _ & Hjlt).
      destruct j as [|j].
      * simpl drop_str. rewrite String.eqb_refl.
        unfold substr.
        match goal with |- context [wrap ?z] =>
          replace (wrap z) with 0 by (now replace z with 0 by lia) end.
        unfold size. rewrite Hlen. rewrite Z.min_l by lia. reflexivity.
      * assert (Hne : (drop_str (S j) r =? r)%string = false).
        { apply String.eqb_neq. intros Heq.
          pose proof (length_drop_str (S j) r) as Hl. rewrite Heq in Hl. lia. }
        rewrite Hne. unfold substr.
        match goal with |- context [wrap ?z] =>
          replace (wrap z) with (size_t_modulus - Z.of_nat (S j)) end.
        2:{ unfold wrap.
            match goal with |- _ = ?z mod _ =>
              replace z with (size_t_modulus - Z.of_nat (S j)
                              + (-1) * size_t_modulus) by lia end.
            rewrite Z.mod_add by discriminate.
            unfold size in Hsz. rewrite Hlen in Hsz.
            rewrite Z.mod_small; [reflexivity|]. unfold size_t_modulus in *. lia. }
        unfold size in *. rewrite Hlen in *.
        rewrite Z.min_r by lia.
        replace (Z.to_nat (Z.of_nat (String.length k + S (String.length r))
                           - Z.of_nat (String.length k + 1 + S j)))
          with (String.length r - S j)%nat by lia.
        rewrite drop_str_add, Hr.
        rewrite <- (length_drop_str (S j) r). apply take_str_all.
    + apply (find_if_not_None space_or_tab) in Hj.
      assert (Ht : skip_chars space_or_tab r = EmptyString).
      { clear -Hj. induction r as [|c r IH]; simpl in *; [reflexivity|].
        apply andb_true_iff in Hj as [-> Hr]. auto. }
      rewrite Ht. unfold substr.
      match goal with |- context [wrap ?z] =>
        replace (wrap z) with 0 by (now replace z with 0 by lia) end.
      unfold size. rewrite Hlen. rewrite Z.min_l by lia.
      now destruct (EmptyString =? r)%string.
Qed.

Lemma all_chars_append Q a b :
  all_chars Q (a +:+ b) = all_chars Q a && all_chars Q b.
Proof.
  induction a as [|c a IH]; [reflexivity|].
  change (String c a +:+ b) with (String c (a +:+ b)). simpl.
  now rewrite IH, andb_assoc.
Qed.

Lemma skip_chars_split Q s :
  exists lead, s = lead +:+ skip_chars Q s /\ all_chars Q lead = true.
Proof.
  induction s as [|c s IH]; simpl; [now exists EmptyString|].
  destruct (Q c) eqn:Hc; [|now exists EmptyString].
  destruct IH as (lead & Hs & Hl). exists (String c lead).
  change (String c lead +:+ skip_chars Q s)
    with (String c (lead +:+ skip_chars Q s)).
  rewrite <- Hs. simpl. now rewrite Hc, Hl.
Qed.

Lemma skip_chars_append Q a c r :
  all_chars Q a = true -> Q c = false ->
  skip_chars Q (a +:+ String c r) = String c r.
Proof.
  intros Ha Hc. induction a as [|d a IH].
  - change (EmptyString +:+ String c r) with (String c r). simpl.
    now rewrite Hc.
  - change (String d a +:+ String c r) with (String d (a +:+ String c r)).
    simpl in *. apply andb_true_iff in Ha as [-> Ha]. auto.
Qed.

Lemma rstrip_split Q s :
  exists trail, s = rstrip Q s +:+ trail /\ all_chars Q trail = true.
Proof.
  induction s as [|c s IH]; simpl; [now exists EmptyString|].
  destruct IH as (trail & Hs & Ht).
  destruct (rstrip Q s) as [|d u] eqn:Hr.
  - change (EmptyString +:+ trail) with trail in Hs. subst trail.
    destruct (Q c) eqn:Hc.
    + exists (String c s). split; [reflexivity|]. simpl. now rewrite Hc, Ht.
    + exists s. split; [reflexivity | exact Ht].
  - exists trail. split; [|exact Ht].
    change (String c (String d u) +:+ trail)
      with (String c (String d u +:+ trail)). now rewrite <- Hs.
Qed.

Lemma rstrip_empty Q s :
  rstrip Q s = EmptyString <-> all_chars Q s = true.
Proof.
  induction s as [|c s IH]; simpl; [tauto|].
  destruct (rstrip Q s) as [|d u].
  - destruct (Q c); simpl.
    + split; [intros _; now apply IH | reflexivity].
    + split; discriminate.
  - split; [discriminate|]. intros [_ Hs]%andb_true_iff.
    apply IH in Hs. discriminate.
Qed.

Lemma rstrip_idempotent Q s : rstrip Q (rstrip Q s) = rstrip Q s.
Proof.
  induction s as [|c s IH]; simpl; [reflexivity|].
  destruct (rstrip Q s) as [|d u] eqn:Hr.
  - destruct (Q c) eqn:Hc; simpl; [reflexivity|]. now rewrite Hc.
  - change (rstrip Q (String c (String d u)))
      with (match rstrip Q (String d u) with
            | EmptyString => if Q c then EmptyString else String c EmptyString
            | t => String c t
            end).
    now rewrite IH.
Qed.

Lemma rstrip_head Q c s :
  rstrip Q (String c s) <> EmptyString ->
  exists u, rstrip Q (String c s) = String c u.
Proof.
  simpl. destruct (rstrip Q s) as [|d u]; [|eauto].
  destruct (Q c); [congruence | eauto].
Qed.

(** X4.  [putHeader] on a line that is not blank: a line without a colon
    and without a space raises [ParseError]; so does a line with a space
    before its first colon; every other line is accepted, and the header
    pushed back has the canonical form of the text before the first colon
    as its key.  One of the three cases applies to every line. *)
Theorem putHeader_line_outcome (p : HttpParser) (line : string) :
  is_blank line = false ->
  size line < size_t_modulus ->
  (free_of ": " line = true ->
   putHeader_line p line
   = Throw (ParseError "Invalid header line (no colon)"))
  /\ (forall a r,
        line = a +:+ " " +:+ r -> free_of ": " a = true ->
        putHeader_line p line
        = Throw (ParseError "Invalid header line (space before colon)"))
  /\ (forall k r,
        line = k +:+ ":" +:+ r -> free_of ": " k = true ->
        let h := mkHeader (canonicalize k) (header_value r) in
        putHeader_line p line = inspect_framing (push_header p h) h)
  /\ (free_of ": " line = true
      \/ (exists a r, line = a +:+ " " +:+ r /\ free_of ": " a = true)
      \/ (exists k r, line = k +:+ ":" +:+ r /\ free_of ": " k = true)).
Proof.
  intros Hblank Hsz. split; [|split; [|split]].
  - intros Hfree. unfold putHeader_line. rewrite Hblank.
    unfold find_first_of, find_from. simpl drop_str.
    now rewrite find_if_all_not.
  - intros a r -> Ha. unfold putHeader_line. rewrite Hblank.
    change (a +:+ " " +:+ r) with (a +:+ String " " r).
    unfold find_first_of, find_from. simpl drop_str.
    rewrite find_if_app by (exact Ha || reflexivity). simpl option_map.
    unfold char_at_is. rewrite get_drop_str. simpl Nat.add.
    now rewrite drop_str_append.
  - intros k r -> Hk h. apply putHeader_line_header.
    now apply header_of_key_value_line.
  - pose proof (find_from_split (fun c => mem_char c ": ") line 0 ltac:(lia))
      as Hsplit.
    destruct (find_from _ line 0) as [pos|]; [|now left].
    destruct Hsplit as (a & c & r & Hd & _ & Ha & Hc).
    simpl in Hd. subst line. right.
    simpl in Hc. rewrite orb_false_r in Hc.
    apply orb_true_iff in Hc as [Hc|Hc]; apply Ascii.eqb_eq in Hc; subst c;
      [right | left]; exists a, r; auto.
Qed.

Lemma putHeader_line_outcome_witness :
  let p := mkHttpParser (mkHttpMessage ("GET", "/", "HTTP/1.1") [] EmptyString)
             HEADER PLAIN 0 in
  putHeader_line p "Host : origin"
  = Throw (ParseError "Invalid header line (space before colon)")
  /\ putHeader_line p "hOsT:origin  "
     = Ok (mkHttpParser
             (mkHttpMessage ("GET", "/", "HTTP/1.1")
                [mkHeader "Host" "origin"] EmptyString)
             HEADER PLAIN 0).
Proof.
  intros p. split.
  - destruct (putHeader_line_outcome p "Host : origin" eq_refl)
      as (_ & Hspace & _); [vm_compute; reflexivity|].
    exact (Hspace "Host" ": origin" eq_refl eq_refl).
  - destruct (putHeader_line_outcome p "hOsT:origin  " eq_refl)
      as (_ & _ & Hcolon & _); [vm_compute; reflexivity|].
    exact (Hcolon "hOsT" "origin  " eq_refl eq_refl).
Defined.

(** X5.  The value of an accepted header line [k : r].  When something
    other than spaces, tabs and carriage returns follows the colon, the
    value is that text without the spaces and tabs in front of it and
    without the spaces, tabs and carriage returns behind it.  When only
    such characters follow, the value is empty if they are all spaces and
    tabs or begin with the carriage return; but when spaces or tabs
    precede the carriage return, as in the line [k: CR] of a header with
    an empty value, the value is the rest of the line from the carriage
    return on. *)
Theorem header_value_shape (k r : string) :
  free_of ": " k = true ->
  size (k +:+ ":" +:+ r) < size_t_modulus ->
  exists v,
    header_of_line (k +:+ ":" +:+ r) = Some (mkHeader (canonicalize k) v)
    /\ (all_chars space_tab_or_cr r = false ->
        v <> EmptyString
        /\ skip_chars space_or_tab v = v
        /\ rstrip space_tab_or_cr v = v
        /\ exists lead trail,
             r = lead +:+ v +:+ trail
             /\ all_chars space_or_tab lead = true
             /\ all_chars space_tab_or_cr trail = true)
    /\ (all_chars space_or_tab r = true \/ begins_with "013" r ->
        all_chars space_tab_or_cr r = true -> v = EmptyString)
    /\ (forall sp t,
          r = sp +:+ CR +:+ t -> sp <> EmptyString ->
          all_chars space_or_tab sp = true ->
          all_chars space_tab_or_cr t = true ->
          v = CR +:+ t).
Proof.
  intros Hk Hsz. exists (header_value r).
  split; [now apply header_of_key_value_line|].
  unfold header_value. split; [|split].
  - intros Hall. rewrite Hall.
    destruct (skip_chars_split space_or_tab r) as (lead & Hr & Hlead).
    set (t := skip_chars space_or_tab r) in *.
    assert (Ht : all_chars space_tab_or_cr t = false).
    { rewrite Hr, all_chars_append in Hall.
      apply andb_false_iff in Hall as [Hl|Ht]; [|exact Ht].
      exfalso. clear -Hlead Hl. induction lead as [|c lead IH]; simpl in *;
        [discriminate|].
      apply andb_true_iff in Hlead as [Hc Hlead].
      apply andb_false_iff in Hl as [Hl|Hl]; [|auto].
      unfold space_or_tab, space_tab_or_cr in *. simpl in *.
      rewrite orb_false_r in Hc.
      destruct (c =? " ")%char, (c =? "009")%char; simpl in *; discriminate. }
    assert (Hne : rstrip space_tab_or_cr t <> EmptyString).
    { intros He. apply rstrip_empty in He. congruence. }
    split; [exact Hne|].
    split; [|split; [apply rstrip_idempotent|]].
    + destruct t as [|c t'] eqn:Et; [now destruct Hne|].
      destruct (rstrip_head _ _ _ Hne) as (u & ->). simpl.
      assert (Hc : space_or_tab c = false).
      { subst t. clear -Et. revert Et.
        induction r as [|d r IH]; simpl; [discriminate|].
        destruct (space_or_tab d) eqn:Hd; [exact IH|].
        now intros [= <- _]. }
      now rewrite Hc.
    + destruct (rstrip_split space_tab_or_cr t) as (trail & Ht' & Htrail).
      exists lead, trail. split; [|auto].
      rewrite Hr at 1. now rewrite Ht' at 1.
  - intros Hshape Hall. rewrite Hall.
    destruct Hshape as [Hsp | [r' ->]].
    + assert (Ht : skip_chars space_or_tab r = EmptyString).
      { clear -Hsp. induction r as [|c r IH]; simpl in *; [reflexivity|].
        apply andb_true_iff in Hsp as [-> Hr]. auto. }
      rewrite Ht. now destruct (EmptyString =? r)%string.
    + simpl skip_chars. replace (space_or_tab "013") with false by reflexivity.
      now rewrite String.eqb_refl.
  - intros sp t -> Hne Hsp Ht.
    change (sp +:+ CR +:+ t) with (sp +:+ String "013" t).
    rewrite all_chars_append. simpl all_chars at 2.
    replace (space_tab_or_cr "013") with true by reflexivity.
    rewrite Ht, andb_true_r.
    assert (Hsp3 : all_chars space_tab_or_cr sp = true).
    { clear -Hsp. induction sp as [|c sp IH]; simpl in *; [reflexivity|].
      apply andb_true_iff in Hsp as [Hc Hsp]. rewrite (IH Hsp), andb_true_r.
      unfold space_or_tab, space_tab_or_cr in *. simpl in *.
      rewrite orb_false_r in Hc.
      destruct (c =? " ")%char, (c =? "009")%char; simpl in *;
        reflexivity || discriminate. }
    rewrite Hsp3.
    rewrite (skip_chars_append _ _ _ _ Hsp) by reflexivity.
    assert (Hneq : (String "013" t =? sp +:+ String "013" t)%string = false).
    { apply String.eqb_neq. intros Heq.
      apply (f_equal String.length) in Heq. rewrite length_append in Heq.
      destruct sp; [congruence | simpl in Heq; lia]. }
    now rewrite Hneq.
Qed.

Lemma header_value_shape_witness :
  header_of_line ("Accept: " +:+ "text/html ;q=1 " +:+ CR)
  = Some (mkHeader "Accept" "text/html ;q=1")
  /\ header_of_line ("X-Empty: " +:+ CR) = Some (mkHeader "X-Empty" CR).
Proof.
  split.
  - destruct (header_value_shape "Accept" (" text/html ;q=1 " +:+ CR) eq_refl)
      as (v & Hh & _); [vm_compute; reflexivity|].
    etransitivity; [exact Hh|]. rewrite <- Hh. reflexivity.
  - destruct (header_value_shape "X-Empty" (" " +:+ CR) eq_refl)
      as (v & Hh & _ & _ & Hcr); [vm_compute; reflexivity|].
    rewrite (Hcr " " EmptyString eq_refl) in Hh by (discriminate || reflexivity).
    exact Hh.
Defined.

(** ** Writing a message and reading it back *)

Lemma append_cons c a b : String c a +:+ b = String c (a +:+ b).
Proof. reflexivity. Qed.

Lemma append_empty_l a : EmptyString +:+ a = a.
Proof. reflexivity. Qed.

(** Both sides of an equation between concatenations, flattened. *)
Ltac flatten_append :=
  unfold CRLF, CR, LF;
  repeat first
    [ rewrite append_assoc | rewrite append_cons | rewrite append_empty_l ].

Lemma mem_char_append c a b :
  mem_char c (a +:+ b) = mem_char c a || mem_char c b.
Proof.
  induction a as [|d a IH]; [reflexivity|].
  change (String d a +:+ b) with (String d (a +:+ b)). simpl.
  now rewrite IH, orb_assoc.
Qed.

Lemma free_of_mem chars s c :
  free_of chars s = true -> mem_char c chars = true -> mem_char c s = false.
Proof.
  unfold free_of. induction s as [|d s IH]; simpl; [reflexivity|].
  intros [Hd Hs]%andb_true_iff Hc. rewrite (IH Hs Hc), orb_false_r.
  destruct (Ascii.eqb_spec c d) as [->|]; [|reflexivity].
  now rewrite Hc in Hd.
Qed.

Lemma free_of_sub chars chars' s :
  (forall c, mem_char c chars' = true -> mem_char c chars = true) ->
  free_of chars s = true -> free_of chars' s = true.
Proof.
  intros Hsub. unfold free_of. induction s as [|d s IH]; simpl; [reflexivity|].
  intros [Hd Hs]%andb_true_iff. rewrite (IH Hs), andb_true_r.
  destruct (mem_char d chars') eqn:Hc; [|reflexivity].
  apply Hsub in Hc. now rewrite Hc in Hd.
Qed.

(** [free_of] for some of the characters, from [H] for more of them. *)
Ltac free_of_part H :=
  eapply free_of_sub; [|exact H];
  let c := fresh "c" in
  intros c; unfold SP_LF, COLON_SP_LF, CRLF, CR, LF; simpl;
  repeat match goal with
         | |- context [Ascii.eqb c ?d] => destruct (Ascii.eqb c d)
         end;
  simpl; auto.

Lemma length_le_size a b :
  size (a +:+ b) < size_t_modulus ->
  size a < size_t_modulus /\ size b < size_t_modulus.
Proof. unfold size. rewrite length_append. lia. Qed.

(** [putStartLine] on the start line that [write_StartLine] wrote. *)
Lemma putStartLine_written p sl rest :
  wf_start_line sl ->
  size (write_StartLine sl) < size_t_modulus - 1 ->
  putStartLine p (istream_of (write_StartLine sl +:+ CRLF +:+ rest))
  = Ok (mkHttpParser
          (mkHttpMessage sl (headerLines (message p)) (body (message p)))
          HEADER (format p) (contentLength p),
        istream_of rest).
Proof.
  destruct sl as [[f0 f1] f2]. intros (H0 & H1 & H2) Hsz.
  unfold write_StartLine in *. simpl fst in *. simpl snd in *.
  set (line := f0 +:+ String " " (f1 +:+ String " " (f2 +:+ String "013" EmptyString))).
  assert (Hin : (f0 +:+ " " +:+ f1 +:+ " " +:+ f2) +:+ CRLF +:+ rest
                = line +:+ String "010" rest).
  { unfold line. flatten_append. reflexivity. }
  rewrite Hin. clear Hin.
  assert (Hsz' : size line < size_t_modulus).
  { unfold size, line in *. rewrite !length_append in *. simpl in *.
    rewrite !length_append in *. simpl in *. rewrite !length_append in *.
    simpl in *. lia. }
  assert (Hlf : mem_char "010" line = false).
  { unfold line. rewrite mem_char_append. simpl.
    rewrite mem_char_append. simpl. rewrite mem_char_append. simpl.
    rewrite (free_of_mem _ _ "010" H0), (free_of_mem _ _ "010" H1),
      (free_of_mem _ _ "010" H2) by reflexivity.
    reflexivity. }
  unfold putStartLine. rewrite (getline_line _ _ Hlf). simpl failbit. cbv iota.
  assert (Hsp0 : free_of " " f0 = true) by free_of_part H0.
  assert (Hsp1 : free_of " " f1 = true) by free_of_part H1.
  assert (Hcr2 : free_of CR f2 = true) by free_of_part H2.
  assert (Hlen : String.length line
                 = (String.length f0 + 1 + String.length f1 + 1
                    + String.length f2 + 1)%nat).
  { unfold line. rewrite length_append. simpl. rewrite length_append. simpl.
    rewrite length_append. simpl. lia. }
  unfold find_first_of at 1. unfold find_from. simpl drop_str.
  unfold line at 1. rewrite find_if_app by (exact Hsp0 || reflexivity).
  simpl option_map. cbv iota beta.
  assert (Hd1 : drop_str (String.length f0 + 1) line
                = f1 +:+ String " " (f2 +:+ String "013" EmptyString)).
  { unfold line. rewrite drop_str_add, drop_str_append. reflexivity. }
  unfold find_first_of at 1. unfold find_from. rewrite Hd1.
  rewrite find_if_app by (exact Hsp1 || reflexivity).
  simpl option_map. cbv iota beta.
  assert (Hd2 : drop_str (String.length f0 + 1 + String.length f1 + 1) line
                = f2 +:+ String "013" EmptyString).
  { rewrite drop_str_add, (drop_str_piece line _ f1 _ Hd1). reflexivity. }
  unfold find_first_of. unfold find_from. rewrite Hd2.
  rewrite find_if_app by (exact Hcr2 || reflexivity).
  simpl option_map. cbv iota beta.
  change (Z.of_nat (String.length f0) - 0)
    with (Z.of_nat (String.length f0) - Z.of_nat 0).
  rewrite (substr_piece line 0 f0 _ (String.length f0) Hsz' ltac:(lia) eq_refl
             eq_refl).
  rewrite (substr_piece line (String.length f0 + 1) f1 _ _ Hsz'
             ltac:(lia) Hd1 eq_refl).
  rewrite (substr_piece line (String.length f0 + 1 + String.length f1 + 1)
             f2 _ _ Hsz' ltac:(lia) Hd2 eq_refl).
  reflexivity.
Qed.

Lemma rstrip_append_all Q a b :
  all_chars Q b = true -> rstrip Q (a +:+ b) = rstrip Q a.
Proof.
  intros Hb. induction a as [|c a IH].
  - rewrite append_empty_l. now apply rstrip_empty.
  - rewrite append_cons. simpl. now rewrite IH.
Qed.

Lemma skip_chars_fixed_head Q c s :
  skip_chars Q (String c s) = String c s -> Q c = false.
Proof.
  simpl. destruct (Q c); [|reflexivity].
  intros Heq. pose proof (length_skip_chars Q s) as Hl.
  rewrite Heq in Hl. simpl in Hl. lia.
Qed.

(** What [putHeader] makes of the value that was written after a colon
    and a space and before the line end. *)
Lemma header_value_written v :
  v <> EmptyString ->
  skip_chars space_or_tab v = v ->
  rstrip space_tab_or_cr v = v ->
  header_value (" " +:+ v +:+ CR) = v.
Proof.
  intros Hne Hskip Hstrip. unfold header_value.
  change (" " +:+ v +:+ CR) with (String " " (v +:+ CR)).
  assert (Hnot : all_chars space_tab_or_cr v = false).
  { destruct (all_chars space_tab_or_cr v) eqn:Ha; [|reflexivity].
    apply rstrip_empty in Ha. congruence. }
  replace (all_chars space_tab_or_cr (String " " (v +:+ CR))) with false.
  2:{ simpl. rewrite all_chars_append, Hnot. reflexivity. }
  simpl skip_chars.
  destruct v as [|c v]; [congruence|].
  rewrite append_cons. simpl skip_chars.
  rewrite (skip_chars_fixed_head _ _ _ Hskip).
  rewrite <- append_cons, rstrip_append_all by reflexivity.
  exact Hstrip.
Qed.

Lemma putHeader_written p h rest :
  wf_header h ->
  size (key h +:+ ": " +:+ value h) < size_t_modulus - 1 ->
  putHeader p (istream_of (key h +:+ ": " +:+ value h +:+ CRLF +:+ rest))
  = (p' ← inspect_framing (push_header p h) h; Ok (p', istream_of rest)).
Proof.
  destruct h as [k v]. simpl key. simpl value.
  intros (Hcanon & Hk & Hne & Hv & Hskip & Hstrip) Hsz.
  simpl key in *. simpl value in *.
  set (line := k +:+ String ":" (String " " (v +:+ String "013" EmptyString))).
  assert (Hin : k +:+ ": " +:+ v +:+ CRLF +:+ rest
                = line +:+ String "010" rest).
  { unfold line. flatten_append. reflexivity. }
  rewrite Hin. clear Hin.
  assert (Hlf : mem_char "010" line = false).
  { unfold line. rewrite mem_char_append. simpl.
    rewrite mem_char_append. simpl.
    rewrite (free_of_mem _ _ "010" Hk), (free_of_mem _ _ "010" Hv)
      by reflexivity.
    reflexivity. }
  rewrite (putHeader_getline _ _ _ Hlf).
  assert (Hsz' : size line < size_t_modulus).
  { unfold size, line in *. rewrite !length_append in *. simpl in *.
    rewrite !length_append in *. simpl in *. lia. }
  assert (Hk' : free_of ": " k = true) by free_of_part Hk.
  rewrite (putHeader_line_header p line (mkHeader k v)); [reflexivity|].
  unfold line in *.
  change (k +:+ String ":" (String " " (v +:+ String "013" EmptyString)))
    with (k +:+ ":" +:+ (" " +:+ v +:+ CR)) in *.
  rewrite (header_of_key_value_line k _ Hk' Hsz').
  now rewrite Hcanon, header_value_written.
Qed.

Lemma inspect_framing_unframed p h :
  unframed h -> inspect_framing p h = Ok p.
Proof.
  intros [H1 H2]. unfold inspect_framing.
  apply String.eqb_neq in H1, H2. now rewrite H1, H2.
Qed.

Lemma extract_size_t_true base s old old' n :
  extract_size_t base s old = (true, n) ->
  extract_size_t base s old' = (true, n).
Proof.
  unfold extract_size_t.
  destruct (extract_unsigned base SIZE_MAX s); [discriminate | auto].
Qed.

Lemma parse_S fuel p ins :
  failbit ins = false -> state p <> ACCEPT ->
  parse (S fuel) p ins = ('(p', ins') ← parseStep p ins; parse fuel p' ins').
Proof.
  intros Hf Hs. simpl. rewrite Hf. simpl.
  now rewrite (bool_decide_eq_false_2 _ Hs).
Qed.

Lemma parse_ACCEPT fuel p ins :
  state p = ACCEPT -> parse fuel p ins = Ok (p, ins).
Proof.
  intros Hs. destruct fuel; simpl; [reflexivity|].
  rewrite (bool_decide_eq_true_2 _ Hs). now rewrite andb_false_r.
Qed.

Lemma read_headers_nil p : read_headers p [] = p.
Proof.
  destruct p as [[sl hs b] st f n]. unfold read_headers. simpl.
  now rewrite app_nil_r.
Qed.

Lemma read_headers_cons p h hs :
  read_headers (push_header p h) hs = read_headers p (h :: hs).
Proof.
  unfold read_headers, push_header, set_message. simpl.
  now rewrite <- app_assoc.
Qed.

Lemma write_headerLines_app hs hs' :
  write_headerLines (hs ++ hs')
  = write_headerLines hs +:+ write_headerLines hs'.
Proof.
  induction hs as [|h hs IH]; simpl; [reflexivity|].
  rewrite IH. now flatten_append.
Qed.

(** Reading back the header lines that were written, none of them a
    framing header. *)
Lemma parse_written_headers hs : forall p fuel rest,
  state p = HEADER ->
  Forall wf_header hs -> Forall unframed hs ->
  size (write_headerLines hs) < size_t_modulus ->
  parse (length hs + fuel) p (istream_of (write_headerLines hs +:+ rest))
  = parse fuel (read_headers p hs) (istream_of rest).
Proof.
  induction hs as [|h hs IH]; intros p fuel rest Hs Hwf Hun Hsz.
  - simpl. now rewrite append_empty_l, read_headers_nil.
  - apply Forall_cons in Hwf as [Hh Hwf]. apply Forall_cons in Hun as [Hu Hun].
    simpl length. simpl Nat.add.
    rewrite parse_S by (reflexivity || congruence).
    unfold parseStep. rewrite Hs.
    simpl write_headerLines in *.
    assert (Hsz1 : size (key h +:+ ": " +:+ value h) < size_t_modulus - 1
                   /\ size (write_headerLines hs) < size_t_modulus).
    { unfold size in *. rewrite ?length_append in *. simpl in *.
      rewrite ?length_append in *. simpl in *. lia. }
    destruct Hsz1 as [Hsz1 Hsz2].
    replace ((key h +:+ ": " +:+ value h +:+ CRLF +:+ write_headerLines hs)
             +:+ rest)
      with (key h +:+ ": " +:+ value h +:+ CRLF
            +:+ (write_headerLines hs +:+ rest))
      by (now flatten_append).
    rewrite (putHeader_written _ _ _ Hh Hsz1).
    rewrite (inspect_framing_unframed _ _ Hu). simpl.
    rewrite IH by assumption. now rewrite read_headers_cons.
Qed.

Lemma take_str_size s : take_str (Z.to_nat (size s)) s = s.
Proof. unfold size. rewrite Nat2Z.id. apply take_str_all. Qed.

Lemma drop_str_all s : drop_str (String.length s) s = EmptyString.
Proof. induction s as [|c s IH]; simpl; auto. Qed.

Lemma drop_str_size s : drop_str (Z.to_nat (size s)) s = EmptyString.
Proof. unfold size. rewrite Nat2Z.id. apply drop_str_all. Qed.

Lemma size_0_empty s : size s = 0 -> s = EmptyString.
Proof. destruct s; [reflexivity|]. unfold size. simpl. lia. Qed.

(** The blank line at the end of the written headers. *)
Lemma putHeader_blank p body :
  putHeader p (istream_of (CRLF +:+ body))
  = (b ← hasBody p;
     Ok (set_state p (if b : bool then BODY else ACCEPT), istream_of body)).
Proof.
  change (CRLF +:+ body) with (CR +:+ String "010" body).
  rewrite putHeader_getline by reflexivity.
  unfold putHeader_line. replace (is_blank CR) with true by reflexivity.
  now destruct (hasBody p) as [[]| |].
Qed.

Lemma hasBody_response p :
  is_response (startLine (message p)) = true ->
  String.length (startLine1 (message p)) = 3%nat ->
  hasBody p = Ok (negb (bodyless_status (startLine1 (message p)))).
Proof.
  unfold hasBody, is_response, startLine0. intros -> Hl.
  unfold bodyless_status. now rewrite Hl.
Qed.

Lemma hasBody_request p :
  is_response (startLine (message p)) = false ->
  hasBody p = Ok (framing_has_body p).
Proof.
  unfold hasBody, is_response, startLine0. intros ->.
  now destruct (framing_has_body p).
Qed.

(** Reading back the start line and the header lines. *)
Lemma parse_written_prefix sl hs fuel rest :
  wf_start_line sl ->
  Forall wf_header hs -> Forall unframed hs ->
  size (write_StartLine sl) < size_t_modulus - 1 ->
  size (write_headerLines hs) < size_t_modulus ->
  parse (S (length hs + fuel)) (HttpParser_ctor empty_message)
    (istream_of (write_StartLine sl +:+ CRLF
                 +:+ write_headerLines hs +:+ rest))
  = parse fuel (mkHttpParser (mkHttpMessage sl hs EmptyString) HEADER PLAIN 0)
      (istream_of rest).
Proof.
  intros Hsl Hwf Hun Hsz1 Hsz2.
  rewrite parse_S by (reflexivity || discriminate).
  unfold parseStep. simpl state. cbv iota.
  rewrite (putStartLine_written _ _ _ Hsl Hsz1). simpl.
  rewrite parse_written_headers by (reflexivity || assumption).
  reflexivity.
Qed.

(** X6.  A message that is written with [operator<<] and parsed from the
    characters written comes back as it was, and the parser accepts it
    with nothing left in the stream.  This holds for a start line and
    header lines that the parser reads back as they are, when the body is
    framed by a final [Content-Length] header that gives its size, and
    when no header frames the body: then the body of a response runs to
    the end of the stream, and a request has none.  The response to which
    [hasBody] gives no body (1xx, 204, 304) must have none. *)
Theorem parse_write_HttpMessage
    (sl : StartLine) (hs : list Header) (fuel : nat) :
  wf_start_line sl ->
  Forall wf_header hs -> Forall unframed hs ->
  (is_response sl = true -> String.length sl.1.2 = 3%nat) ->
  (length hs + 4 <= fuel)%nat ->
  (forall v content,
     let m := mkHttpMessage sl (hs ++ [mkHeader "Content-Length" v]) content in
     wf_header (mkHeader "Content-Length" v) ->
     extract_size_t 10 v 0 = (true, size content) ->
     size content <= string_max_size ->
     (is_response sl = true -> bodyless_status sl.1.2 = true ->
      content = EmptyString) ->
     size (write_HttpMessage m) < size_t_modulus ->
     parse fuel (HttpParser_ctor empty_message)
       (istream_of (write_HttpMessage m))
     = Ok (mkHttpParser m ACCEPT LENGTH (size content), istream_of EmptyString))
  /\ (forall content,
        let m := mkHttpMessage sl hs content in
        (is_response sl = false \/ bodyless_status sl.1.2 = true ->
         content = EmptyString) ->
        size (write_HttpMessage m) < size_t_modulus ->
        parse fuel (HttpParser_ctor empty_message)
          (istream_of (write_HttpMessage m))
        = Ok (mkHttpParser m ACCEPT PLAIN 0, istream_of EmptyString)).
Proof.
  intros Hsl Hwf Hun Hstatus Hfuel.
  assert (exists k, fuel = S (length hs + S (S (S k)))) as [k ->]
    by (exists (fuel - length hs - 4)%nat; lia).
  remember (S k) as f1 eqn:E1. remember (S f1) as f2 eqn:E2.
  split.
  - intros v content m Hv Hext Hmax Hbodyless Hsz.
    unfold write_HttpMessage in *. simpl startLine in *.
    simpl headerLines in *. simpl body in *.
    rewrite write_headerLines_app in *. simpl write_headerLines in *.
    assert (Hsizes :
      size (write_StartLine sl) < size_t_modulus - 1
      /\ size (write_headerLines hs) < size_t_modulus
      /\ size ("Content-Length" +:+ ": " +:+ v) < size_t_modulus - 1).
    { unfold size in *. rewrite ?length_append in *. simpl in *.
      rewrite ?length_append in *. simpl in *.
      rewrite ?length_append in *. simpl in *. lia. }
    destruct Hsizes as (Hsz1 & Hsz2 & Hsz3).
    match goal with |- parse _ _ (istream_of ?input) = _ =>
      replace input
        with (write_StartLine sl +:+ CRLF +:+ write_headerLines hs
              +:+ ("Content-Length" +:+ ": " +:+ v +:+ CRLF
                   +:+ (CRLF +:+ content)))
        by (now flatten_append)
    end.
    rewrite (parse_written_prefix _ _ _ _ Hsl Hwf Hun Hsz1 Hsz2).
    (* the Content-Length header *)
    rewrite parse_S by (reflexivity || discriminate).
    unfold parseStep. simpl state. cbv iota.
    rewrite (putHeader_written _ (mkHeader "Content-Length" v) _ Hv Hsz3).
    unfold inspect_framing. simpl key. simpl value.
    replace ("Content-Length" =? "Content-Length")%string with true
      by reflexivity.
    rewrite (extract_size_t_true _ _ _ (contentLength _) _ Hext).
    replace (size content >? string_max_size) with false
      by (symmetry; rewrite Z.gtb_ltb; apply Z.ltb_ge; exact Hmax).
    simpl.
    (* the blank line *)
    subst f2. rewrite parse_S by (reflexivity || discriminate).
    unfold parseStep. simpl state. cbv iota.
    rewrite putHeader_blank. subst f1.
    match goal with |- context [hasBody ?q] => set (p := q) end.
    assert (Haccept :
      parse (S k) (set_state p ACCEPT) (istream_of EmptyString)
      = Ok (mkHttpParser
              (mkHttpMessage sl (hs ++ [mkHeader "Content-Length" v])
                 EmptyString) ACCEPT LENGTH (size content),
            istream_of EmptyString)).
    { now rewrite parse_ACCEPT. }
    assert (Hbody :
      parse (S k) (set_state p BODY) (istream_of content)
      = Ok (mkHttpParser
              (mkHttpMessage sl (hs ++ [mkHeader "Content-Length" v]) content)
              ACCEPT LENGTH (size content),
            istream_of EmptyString)).
    { rewrite parse_S by (reflexivity || discriminate).
      unfold parseStep, putContent, appendBody. simpl.
      rewrite Z.leb_refl. simpl.
      rewrite parse_ACCEPT by reflexivity.
      unfold append_body, set_state, set_message. simpl.
      now rewrite take_str_size, drop_str_size. }
    destruct (is_response sl) eqn:Hresp.
    + rewrite hasBody_response by (exact Hresp || now apply Hstatus).
      change (startLine1 (message p)) with sl.1.2.
      destruct (bodyless_status sl.1.2) eqn:Hb.
      * change (parse (S k) (set_state p ACCEPT) (istream_of content)
                = Ok (mkHttpParser m ACCEPT LENGTH (size content),
                      istream_of EmptyString)).
        pose proof (Hbodyless eq_refl eq_refl) as Hc. unfold m.
        rewrite Hc in Haccept |- *. exact Haccept.
      * exact Hbody.
    + rewrite hasBody_request by exact Hresp.
      unfold framing_has_body.
      change (format p) with LENGTH.
      change (contentLength p) with (size content).
      rewrite bool_decide_eq_true_2 by reflexivity.
      rewrite (bool_decide_eq_false_2 (LENGTH = CHUNKED)) by discriminate.
      destruct (Z.gtb_spec (size content) 0) as [Hpos|Hzero].
      * exact Hbody.
      * change (parse (S k) (set_state p ACCEPT) (istream_of content)
                = Ok (mkHttpParser m ACCEPT LENGTH (size content),
                      istream_of EmptyString)).
        assert (Hc : content = EmptyString).
        { apply size_0_empty. unfold size in *. lia. }
        unfold m. rewrite Hc in Haccept |- *. exact Haccept.
  - intros content m Hbodyless Hsz.
    unfold write_HttpMessage in *. simpl startLine in *.
    simpl headerLines in *. simpl body in *.
    assert (Hsizes :
      size (write_StartLine sl) < size_t_modulus - 1
      /\ size (write_headerLines hs) < size_t_modulus).
    { unfold size in *. rewrite ?length_append in *. simpl in *.
      rewrite ?length_append in *. simpl in *. lia. }
    destruct Hsizes as (Hsz1 & Hsz2).
    rewrite (parse_written_prefix _ _ _ _ Hsl Hwf Hun Hsz1 Hsz2).
    rewrite parse_S by (reflexivity || discriminate).
    unfold parseStep. simpl state. cbv iota.
    rewrite putHeader_blank. subst f2.
    match goal with |- context [hasBody ?q] => set (p := q) end.
    destruct (is_response sl) eqn:Hresp.
    + rewrite hasBody_response by (exact Hresp || now apply Hstatus).
      change (startLine1 (message p)) with sl.1.2.
      destruct (bodyless_status sl.1.2) eqn:Hb.
      * change (parse (S f1) (set_state p ACCEPT) (istream_of content)
                = Ok (mkHttpParser m ACCEPT PLAIN 0, istream_of EmptyString)).
        unfold m. rewrite (Hbodyless (or_intror eq_refl)).
        now rewrite parse_ACCEPT.
      * change (parse (S f1) (set_state p BODY) (istream_of content)
                = Ok (mkHttpParser m ACCEPT PLAIN 0, istream_of EmptyString)).
        rewrite parse_S by (reflexivity || discriminate).
        unfold parseStep, putContent. simpl state. simpl format. cbv iota.
        simpl rdbuf. subst f1.
        destruct content as [|c content].
        -- simpl. rewrite ?parse_ACCEPT by reflexivity. reflexivity.
        -- replace (negb (String c content =? EmptyString)%string) with true
             by reflexivity.
           cbv iota.
           change (parse (S k)
                     (append_body (set_state p BODY) (String c content))
                     (istream_of EmptyString)
                   = Ok (mkHttpParser m ACCEPT PLAIN 0, istream_of EmptyString)).
           rewrite parse_S by (reflexivity || discriminate).
           unfold parseStep, putContent. simpl.
           now rewrite parse_ACCEPT.
    + rewrite hasBody_request by exact Hresp.
      change (parse (S f1) (set_state p ACCEPT) (istream_of content)
              = Ok (mkHttpParser m ACCEPT PLAIN 0, istream_of EmptyString)).
      unfold m. rewrite (Hbodyless (or_introl eq_refl)).
      now rewrite parse_ACCEPT.
Qed.

Lemma parse_write_HttpMessage_witness :
  parse 4 (HttpParser_ctor empty_message)
    (istream_of (write_HttpMessage HTTP502))
  = Ok (mkHttpParser HTTP502 ACCEPT LENGTH 0, istream_of EmptyString)
  /\ parse 4 (HttpParser_ctor empty_message)
       (istream_of (write_HttpMessage HTTP200))
     = Ok (mkHttpParser
             (mkHttpMessage ("HTTP/1.1", "200", "OK") [] EmptyString)
             ACCEPT PLAIN 0, istream_of EmptyString).
Proof.
  destruct (parse_write_HttpMessage ("HTTP/1.1", "502", "Bad Gateway") [] 4)
    as [Hlength _].
  - repeat split.
  - constructor.
  - constructor.
  - reflexivity.
  - simpl. lia.
  - destruct (parse_write_HttpMessage ("HTTP/1.1", "200", "OK") [] 4)
      as [_ Hplain].
    + repeat split.
    + constructor.
    + constructor.
    + reflexivity.
    + simpl. lia.
    + split.
      * apply (Hlength "0" EmptyString).
        -- repeat split. discriminate.
        -- reflexivity.
        -- vm_compute. discriminate.
        -- reflexivity.
        -- vm_compute. reflexivity.
      * apply (Hplain EmptyString).
        -- reflexivity.
        -- vm_compute. reflexivity.
Defined.

(** ** Chunked bodies, continued *)

Lemma is_blank_chunk_size line :
  is_blank line = true -> chunk_size line = 0.
Proof.
  unfold is_blank.
  intros [Hl|Hl]%orb_true_iff; apply String.eqb_eq in Hl; now subst.
Qed.

(** The two steps that read one chunk: its header line and its data with
    the line end after them. *)
Lemma parse_chunk p header data rest fuel :
  at_chunk_header p ->
  wf_chunk (header, data) ->
  parse (S (S fuel)) p
    (istream_of (header +:+ CRLF +:+ data +:+ CRLF +:+ rest))
  = parse fuel
      (append_body p (header +:+ CRLF +:+ data +:+ CRLF))
      (istream_of rest).
Proof.
  intros Hp (Hlf & Hsize & Hpos & Hmax). simpl fst in *. simpl snd in *.
  pose proof Hp as (Hs & Hf & Hc).
  rewrite parse_S by (reflexivity || congruence).
  replace (header +:+ CRLF +:+ data +:+ CRLF +:+ rest)
    with ((header +:+ CR) +:+ String "010" (data +:+ CRLF +:+ rest))
    by (now flatten_append).
  assert (Hlf' : mem_char "010" (header +:+ CR) = false)
    by (rewrite mem_char_append, Hlf; reflexivity).
  rewrite (parseStep_chunk_header _ _ _ Hp Hlf').
  assert (Hblank : is_blank (header +:+ CR) = false).
  { destruct (is_blank (header +:+ CR)) eqn:Hb; [|reflexivity].
    apply is_blank_chunk_size in Hb. lia. }
  cbv zeta. rewrite Hblank, Hsize.
  replace (size data =? 0) with false by (symmetry; apply Z.eqb_neq; lia).
  replace (wrap (size data + 2)) with (size data + 2)
    by (unfold wrap; rewrite Z.mod_small; lia).
  match goal with |- (Ok (?q, _) ≫= _) = _ => set (p1 := q) end.
  change (parse (S fuel) p1 (istream_of (data +:+ CRLF +:+ rest))
          = parse fuel (append_body p (header +:+ CRLF +:+ data +:+ CRLF))
              (istream_of rest)).
  rewrite parse_S by (reflexivity || (subst p1; simpl; congruence)).
  unfold parseStep, putContent.
  replace (state p1) with BODY by (subst p1; simpl; congruence).
  replace (format p1) with CHUNKED by (subst p1; simpl; congruence).
  replace (contentLength p1) with (size data + 2) by reflexivity.
  replace (size data + 2 =? 0) with false by (symmetry; apply Z.eqb_neq; lia).
  unfold appendBody. simpl rdbuf.
  replace (size data + 2 <=? size (data +:+ CRLF +:+ rest)) with true.
  2:{ symmetry. apply Z.leb_le. unfold size. rewrite !length_append. simpl. lia. }
  replace (Z.to_nat (size data + 2))
    with (String.length (data +:+ CRLF))
    by (unfold size; rewrite length_append; simpl; lia).
  replace (data +:+ CRLF +:+ rest) with ((data +:+ CRLF) +:+ rest)
    by (now rewrite append_assoc).
  rewrite take_str_append, drop_str_append.
  match goal with |- (Ok (?q, ?i) ≫= _) ≫= _ = parse _ ?q' _ =>
    replace q' with (set_contentLength q 0)
  end.
  - reflexivity.
  - subst p1. unfold set_contentLength, append_body, set_message. simpl.
    rewrite Hc. do 2 f_equal. now flatten_append.
Qed.

(** X7.  The parser keeps a chunked body as it came over the wire: for a
    parser about to read a chunk header, and a stream that holds chunks
    whose header lines give the sizes of their data, then a chunk header
    of size zero and an empty line, [parse] appends the whole stream to
    the body, chunk headers and line ends included, and accepts the
    message. *)
Theorem parse_chunked_verbatim
    (chunks : list (string * string)) (last : string) (fuel : nat) :
  forall p : HttpParser,
  at_chunk_header p ->
  Forall wf_chunk chunks ->
  wf_last_chunk last ->
  (2 * length chunks + 2 <= fuel)%nat ->
  let input := write_chunks chunks +:+ last +:+ CRLF +:+ CRLF in
  parse fuel p (istream_of input)
  = Ok (mkHttpParser
          (mkHttpMessage (startLine (message p)) (headerLines (message p))
             (body (message p) +:+ input))
          ACCEPT CHUNKED 0,
        istream_of EmptyString).
Proof.
  revert fuel. induction chunks as [|[header data] chunks IH];
    intros fuel p Hp Hchunks Hlast Hfuel input; subst input.
  - pose proof Hp as (Hs & Hf & Hc). destruct Hlast as (Hlf & Hne & Hzero).
    assert (exists k, fuel = S (S k)) as [k ->]
      by (exists (fuel - 2)%nat; simpl in Hfuel; lia).
    simpl write_chunks. rewrite append_empty_l.
    rewrite parse_S by (reflexivity || congruence).
    replace (last +:+ CRLF +:+ CRLF)
      with ((last +:+ CR) +:+ String "010" CRLF) by (now flatten_append).
    assert (Hlf' : mem_char "010" (last +:+ CR) = false)
      by (rewrite mem_char_append, Hlf; reflexivity).
    rewrite (parseStep_chunk_header _ _ _ Hp Hlf').
    assert (Hblank : is_blank (last +:+ CR) = false).
    { unfold is_blank. apply orb_false_iff.
      split; apply String.eqb_neq; intros Heq; destruct last as [|c [|d l]];
        try congruence; vm_compute in Heq; discriminate Heq. }
    cbv zeta. rewrite Hblank, Hzero. simpl (0 =? 0). cbv iota.
    match goal with |- (Ok (?q, _) ≫= _) = _ => set (p1 := q) end.
    change (parse (S k) p1 (istream_of (CR +:+ String "010" EmptyString))
            = Ok (mkHttpParser
                    (mkHttpMessage (startLine (message p))
                       (headerLines (message p))
                       (body (message p)
                        +:+ (last +:+ CR) +:+ String "010" CRLF))
                    ACCEPT CHUNKED 0, istream_of EmptyString)).
    rewrite parse_S by (reflexivity || (subst p1; simpl; congruence)).
    rewrite (parseStep_chunk_header p1 CR EmptyString);
      [|subst p1; repeat split; simpl; assumption | reflexivity].
    cbv zeta. replace (is_blank CR) with true by reflexivity. cbv iota.
    match goal with |- (Ok (?q, _) ≫= _) = _ =>
      change (parse k q (istream_of EmptyString)
              = Ok (mkHttpParser
                      (mkHttpMessage (startLine (message p))
                         (headerLines (message p))
                         (body (message p)
                          +:+ (last +:+ CR) +:+ String "010" CRLF))
                      ACCEPT CHUNKED 0, istream_of EmptyString))
    end.
    rewrite parse_ACCEPT by reflexivity.
    subst p1. unfold set_state, set_contentLength, append_body, set_message.
    simpl. rewrite Hf. do 3 f_equal. now flatten_append.
  - apply Forall_cons in Hchunks as [Hchunk Hchunks].
    assert (exists k, fuel = S (S k) /\ (2 * length chunks + 2 <= k)%nat)
      as (k & -> & Hk)
      by (exists (fuel - 2)%nat; simpl in Hfuel; lia).
    simpl write_chunks.
    replace ((header +:+ CRLF +:+ data +:+ CRLF +:+ write_chunks chunks)
             +:+ last +:+ CRLF +:+ CRLF)
      with (header +:+ CRLF +:+ data +:+ CRLF
            +:+ (write_chunks chunks +:+ last +:+ CRLF +:+ CRLF))
      by (now flatten_append).
    rewrite (parse_chunk _ _ _ _ _ Hp Hchunk).
    pose proof Hp as (Hs & Hf & Hc).
    rewrite IH; [| |assumption|assumption|assumption].
    + unfold append_body, set_message. simpl. do 3 f_equal.
      now flatten_append.
    + repeat split; assumption.
Qed.

Lemma parse_chunked_verbatim_witness :
  let p := mkHttpParser
             (mkHttpMessage ("HTTP/1.1", "200", "OK")
                [mkHeader "Transfer-Encoding" "chunked"] EmptyString)
             BODY CHUNKED 0 in
  parse 6 p (istream_of ("5" +:+ CRLF +:+ "hello" +:+ CRLF
                         +:+ "a;x=1" +:+ CRLF +:+ "wide world" +:+ CRLF
                         +:+ "0" +:+ CRLF +:+ CRLF))
  = Ok (mkHttpParser
          (mkHttpMessage ("HTTP/1.1", "200", "OK")
             [mkHeader "Transfer-Encoding" "chunked"]
             ("5" +:+ CRLF +:+ "hello" +:+ CRLF
              +:+ "a;x=1" +:+ CRLF +:+ "wide world" +:+ CRLF
              +:+ "0" +:+ CRLF +:+ CRLF))
          ACCEPT CHUNKED 0,
        istream_of EmptyString).
Proof.
  intros p.
  apply (parse_chunked_verbatim
           [("5", "hello"); ("a;x=1", "wide world")] "0" 6 p).
  - repeat split.
  - repeat constructor; vm_compute; congruence.
  - repeat split. discriminate.
  - simpl. lia.
Defined.

(** ** The fields of [Cache-Control] *)

Lemma skip_ws_append_space w s :
  all_chars isspace w = true -> skip_ws (w +:+ s) = skip_ws s.
Proof.
  intros Hw. induction w as [|c w IH]; [reflexivity|].
  rewrite append_cons. simpl in *.
  apply andb_true_iff in Hw as [-> Hw]. auto.
Qed.

Lemma read_until_none d s :
  mem_char d s = false -> read_until d s = (s, None).
Proof.
  induction s as [|c s IH]; simpl; [reflexivity|].
  rewrite Ascii.eqb_sym.
  intros [Hc Hs]%orb_false_iff. now rewrite Hc, (IH Hs).
Qed.

Lemma free_of_comma_mem f : free_of "," f = true -> mem_char "," f = false.
Proof. intros Hf. now apply (free_of_mem "," f ","). Qed.

(** The field that a turn of the loop takes from the stream. *)
Lemma next_field_comma w f rest :
  wf_directive (w, f) ->
  getline (ws (istream_of (w +:+ f +:+ "," +:+ rest))) ","
  = (f, istream_of rest).
Proof.
  intros (Hw & Hf & Hh). simpl in *.
  unfold ws, istream_of, good. simpl.
  rewrite (skip_ws_append_space _ _ Hw).
  change (f +:+ "," +:+ rest) with (f +:+ String "," rest).
  assert (Hskip : skip_ws (f +:+ String "," rest) = f +:+ String "," rest).
  { destruct f as [|c f]; [reflexivity|].
    rewrite append_cons. simpl. now rewrite Hh. }
  rewrite Hskip.
  assert (Hne : (f +:+ String "," rest =? EmptyString)%string = false)
    by (now destruct f).
  rewrite Hne. unfold getline, good. simpl.
  now rewrite (read_until_line _ _ _ (free_of_comma_mem _ Hf)).
Qed.

Lemma next_field_last w f :
  wf_directive (w, f) ->
  getline (ws (istream_of (w +:+ f))) ","
  = (f, mkIstream EmptyString (f =? EmptyString)%string true).
Proof.
  intros (Hw & Hf & Hh). simpl in *.
  unfold ws, istream_of, good. simpl.
  rewrite (skip_ws_append_space _ _ Hw).
  assert (Hskip : skip_ws f = f).
  { destruct f as [|c f]; [reflexivity|]. simpl. now rewrite Hh. }
  rewrite Hskip. unfold getline, good. simpl.
  destruct f as [|c f]; [reflexivity|]. simpl negb. simpl andb. cbv iota.
  now rewrite (read_until_none _ _ (free_of_comma_mem _ Hf)).
Qed.

Lemma parseCacheControl_loop_at_end fuel b st :
  parseCacheControl_loop fuel (mkIstream EmptyString b true) st = Ok st.
Proof. destruct fuel; [reflexivity|]. simpl. now destruct b. Qed.

Lemma cache_control_step_caught field st :
  catch_ParseError (parseCacheControl_field field st) st
  = Ok (cache_control_step st field).
Proof.
  unfold cache_control_step.
  destruct (parseCacheControl_field_caught field st) as (st' & ->).
  reflexivity.
Qed.

Lemma cache_control_step_empty st : cache_control_step st EmptyString = st.
Proof. reflexivity. Qed.

(** The loop of [parseCacheControl] on a list of fields. *)
Lemma parseCacheControl_loop_directives ds : forall fuel st,
  Forall wf_directive ds ->
  (String.length (write_directives ds) < fuel)%nat ->
  parseCacheControl_loop fuel (istream_of (write_directives ds)) st
  = Ok (fold_left cache_control_step ds.*2 st).
Proof.
  induction ds as [|[w f] ds IH]; intros fuel st Hwf Hfuel.
  - destruct fuel; reflexivity.
  - apply Forall_cons in Hwf as [Hd Hwf].
    destruct fuel as [|fuel]; [lia|].
    simpl write_directives in *. simpl fmap. simpl fold_left.
    destruct ds as [|d ds].
    + rewrite append_empty_r in *. simpl parseCacheControl_loop.
      rewrite (next_field_last _ _ Hd). simpl failbit.
      destruct f as [|c f]; [reflexivity|]. simpl String.eqb. cbv iota.
      rewrite cache_control_step_caught. simpl.
      apply parseCacheControl_loop_at_end.
    + simpl parseCacheControl_loop.
      replace (w +:+ f +:+ "," +:+ write_directives (d :: ds))
        with (w +:+ f +:+ "," +:+ write_directives (d :: ds)) by reflexivity.
      rewrite (next_field_comma _ _ _ Hd). simpl failbit. cbv iota.
      rewrite cache_control_step_caught. simpl mbind.
      change (parseCacheControl_loop fuel
                (istream_of (write_directives (d :: ds)))
                (cache_control_step st f)
              = Ok (fold_left cache_control_step (d :: ds).*2
                      (cache_control_step st f))).
      apply IH; [assumption|].
      set (x := write_directives (d :: ds)) in *.
      rewrite !length_append in Hfuel. simpl in Hfuel. lia.
Qed.

Lemma prefix_cons a s1 b s2 :
  String.prefix (String a s1) (String b s2)
  = if ascii_dec a b then String.prefix s1 s2 else false.
Proof. reflexivity. Qed.

Lemma starts_with_max_age_not_s_maxage f :
  starts_with f "max-age=" = true -> starts_with f "s-maxage=" = false.
Proof.
  unfold starts_with. destruct f as [|c f]; [discriminate|].
  rewrite !prefix_cons.
  destruct (ascii_dec "m" c) as [<-|Hc]; [|discriminate].
  intros _. now destruct (ascii_dec "s" "m").
Qed.

(** What one field does to the state of the loop. *)
Lemma cache_control_step_spec st f :
  cache_control_step st f
  = mkCacheControlState
      (cc_no_cache st || (f =? "no-cache")%string)
      (cc_no_store st || (f =? "no-store")%string)
      (cc_private st || (f =? "private")%string)
      (match directive_seconds "max-age=" f with
       | Some d => Some d
       | None => max_age st
       end)
      (match directive_seconds "s-maxage=" f with
       | Some d => Some d
       | None => s_maxage st
       end).
Proof.
  destruct st as [nc ns pr ma sm].
  unfold cache_control_step, parseCacheControl_field.
  cbn [cc_no_cache cc_no_store cc_private max_age s_maxage].
  destruct (String.eqb_spec f "no-cache") as [->|H1];
    [destruct nc, ns, pr; reflexivity|].
  destruct (String.eqb_spec f "no-store") as [->|H2];
    [destruct nc, ns, pr; reflexivity|].
  destruct (String.eqb_spec f "private") as [->|H3];
    [destruct nc, ns, pr; reflexivity|].
  rewrite !orb_false_r. unfold directive_seconds, parseDeltaSeconds, substr_from.
  simpl String.length.
  destruct (starts_with f "max-age=") eqn:Hm.
  - rewrite (starts_with_max_age_not_s_maxage _ Hm).
    destruct (try_lexical_convert_uint32 (drop_str 8 f)); reflexivity.
  - destruct (starts_with f "s-maxage="); [|reflexivity].
    destruct (try_lexical_convert_uint32 (drop_str 9 f)); reflexivity.
Qed.

Lemma fold_cache_control_step fs : forall st,
  let st' := fold_left cache_control_step fs st in
  (cc_no_cache st' = true <-> cc_no_cache st = true \/ "no-cache" ∈ fs)
  /\ (cc_no_store st' = true <-> cc_no_store st = true \/ "no-store" ∈ fs)
  /\ (cc_private st' = true <-> cc_private st = true \/ "private" ∈ fs)
  /\ max_age st'
     = fold_left
         (fun acc field =>
            match directive_seconds "max-age=" field with
            | Some d => Some d
            | None => acc
            end) fs (max_age st)
  /\ s_maxage st'
     = fold_left
         (fun acc field =>
            match directive_seconds "s-maxage=" field with
            | Some d => Some d
            | None => acc
            end) fs (s_maxage st).
Proof.
  induction fs as [|f fs IH]; intros st; simpl.
  - rewrite !elem_of_nil. tauto.
  - destruct (IH (cache_control_step st f)) as (Hnc & Hns & Hpr & Hma & Hsm).
    rewrite Hnc, Hns, Hpr, Hma, Hsm. rewrite cache_control_step_spec. simpl.
    rewrite !elem_of_cons, !orb_true_iff, !String.eqb_eq.
    repeat split; try tauto; intuition congruence.
Qed.

(** X8.  [parseCacheControl] on a [Cache-Control] value that is a list of
    fields separated by commas, with optional white space in front of
    each: the flags [no_cache], [no_store] and [private_] come back set
    exactly when the field of that name is in the list, spelled as it is
    and with nothing after it, whatever they were before; and the
    freshness lifetime is that of the last [s-maxage=] field whose number
    parses, else of the last such [max-age=] field, else [Expires] minus
    [Date], else a tenth of the time since [Last-Modified] (the two
    differences as 64-bit counts, with their wrap-around), else what it
    was before. *)
Theorem parseCacheControl_directives
    (ci : ResponseCacheInfo) (ds : list (string * string))
    (exp : option Z) (now : Z) :
  Forall wf_directive ds ->
  exists ci',
    parseCacheControl ci (write_directives ds) exp now = Ok ci'
    /\ (no_cache ci' = true <-> "no-cache" ∈ ds.*2)
    /\ (no_store ci' = true <-> "no-store" ∈ ds.*2)
    /\ (private_ ci' = true <-> "private" ∈ ds.*2)
    /\ freshness_lifetime ci'
       = match last_directive "s-maxage=" ds.*2,
               last_directive "max-age=" ds.*2,
               exp, last_modified ci with
         | Some d, _, _, _ => d
         | None, Some d, _, _ => d
         | None, None, Some e, _ => int64 (e - date_value ci)
         | None, None, None, Some lm => Z.quot (int64 (now - lm)) 10
         | None, None, None, None => freshness_lifetime ci
         end.
Proof.
  intros Hwf. unfold parseCacheControl.
  rewrite (parseCacheControl_loop_directives ds _ _ Hwf) by lia.
  simpl mbind.
  destruct (fold_cache_control_step ds.*2
              (mkCacheControlState false false false None None))
    as (Hnc & Hns & Hpr & Hma & Hsm).
  set (st := fold_left cache_control_step ds.*2 _) in *.
  simpl in Hnc, Hns, Hpr, Hma, Hsm.
  unfold last_directive. rewrite <- Hma, <- Hsm.
  simpl last_modified.
  assert (Hflags :
    (cc_no_cache st = true <-> "no-cache" ∈ ds.*2)
    /\ (cc_no_store st = true <-> "no-store" ∈ ds.*2)
    /\ (cc_private st = true <-> "private" ∈ ds.*2)).
  { repeat split; intros; try tauto;
      match goal with
      | H : _ ∈ _ |- _ => try (apply Hnc; now right);
                          try (apply Hns; now right);
                          try (apply Hpr; now right)
      | _ => idtac
      end.
    - apply Hnc in H as [?|?]; [discriminate | assumption].
    - apply Hns in H as [?|?]; [discriminate | assumption].
    - apply Hpr in H as [?|?]; [discriminate | assumption]. }
  destruct Hflags as (Hnc' & Hns' & Hpr').
  destruct (s_maxage st), (max_age st), exp, (last_modified ci);
    eexists; (split; [reflexivity|]); simpl; auto.
Qed.

Lemma parseCacheControl_directives_witness :
  let ci := mkResponseCacheInfo 0 0 0 None 0 0 EmptyString true true true in
  exists ci',
    parseCacheControl ci "public, max-age=60,s-maxage=x, no-cache=a, private"
      None 0 = Ok ci'
    /\ no_cache ci' = false /\ no_store ci' = false /\ private_ ci' = true
    /\ freshness_lifetime ci' = seconds 60.
Proof.
  intros ci.
  destruct (parseCacheControl_directives ci
              [(EmptyString, "public"); (" ", "max-age=60");
               (EmptyString, "s-maxage=x"); (" ", "no-cache=a");
               (" ", "private")] None 0)
    as (ci' & Hrun & Hnc & Hns & Hpr & Hfl).
  - repeat constructor.
  - exists ci'. split; [exact Hrun|].
    split.
    { destruct (no_cache ci'); [|reflexivity].
      assert (Hin : "no-cache" ∈ ["public"; "max-age=60"; "s-maxage=x";
                                  "no-cache=a"; "private"])
        by now apply Hnc.
      apply list_elem_of_In in Hin. simpl in Hin.
      intuition discriminate. }
    split.
    { destruct (no_store ci'); [|reflexivity].
      assert (Hin : "no-store" ∈ ["public"; "max-age=60"; "s-maxage=x";
                                  "no-cache=a"; "private"])
        by now apply Hns.
      apply list_elem_of_In in Hin. simpl in Hin.
      intuition discriminate. }
    split.
    { apply Hpr. apply list_elem_of_In. simpl. tauto. }
    exact Hfl.
Defined.

(** ** Delta-seconds *)

Lemma digit_value_10 c :
  digit_value 10 c = if isdigit c then Some (char_code c - 48) else None.
Proof. unfold digit_value. now destruct (isdigit c). Qed.

Lemma digits_run_nonneg s : forall acc n,
  0 <= acc -> 0 <= (digits_run 10 s acc n).1.
Proof.
  induction s as [|c s IH]; intros acc n Hacc; simpl; [assumption|].
  rewrite digit_value_10. destruct (isdigit c) eqn:Hc; [|assumption].
  apply IH. unfold isdigit in Hc. lia.
Qed.

Lemma digits_run_decimal s : forall acc n v,
  decimal_from acc s = Some v ->
  digits_run 10 s acc n = (v, (n + String.length s)%nat).
Proof.
  induction s as [|c s IH]; intros acc n v; simpl.
  - intros [= <-]. f_equal. lia.
  - rewrite digit_value_10. destruct (isdigit c); [|discriminate].
    intros Hv. rewrite (IH _ _ _ Hv). f_equal. lia.
Qed.

Lemma strip_sign_digit c s :
  isdigit c = true -> strip_sign (String c s) = (false, String c s).
Proof.
  intros Hc. unfold strip_sign.
  destruct c as [[] [] [] [] [] [] [] []]; try reflexivity; discriminate Hc.
Qed.

(** X9.  [parseDeltaSeconds] gives a number of seconds between 0 and
    [2^32 - 1], which is less than [2^63] clock ticks; a string of
    decimal digits gives its value when that is at most [2^32 - 1] and
    raises [ParseError] when it is larger. *)
Theorem parseDeltaSeconds_range (s : string) :
  (forall d,
     parseDeltaSeconds s = Ok d ->
     (exists n, d = seconds n /\ 0 <= n <= 2 ^ 32 - 1) /\ 0 <= d < 2 ^ 63)
  /\ (forall v,
        decimal_value s = Some v ->
        parseDeltaSeconds s
        = if v <=? 2 ^ 32 - 1 then Ok (seconds v)
          else Throw (ParseError "invalid delta-second format")).
Proof.
  split.
  - intros d. unfold parseDeltaSeconds, try_lexical_convert_uint32.
    destruct (strip_sign s) as [negative s1].
    pose proof (digits_run_nonneg s1 0 0 ltac:(lia)) as Hnn.
    destruct (digits_run 10 s1 0 0) as [v n]. simpl in Hnn.
    destruct ((n =? 0)%nat || negb (n =? String.length s1)%nat);
      [discriminate|].
    destruct (Z.gtb_spec v (2 ^ 32 - 1)) as [|Hle]; [discriminate|].
    intros [= <-].
    assert (Hn : 0 <= (if negative then (- v) mod 2 ^ 32 else v) <= 2 ^ 32 - 1).
    { destruct negative; [|lia].
      pose proof (Z.mod_pos_bound (- v) (2 ^ 32) ltac:(lia)). lia. }
    split; [eauto|]. unfold seconds, ticks_per_second. lia.
  - intros v. unfold decimal_value.
    destruct s as [|c s]; [discriminate|]. simpl String.eqb. cbv iota.
    intros Hv. unfold parseDeltaSeconds, try_lexical_convert_uint32.
    assert (Hc : isdigit c = true).
    { simpl in Hv. now destruct (isdigit c). }
    rewrite (strip_sign_digit _ _ Hc).
    rewrite (digits_run_decimal _ 0 0 v Hv). simpl Nat.add.
    replace ((String.length (String c s) =? 0)%nat) with false by reflexivity.
    rewrite Nat.eqb_refl. simpl orb. cbv iota.
    destruct (Z.gtb_spec v (2 ^ 32 - 1)) as [Hgt|Hle].
    + now replace (v <=? 2 ^ 32 - 1) with false by (symmetry; apply Z.leb_gt; lia).
    + now replace (v <=? 2 ^ 32 - 1) with true by (symmetry; apply Z.leb_le; lia).
Qed.

Lemma parseDeltaSeconds_range_witness :
  parseDeltaSeconds "4294967295" = Ok (seconds 4294967295)
  /\ parseDeltaSeconds "4294967296"
     = Throw (ParseError "invalid delta-second format").
Proof.
  split.
  - exact (proj2 (parseDeltaSeconds_range "4294967295") 4294967295 eq_refl).
  - exact (proj2 (parseDeltaSeconds_range "4294967296") 4294967296 eq_refl).
Defined.

(** ** The cache, continued *)

(** X10.  The direct-mapped cache: after [set] for a key, every key of
    the same slot reads that key and that value (the entry that was
    there is gone), and every key of another slot reads what it read
    before; the size stays.  A fresh cache reads the default key and
    value for every key, and an access to a cache of size 0 is
    undefined. *)
Theorem Cache_set_get {K V : Type} (hasher : K -> Z) (K0 : K) (V0 : V)
    (vec : list (Cache.Entry K V)) (k : K) (v : V) :
  (vec <> [] ->
   exists vec',
     Cache.Accessor_set hasher vec k v = Ok vec'
     /\ length vec' = length vec
     /\ (forall k',
           Cache.index hasher vec k' = Cache.index hasher vec k ->
           Cache.Accessor_get hasher vec' k' = Ok (k, v))
     /\ (forall k',
           Cache.index hasher vec k' <> Cache.index hasher vec k ->
           Cache.Accessor_get hasher vec' k'
           = Cache.Accessor_get hasher vec k'))
  /\ (forall size : nat,
        size <> 0%nat ->
        Cache.Accessor_get hasher (Cache.ctor K0 V0 size) k = Ok (K0, V0))
  /\ Cache.Accessor_get hasher ([] : list (Cache.Entry K V)) k = Undefined
  /\ Cache.Accessor_set hasher [] k v = Undefined.
Proof.
  assert (Hindex : forall (l : list (Cache.Entry K V)) k',
            l <> [] -> (Cache.index hasher l k' < length l)%nat).
  { intros l k' Hl. unfold Cache.index.
    assert (0 < Z.of_nat (length l)) by (destruct l; [congruence | simpl; lia]).
    pose proof (Z.mod_pos_bound (hasher k') (Z.of_nat (length l)) ltac:(lia)).
    lia. }
  split; [|split; [|split; reflexivity]].
  - intros Hvec. pose proof (Hindex vec k Hvec) as Hk.
    destruct (lookup_lt_is_Some_2 vec _ Hk) as [e He].
    unfold Cache.Accessor_set, Cache.getEntry. rewrite He. simpl.
    eexists. split; [reflexivity|].
    split; [apply length_insert|].
    assert (Hsame : forall k',
              Cache.index hasher (<[Cache.index hasher vec k
                                     := Cache.mkEntry k v]> vec) k'
              = Cache.index hasher vec k').
    { intros k'. unfold Cache.index. now rewrite length_insert. }
    split.
    + intros k' Hk'. unfold Cache.Accessor_get, Cache.getEntry.
      rewrite Hsame, Hk'. now rewrite list_lookup_insert_eq.
    + intros k' Hk'. unfold Cache.Accessor_get, Cache.getEntry.
      rewrite Hsame. now rewrite list_lookup_insert_ne.
  - intros size Hsize. unfold Cache.Accessor_get, Cache.getEntry, Cache.ctor.
    assert (Hnn : replicate size (Cache.mkEntry K0 V0) <> [])
      by (destruct size; [congruence | discriminate]).
    pose proof (Hindex _ k Hnn) as Hk. rewrite length_replicate in Hk.
    now rewrite lookup_replicate_2.
Qed.

Lemma Cache_set_get_witness :
  let hasher := fun k : Z => k in
  let vec := Cache.ctor 0 false 4 in
  exists vec',
    Cache.Accessor_set hasher vec 6 true = Ok vec'
    /\ Cache.Accessor_get hasher vec' 6 = Ok (6, true)
    /\ Cache.Accessor_get hasher vec' 2 = Ok (6, true)
    /\ Cache.Accessor_get hasher vec' 3 = Ok (0, false).
Proof.
  intros hasher vec.
  destruct (Cache_set_get hasher 0 false vec 6 true) as (Hset & _).
  destruct (Cache_set_get hasher 0 false vec 3 true) as (_ & Hfresh & _).
  destruct Hset as (vec' & Hrun & _ & Hsame & Hother); [discriminate|].
  exists vec'. split; [exact Hrun|].
  split; [now apply Hsame|]. split; [now apply Hsame|].
  rewrite Hother by (vm_compute; discriminate).
  apply Hfresh. discriminate.
Defined.

(** ** The half-connections, continued *)

Section ConnectionFacts.
Context `{Runtime}.

Lemma slot_of_length (cache cache' : Server.cache_type) url :
  length cache' = length cache -> slot_of cache' url = slot_of cache url.
Proof. unfold slot_of, Cache.index. now intros ->. Qed.

Lemma bind_Ok {A B : Type} (a : A) (k : A -> result B) :
  (x ← Ok a; k x) = k a.
Proof. reflexivity. Qed.

(** A [Respond] outcome of [ClientConnection::on_read_done] comes from a
    request that is not [no-cache]. *)
Lemma respond_request_not_no_cache
    (cache : Server.cache_type) (p : HttpParser) (rci : RequestCacheInfo)
    (now : Z) (tunneling : bool) (response : HttpMessage) :
  ClientConnection_on_read_done cache p rci now
  = Ok (tunneling, Respond response) ->
  exists ci, parseRequestCacheInfo p rci = Ok ci /\ rq_no_cache ci = false.
Proof.
  intros Hrun. unfold ClientConnection_on_read_done in Hrun.
  destruct (negb (check_protocol (startLine2 (message p)))); [discriminate|].
  destruct (parseRequestCacheInfo p rci) as [ci| |]; [|discriminate..].
  exists ci. split; [reflexivity|].
  rewrite bind_Ok in Hrun.
  destruct (if (startLine0 (message p) =? "GET")%string then _ else _)
    as [[item|]| |]; try discriminate.
  rewrite bind_Ok, check_cached_spec in Hrun.
  destruct (needs_validation ci (Server.info item) now) eqn:Hnv;
    [discriminate|].
  unfold needs_validation in Hnv.
  now apply orb_false_iff in Hnv as [[Hrq _]%orb_false_iff _].
Qed.

(** X11.  A response that [ClientConnection::on_read_done] takes from the
    cache answers a GET, is the message of the item in the slot of the
    request URL, and that slot has the URL as its key; the request does
    not say [no-cache], the item is not marked [no-cache], and its
    current age, as [current_age] computes it in 64-bit counts, is below
    its freshness lifetime.  So the proxy never answers with an entry
    kept for another URL; and when the time since the response was read
    and its sum with the corrected initial age fit a 64-bit count, the
    age of the item is below its freshness lifetime. *)
Theorem served_from_cache_sound
    (cache : Server.cache_type) (p : HttpParser) (rci : RequestCacheInfo)
    (now : Z) (tunneling : bool) (response : HttpMessage) :
  ClientConnection_on_read_done cache p rci now
  = Ok (tunneling, Respond response) ->
  let m := message p in
  startLine0 m = "GET"
  /\ tunneling = false
  /\ check_protocol (startLine2 m) = true
  /\ exists e item ci,
       cache !! slot_of cache (startLine1 m) = Some e
       /\ Cache.key e = startLine1 m
       /\ Cache.value e = Some item
       /\ response = Server.message item
       /\ parseRequestCacheInfo p rci = Ok ci
       /\ rq_no_cache ci = false
       /\ no_cache (Server.info item) = false
       /\ current_age (Server.info item) now
          < freshness_lifetime (Server.info item)
       /\ (let resident_time := now - response_time (Server.info item) in
           in_int64 resident_time ->
           in_int64 (corrected_initial_age (Server.info item)
                     + resident_time) ->
           corrected_initial_age (Server.info item) + resident_time
           < freshness_lifetime (Server.info item)).
Proof.
  intros Hrun m. unfold ClientConnection_on_read_done in Hrun. fold m in Hrun.
  destruct (check_protocol (startLine2 m)) eqn:Hproto; [|discriminate].
  simpl negb in Hrun. cbv iota in Hrun.
  destruct (parseRequestCacheInfo p rci) as [ci| |] eqn:Hci;
    [|discriminate..].
  simpl in Hrun.
  destruct (String.eqb_spec (startLine0 m) "GET") as [Hget|Hget].
  2:{ simpl in Hrun. discriminate. }
  unfold cache_get, Cache.Accessor_get, Cache.getEntry in Hrun.
  fold (slot_of cache (startLine1 m)) in Hrun.
  destruct (cache !! slot_of cache (startLine1 m)) as [e|] eqn:He;
    [|discriminate].
  simpl in Hrun.
  destruct (Cache.value e) as [item|] eqn:Hv; [|discriminate].
  destruct (String.eqb_spec (Cache.key e) (startLine1 m)) as [Hk|Hk];
    [|discriminate].
  simpl in Hrun. rewrite check_cached_spec in Hrun.
  destruct (needs_validation ci (Server.info item) now) eqn:Hnv;
    [discriminate|].
  injection Hrun as <- <-.
  unfold needs_validation in Hnv.
  apply orb_false_iff in Hnv as [[Hrq Hnc]%orb_false_iff Hage].
  rewrite Z.geb_leb in Hage; apply Z.leb_gt in Hage.
  rewrite Hget. repeat split; try reflexivity.
  exists e, item, ci. repeat split; try assumption.
  intros resident_time Hres Hsum. unfold current_age in Hage.
  fold resident_time in Hage.
  now rewrite (int64_in _ Hres), (int64_in _ Hsum) in Hage.
Qed.

(** The loop of the request's [parseCacheControl] on a list of fields. *)
Lemma parseRequestCacheControl_loop_at_end fuel b nc :
  parseRequestCacheControl_loop fuel (mkIstream EmptyString b true) nc = nc.
Proof. destruct fuel; [reflexivity|]. simpl. now destruct b. Qed.

Lemma parseRequestCacheControl_loop_directives ds : forall fuel nc,
  Forall wf_directive ds ->
  (String.length (write_directives ds) < fuel)%nat ->
  parseRequestCacheControl_loop fuel (istream_of (write_directives ds)) nc
  = fold_left (fun nc field => if (field =? "no-cache")%string then true
                               else nc) ds.*2 nc.
Proof.
  induction ds as [|[w f] ds IH]; intros fuel nc Hwf Hfuel.
  - destruct fuel; reflexivity.
  - apply Forall_cons in Hwf as [Hd Hwf].
    destruct fuel as [|fuel]; [lia|].
    simpl write_directives in *. simpl fmap. simpl fold_left.
    destruct ds as [|d ds].
    + rewrite append_empty_r in *. simpl parseRequestCacheControl_loop.
      rewrite (next_field_last _ _ Hd). simpl failbit.
      destruct f as [|c f]; [reflexivity|]. simpl String.eqb at 1. cbv iota.
      apply parseRequestCacheControl_loop_at_end.
    + simpl parseRequestCacheControl_loop.
      rewrite (next_field_comma _ _ _ Hd). simpl failbit. cbv iota.
      apply IH; [assumption|].
      set (x := write_directives (d :: ds)) in *.
      rewrite !length_append in Hfuel. simpl in Hfuel. lia.
Qed.

Lemma fold_request_no_cache fs : forall nc,
  fold_left (fun nc field => if (field =? "no-cache")%string then true
                             else nc) fs nc = true
  <-> nc = true \/ "no-cache" ∈ fs.
Proof.
  induction fs as [|f fs IH]; intros nc; simpl.
  - rewrite elem_of_nil. tauto.
  - rewrite IH, elem_of_cons.
    destruct (String.eqb_spec f "no-cache") as [->|Hf].
    + tauto.
    + intuition congruence.
Qed.

Lemma scan_request_header_other h ci :
  key h <> "Cache-Control" ->
  exists ci',
    catch_ParseError (scan_request_header h ci) ci = Ok ci'
    /\ rq_no_cache ci' = rq_no_cache ci.
Proof.
  intros Hk. apply String.eqb_neq in Hk.
  unfold scan_request_header. rewrite Hk, parse_date_cases.
  destruct (key h =? "If-Modified-Since")%string;
    [destruct (date_of (value h)); simpl; eauto|].
  destruct (key h =? "If-None-Match")%string; simpl; eauto.
Qed.

Lemma scan_request_headers_other hs : forall ci,
  Forall (fun h => key h <> "Cache-Control") hs ->
  exists ci',
    scan_request_headers hs ci = Ok ci'
    /\ rq_no_cache ci' = rq_no_cache ci.
Proof.
  induction hs as [|h hs IH]; intros ci Hhs; simpl; [eauto|].
  apply Forall_cons in Hhs as [Hh Hhs].
  destruct (scan_request_header_other h ci Hh) as (ci1 & -> & H1).
  simpl. destruct (IH ci1 Hhs) as (ci' & -> & H2).
  exists ci'. split; [reflexivity|congruence].
Qed.

Lemma scan_request_headers_app hs1 : forall hs2 ci,
  scan_request_headers (hs1 ++ hs2) ci
  = (ci1 ← scan_request_headers hs1 ci; scan_request_headers hs2 ci1).
Proof.
  induction hs1 as [|h hs1 IH]; intros hs2 ci; simpl; [reflexivity|].
  destruct (catch_ParseError (scan_request_header h ci) ci); simpl;
    [apply IH|reflexivity..].
Qed.

Lemma scan_request_headers_cache_control v hs ci :
  scan_request_headers (mkHeader "Cache-Control" v :: hs) ci
  = scan_request_headers hs (parseRequestCacheControl ci v).
Proof. reflexivity. Qed.

(** X12.  Of the [Cache-Control] headers of a request the last one
    decides: when its value is a list of fields, the request counts as
    [no-cache] exactly when the field [no-cache] is in that list, and
    then [ClientConnection::on_read_done] does not answer it from the
    cache, whatever the cache holds.  A request without [Cache-Control]
    header does not count as [no-cache], whatever the
    [RequestCacheInfo] said before. *)
Theorem request_no_cache_decided_by_last_header
    (cache : Server.cache_type) (p : HttpParser) (rci : RequestCacheInfo)
    (now : Z) :
  (forall hs1 hs2 ds,
     headerLines (message p)
     = hs1 ++ mkHeader "Cache-Control" (write_directives ds) :: hs2 ->
     Forall (fun h => key h <> "Cache-Control") hs2 ->
     Forall wf_directive ds ->
     exists ci,
       parseRequestCacheInfo p rci = Ok ci
       /\ (rq_no_cache ci = true <-> "no-cache" ∈ ds.*2)
       /\ ("no-cache" ∈ ds.*2 ->
           forall tunneling response,
             ClientConnection_on_read_done cache p rci now
             <> Ok (tunneling, Respond response)))
  /\ (Forall (fun h => key h <> "Cache-Control") (headerLines (message p)) ->
      exists ci,
        parseRequestCacheInfo p rci = Ok ci /\ rq_no_cache ci = false).
Proof.
  split.
  - intros hs1 hs2 ds Hhs Hhs2 Hwf.
    unfold parseRequestCacheInfo. rewrite Hhs, scan_request_headers_app.
    destruct (scan_request_headers_total hs1
                (mkRequestCacheInfo (if_modified_since rci)
                   (if_none_match rci) false)) as (ci1 & Hci1).
    rewrite Hci1, bind_Ok, scan_request_headers_cache_control.
    destruct (scan_request_headers_other hs2
                (parseRequestCacheControl ci1 (write_directives ds)) Hhs2)
      as (ci & Hci & Hnc).
    exists ci. split; [exact Hci|].
    assert (Hiff : rq_no_cache ci = true <-> "no-cache" ∈ ds.*2).
    { rewrite Hnc. unfold parseRequestCacheControl. cbn [rq_no_cache].
      rewrite (parseRequestCacheControl_loop_directives ds _ _ Hwf) by lia.
      rewrite fold_request_no_cache. intuition discriminate. }
    split; [exact Hiff|].
    intros Hin tunneling response Hrun.
    apply respond_request_not_no_cache in Hrun as (ci' & Hci' & Hrq).
    unfold parseRequestCacheInfo in Hci'.
    rewrite Hhs, scan_request_headers_app, Hci1 in Hci'.
    rewrite bind_Ok, scan_request_headers_cache_control in Hci'.
    apply Hiff in Hin. congruence.
  - intros Hhs. unfold parseRequestCacheInfo.
    destruct (scan_request_headers_other _
                (mkRequestCacheInfo (if_modified_since rci)
                   (if_none_match rci) false) Hhs) as (ci & Hci & Hnc).
    exists ci. split; [exact Hci|exact Hnc].
Qed.

Lemma slot_is_Some (cache : Server.cache_type) url :
  cache <> [] -> is_Some (cache !! slot_of cache url).
Proof.
  intros Hc. apply lookup_lt_is_Some_2. unfold slot_of, Cache.index.
  assert (0 < Z.of_nat (length cache))
    by (destruct cache; [congruence | simpl; lia]).
  pose proof (Z.mod_pos_bound (hasher url) (Z.of_nat (length cache))
                ltac:(lia)).
  lia.
Qed.

Lemma cache_get_Ok (cache : Server.cache_type) url k v :
  cache_get cache url = Ok (k, v) ->
  exists e, cache !! slot_of cache url = Some e
            /\ Cache.key e = k /\ Cache.value e = v.
Proof.
  unfold cache_get, Cache.Accessor_get, Cache.getEntry, slot_of.
  destruct (cache !! Cache.index hasher cache url) as [e|]; [|discriminate].
  intros [= <- <-]. eauto.
Qed.

Lemma cache_get_not_Throw (cache : Server.cache_type) url e :
  cache_get cache url <> Throw e.
Proof.
  unfold cache_get, Cache.Accessor_get, Cache.getEntry.
  now destruct (cache !! Cache.index hasher cache url).
Qed.

(** What [store_cache] does to the cache, whatever the slot holds. *)
Lemma store_cache_Ok cache rc status ci stored cache' :
  store_cache cache rc status ci = Ok (stored, cache') ->
  exists e,
    cache !! slot_of cache (request_url rc) = Some e
    /\ (stored = false -> cache' = cache)
    /\ (stored = true ->
        exists item,
          cache' = <[slot_of cache (request_url rc) :=
                       Cache.mkEntry (request_url rc) (Some item)]> cache
          /\ Server.info item = ci
          /\ (status = "200" -> Server.message item = message (parser rc))
          /\ (status <> "200" ->
              exists old,
                Cache.key e = request_url rc /\ Cache.value e = Some old
                /\ item = revalidated old (message (parser rc)) ci)).
Proof.
  intros Hrun.
  destruct (cache !! slot_of cache (request_url rc)) as [e|] eqn:He.
  2:{ unfold store_cache, cache_get, Cache.Accessor_get, Cache.getEntry in Hrun.
      unfold slot_of in He. now rewrite He in Hrun. }
  exists e. split; [reflexivity|].
  destruct (String.eqb_spec status "200") as [->|Hs].
  - rewrite (store_cache_200 _ _ _ _ He) in Hrun. injection Hrun as <- <-.
    split; [discriminate|]. intros _. eexists. split; [reflexivity|].
    split; [reflexivity|]. split; [reflexivity|]. congruence.
  - destruct (String.eqb_spec (Cache.key e) (request_url rc)) as [Hk|Hk].
    + destruct (Cache.value e) as [old|] eqn:Hv.
      * rewrite (store_cache_match _ _ _ _ _ _ He Hs Hk Hv) in Hrun.
        injection Hrun as <- <-. split; [discriminate|]. intros _.
        eexists. rewrite Hk. split; [reflexivity|].
        split; [reflexivity|]. split; [congruence|]. eauto.
      * now rewrite (store_cache_null _ _ _ _ _ He Hs Hk Hv) in Hrun.
    + rewrite (store_cache_mismatch _ _ _ _ _ He Hs Hk) in Hrun.
      injection Hrun as <- <-. split; [reflexivity|discriminate].
Qed.

Lemma is_cacheable_Ok rc request_method status ci now ci' :
  is_cacheable rc request_method status ci now = Ok (true, ci') ->
  request_method = "GET"
  /\ (status = "200" \/ status = "304")
  /\ size (body (message (parser rc))) <= MAX_CACHEABLE_BODYSIZE
  /\ parseResponseCacheInfo (parser rc) ci (rc_request_time rc)
       (rc_response_time rc) now = Ok (true, ci')
  /\ no_store ci' = false /\ private_ ci' = false.
Proof.
  unfold is_cacheable.
  destruct (String.eqb_spec request_method "GET") as [Hm|Hm];
    [|discriminate].
  simpl negb. cbv iota.
  destruct (String.eqb_spec status "200") as [H200|H200];
    destruct (String.eqb_spec status "304") as [H304|H304];
    simpl negb; simpl andb; cbv iota; try discriminate.
  all: destruct (Z.gtb_spec (size (body (message (parser rc))))
                   MAX_CACHEABLE_BODYSIZE) as [Hsz|Hsz]; [discriminate|].
  all: destruct (parseResponseCacheInfo (parser rc) ci (rc_request_time rc)
                   (rc_response_time rc) now) as [[ok c]| |]; try discriminate.
  all: simpl; destruct ok; simpl; [|discriminate].
  all: destruct (no_store c) eqn:Hns, (private_ c) eqn:Hpr; simpl;
    try discriminate.
  all: intros [= <-]; repeat split; auto.
Qed.

Lemma is_cacheable_not_Throw rc request_method status ci now e :
  is_cacheable rc request_method status ci now <> Throw e.
Proof.
  destruct (is_cacheable_iff rc request_method status ci now)
    as (ok & ci' & -> & _).
  discriminate.
Qed.

Lemma parseResponseCacheInfo_times p ci req resp now ci' :
  parseResponseCacheInfo p ci req resp now = Ok (true, ci') ->
  request_time ci' = req /\ response_time ci' = resp.
Proof.
  unfold parseResponseCacheInfo.
  rewrite scan_response_headers_fold, bind_Ok.
  destruct (scan_date_value _) as [d|]; [|discriminate].
  match goal with
  | |- context [parseCacheControl ?c ?cc ?e now] =>
      destruct (parseCacheControl_total c cc e now)
        as (c' & -> & _ & Hreq & Hresp & _)
  end.
  rewrite bind_Ok. intros [= <-]. now rewrite Hreq, Hresp.
Qed.

(** X13.  What [RemoteConnection::on_read_done] stores is what the next
    request gets.  When the handler reports the response as cached, the
    slot of the request URL holds the URL and an item made of the
    response itself (status 200), or of the start line and the body of
    the item that was there with the header lines of the response
    (otherwise); the age of the item counts, in 64-bit arithmetic, from
    the time the response was read.  A later GET for that URL with a supported protocol is
    answered by [ClientConnection::on_read_done] with the message of
    that item, unless the item needs validation, in which case the
    request is forwarded with the validators of the item. *)
Theorem stored_response_is_served
    (cache : Server.cache_type) (rc : RemoteConnection)
    (request_method : string) (ci : ResponseCacheInfo) (now now' : Z)
    (out : RemoteOutcome)
    (p : HttpParser) (rci : RequestCacheInfo) (later : Z) :
  let response := message (parser rc) in
  let m := message p in
  let slot := slot_of cache (request_url rc) in
  RemoteConnection_on_read_done cache rc request_method ci now now' = Ok out ->
  cached out = true ->
  startLine0 m = "GET" ->
  startLine1 m = request_url rc ->
  check_protocol (startLine2 m) = true ->
  exists item rci',
    cache_after out !! slot
    = Some (Cache.mkEntry (request_url rc) (Some item))
    /\ (startLine1 response = "200" -> Server.message item = response)
    /\ (startLine1 response <> "200" ->
        exists e old,
          cache !! slot = Some e /\ Cache.key e = request_url rc
          /\ Cache.value e = Some old
          /\ Server.message item
             = mkHttpMessage (startLine (Server.message old))
                 (headerLines response) (body (Server.message old)))
    /\ current_age (Server.info item) later
       = int64 (corrected_initial_age (Server.info item)
                + int64 (later - now))
    /\ parseRequestCacheInfo p rci = Ok rci'
    /\ ClientConnection_on_read_done (cache_after out) p rci later
       = Ok (false,
             if needs_validation rci' (Server.info item) later
             then Fetch (mkHttpMessage (startLine m)
                           (revalidation_headers (headerLines m)
                              (Server.info item))
                           (body m))
             else Respond (Server.message item)).
Proof.
  intros response m slot Hrun Hcached Hget Hurl Hproto.
  unfold RemoteConnection_on_read_done in Hrun. fold response in Hrun.
  destruct (negb (check_protocol (startLine0 response)));
    [injection Hrun as <-; discriminate Hcached|].
  destruct (bool_decide (state (parser rc) = START)
            || bool_decide (state (parser rc) = HEADER));
    [injection Hrun as <-; discriminate Hcached|].
  set (rc' := mkRemoteConnection (parser rc) (request_url rc)
                (request_host rc) (rc_request_time rc) now) in Hrun.
  destruct (is_cacheable rc' request_method (startLine1 response) ci now')
    as [[ok ci']| |] eqn:Hic; [|discriminate..].
  rewrite bind_Ok in Hrun.
  destruct ok; [|injection Hrun as <-; discriminate Hcached].
  destruct (store_cache cache rc' (startLine1 response) ci')
    as [[stored cache']| |] eqn:Hst; [|discriminate..].
  rewrite bind_Ok in Hrun. injection Hrun as <-.
  simpl in Hcached. subst stored. simpl cache_after.
  apply store_cache_Ok in Hst as (e & He & _ & Hstored).
  destruct (Hstored eq_refl) as (item & -> & Hinfo & H200 & H304).
  simpl request_url in *. simpl parser in *. fold response in H200, H304.
  fold slot in He |- *.
  apply is_cacheable_Ok in Hic as (_ & _ & _ & Hparse & _).
  apply parseResponseCacheInfo_times in Hparse as [_ Hresp].
  simpl in Hresp.
  destruct (scan_request_headers_total (headerLines m)
              (mkRequestCacheInfo (if_modified_since rci)
                 (if_none_match rci) false)) as (rci' & Hrci).
  assert (Hslot : <[slot := Cache.mkEntry (request_url rc) (Some item)]> cache
                  !! slot
                  = Some (Cache.mkEntry (request_url rc) (Some item))).
  { apply list_lookup_insert_eq. now apply lookup_lt_Some in He. }
  exists item, rci'. split; [exact Hslot|].
  split; [exact H200|].
  split.
  { intros Hs. destruct (H304 Hs) as (old & Hk & Hv & ->).
    exists e, old. repeat split; assumption. }
  split.
  { unfold current_age. rewrite Hinfo, Hresp. reflexivity. }
  split; [exact Hrci|].
  unfold ClientConnection_on_read_done. fold m.
  rewrite Hproto. simpl negb. cbv iota.
  unfold parseRequestCacheInfo. fold m. rewrite Hrci, bind_Ok.
  rewrite Hget. simpl String.eqb. cbv iota.
  rewrite Hurl.
  rewrite (cache_get_slot _ _ (Cache.mkEntry (request_url rc) (Some item))).
  2:{ rewrite (slot_of_length cache) by apply length_insert.
      exact Hslot. }
  simpl. rewrite String.eqb_refl. simpl.
  rewrite check_cached_spec.
  now destruct (needs_validation rci' (Server.info item) later).
Qed.

(** X14.  [RemoteConnection::on_read_done] answers the client with the
    response as it was parsed, or with the 502 message: 502 when the
    protocol of the response is not HTTP/1.0 or HTTP/1.1 or the parser
    did not get past the header lines, and then the cache is left as it
    was.  In every case the cache keeps its size, entries in other slots
    than the one of the request URL read as before, and a response to a
    request that is not a GET changes nothing. *)
Theorem remote_response_relayed_or_502
    (cache : Server.cache_type) (rc : RemoteConnection)
    (request_method : string) (ci : ResponseCacheInfo) (now now' : Z)
    (out : RemoteOutcome) :
  let response := message (parser rc) in
  RemoteConnection_on_read_done cache rc request_method ci now now' = Ok out ->
  (check_protocol (startLine0 response) = false
   \/ state (parser rc) = START \/ state (parser rc) = HEADER ->
   out = mkRemoteOutcome HTTP502 false cache)
  /\ (check_protocol (startLine0 response) = true ->
      state (parser rc) = BODY \/ state (parser rc) = ACCEPT ->
      to_client out = response)
  /\ length (cache_after out) = length cache
  /\ (forall url,
        slot_of cache url <> slot_of cache (request_url rc) ->
        cache_get (cache_after out) url = cache_get cache url)
  /\ (cached out = false -> cache_after out = cache)
  /\ (request_method <> "GET" -> cache_after out = cache).
Proof.
  intros response Hrun.
  unfold RemoteConnection_on_read_done in Hrun. fold response in Hrun.
  destruct (check_protocol (startLine0 response)) eqn:Hproto; simpl in Hrun.
  2:{ injection Hrun as <-. simpl. repeat split; auto; discriminate. }
  destruct (state (parser rc)) eqn:Hstate; simpl in Hrun;
    try (injection Hrun as <-; simpl;
         repeat split; auto;
         intros; intuition discriminate).
  all: set (rc' := mkRemoteConnection (parser rc) (request_url rc)
                     (request_host rc) (rc_request_time rc) now) in Hrun.
  all: destruct (is_cacheable rc' request_method (startLine1 response)
                   ci now') as [[ok ci']| |] eqn:Hic; [|discriminate..].
  all: rewrite bind_Ok in Hrun.
  all: destruct ok;
    [|injection Hrun as <-; simpl; repeat split; auto;
      intros; intuition discriminate].
  all: apply is_cacheable_Ok in Hic as (Hget & _).
  all: destruct (store_cache cache rc' (startLine1 response) ci')
         as [[stored cache']| |] eqn:Hst; [|discriminate..].
  all: rewrite bind_Ok in Hrun; injection Hrun as <-; simpl.
  all: apply store_cache_Ok in Hst as (e & He & Hno & Hyes).
  all: simpl request_url in *.
  all: assert (Hframe : length cache' = length cache
         /\ forall url,
              slot_of cache url <> slot_of cache (request_url rc) ->
              cache_get cache' url = cache_get cache url).
  1,3: destruct stored;
    [destruct (Hyes eq_refl) as (item & -> & _);
     split; [apply length_insert|];
     intros url Hne; unfold cache_get, Cache.Accessor_get, Cache.getEntry;
     fold (slot_of cache url);
     replace (Cache.index hasher (<[_ := _]> cache) url)
       with (slot_of cache url)
       by (unfold slot_of, Cache.index; now rewrite length_insert);
     rewrite list_lookup_insert_ne by congruence; reflexivity
    |rewrite (Hno eq_refl); split; [reflexivity|reflexivity]].
  all: destruct Hframe as [Hlen Hother].
  all: repeat split; auto; intros; try intuition discriminate;
    try contradiction.
Qed.

(** X15.  The exceptions of the two handlers.  No [ParseError] leaves
    them: one raised while the header lines are evaluated is caught where
    it is raised.  [ClientConnection::on_read_done] throws in one case:
    the [system_error] of [socket.remote_endpoint()] in its log entry,
    when the protocol is supported and the peer is no longer connected;
    [RemoteConnection::on_read_done] throws nothing.  (A failure to
    allocate memory is not modelled.)  On a cache with at least one slot
    [ClientConnection::on_read_done] comes to a decision whenever the
    peer is connected, and [RemoteConnection::on_read_done] does so
    except for one run: a cacheable 304 response to a GET for a URL equal
    to the key of a slot whose pointer is null, which [store_cache]
    dereferences. *)
Theorem on_read_done_exceptions
    (peer : option string)
    (cache : Server.cache_type) (p : HttpParser) (rci : RequestCacheInfo)
    (rc : RemoteConnection) (request_method : string)
    (ci : ResponseCacheInfo) (now now' : Z) :
  (forall e,
     ClientConnection_on_read_done_logged peer cache p rci now = Throw e ->
     e = system_error /\ peer = None
     /\ check_protocol (startLine2 (message p)) = true)
  /\ (peer = None -> check_protocol (startLine2 (message p)) = true ->
      ClientConnection_on_read_done_logged peer cache p rci now
      = Throw system_error)
  /\ (forall e,
        RemoteConnection_on_read_done cache rc request_method ci now now'
        <> Throw e)
  /\ (cache <> [] -> peer <> None ->
      exists decision,
        ClientConnection_on_read_done_logged peer cache p rci now
        = Ok decision)
  /\ (cache <> [] ->
      (exists out,
         RemoteConnection_on_read_done cache rc request_method ci now now'
         = Ok out)
      \/ (exists e,
            cache !! slot_of cache (request_url rc) = Some e
            /\ Cache.key e = request_url rc /\ Cache.value e = None
            /\ request_method = "GET"
            /\ startLine1 (message (parser rc)) = "304")).
Proof.
  assert (Hclient :
            match ClientConnection_on_read_done cache p rci now with
            | Ok _ => True
            | Throw _ => False
            | Undefined => cache = []
            end).
  { unfold ClientConnection_on_read_done.
    destruct (negb (check_protocol (startLine2 (message p)))); [exact I|].
    unfold parseRequestCacheInfo.
    destruct (scan_request_headers_total (headerLines (message p))
                (mkRequestCacheInfo (if_modified_since rci)
                   (if_none_match rci) false)) as (rci' & ->).
    rewrite bind_Ok.
    destruct (startLine0 (message p) =? "GET")%string.
    - unfold cache_get, Cache.Accessor_get, Cache.getEntry.
      destruct (cache !! _) as [e|] eqn:He.
      + simpl. destruct (Cache.value e) as [item|]; simpl.
        * destruct (negb _); simpl; [exact I|].
          rewrite check_cached_spec.
          now destruct (needs_validation rci' (Server.info item) now).
        * exact I.
      + simpl. destruct cache as [|e0 cache]; [reflexivity|].
        destruct (slot_is_Some (e0 :: cache) (startLine1 (message p)))
          as [e He']; [discriminate|].
        unfold slot_of in He'. congruence.
    - simpl. exact I. }
  assert (Hremote :
            match RemoteConnection_on_read_done cache rc request_method ci
                    now now' with
            | Ok _ => True
            | Throw _ => False
            | Undefined =>
                cache = []
                \/ exists e,
                     cache !! slot_of cache (request_url rc) = Some e
                     /\ Cache.key e = request_url rc
                     /\ Cache.value e = None
                     /\ request_method = "GET"
                     /\ startLine1 (message (parser rc)) = "304"
            end).
  { unfold RemoteConnection_on_read_done.
    destruct (negb (check_protocol _)); [exact I|].
    destruct (bool_decide _ || bool_decide _); [exact I|].
    set (rc' := mkRemoteConnection (parser rc) (request_url rc)
                  (request_host rc) (rc_request_time rc) now).
    destruct (is_cacheable_iff rc' request_method
                (startLine1 (message (parser rc))) ci now')
      as (ok & ci' & Hic & _).
    rewrite Hic, bind_Ok. destruct ok; [|exact I].
    apply is_cacheable_Ok in Hic as (Hget & Hstatus & _).
    destruct (cache !! slot_of cache (request_url rc)) as [e|] eqn:He.
    - destruct (String.eqb_spec (startLine1 (message (parser rc))) "200")
        as [H200|H200].
      + rewrite H200, (store_cache_200 cache rc' ci' e He). exact I.
      + destruct Hstatus as [?|H304]; [contradiction|].
        destruct (String.eqb_spec (Cache.key e) (request_url rc)) as [Hk|Hk].
        * destruct (Cache.value e) as [old|] eqn:Hv.
          -- rewrite (store_cache_match cache rc' _ ci' e old He H200 Hk Hv).
             exact I.
          -- rewrite (store_cache_null cache rc' _ ci' e He H200 Hk Hv).
             right. exists e. auto.
        * rewrite (store_cache_mismatch cache rc' _ ci' e He H200 Hk).
          exact I.
    - unfold store_cache, cache_get, Cache.Accessor_get, Cache.getEntry.
      unfold slot_of in He. simpl request_url. rewrite He. simpl.
      left. destruct cache as [|e0 cache]; [reflexivity|].
      destruct (slot_is_Some (e0 :: cache) (request_url rc))
        as [e He']; [discriminate|].
      unfold slot_of in He'. congruence. }
  assert (Hlogged :
            ClientConnection_on_read_done_logged peer cache p rci now
            = if check_protocol (startLine2 (message p))
              then match peer with
                   | Some _ => ClientConnection_on_read_done cache p rci now
                   | None => Throw system_error
                   end
              else ClientConnection_on_read_done cache p rci now).
  { unfold ClientConnection_on_read_done_logged,
      ClientConnection_on_read_done.
    destruct (check_protocol (startLine2 (message p))); [|reflexivity].
    now destruct peer. }
  split; [|split; [|split; [|split]]].
  - intros e He. rewrite Hlogged in He.
    destruct (check_protocol (startLine2 (message p)));
      [|now rewrite He in Hclient].
    destruct peer; [now rewrite He in Hclient|].
    injection He as <-. auto.
  - intros -> Hproto. now rewrite Hlogged, Hproto.
  - intros e He. now rewrite He in Hremote.
  - intros Hc Hpeer. rewrite Hlogged.
    destruct (ClientConnection_on_read_done cache p rci now);
      [|contradiction..].
    destruct (check_protocol (startLine2 (message p))); [|eauto].
    destruct peer; [eauto | contradiction].
  - intros Hc.
    destruct (RemoteConnection_on_read_done cache rc request_method ci
                now now');
      [eauto | contradiction | destruct Hremote; [contradiction|eauto]].
Qed.

End ConnectionFacts.

Section ConnectionExamples.
#[local] Existing Instance UTC.runtime.

Lemma served_from_cache_sound_witness :
  let now := seconds (feb_28 + 50) in
  ClientConnection_on_read_done cache_x request_with_validators rci0 now
  = Ok (false, Respond (message response_200))
  /\ exists e item,
       cache_x !! slot_of cache_x origin_x = Some e
       /\ Cache.key e = origin_x
       /\ Cache.value e = Some item
       /\ message response_200 = Server.message item
       /\ no_cache (Server.info item) = false
       /\ current_age (Server.info item) now
          < freshness_lifetime (Server.info item).
Proof.
  intros now.
  assert (Hrun : ClientConnection_on_read_done cache_x
                   request_with_validators rci0 now
                 = Ok (false, Respond (message response_200)))
    by (vm_compute; reflexivity).
  split; [exact Hrun|].
  destruct (served_from_cache_sound cache_x request_with_validators rci0
              now false (message response_200) Hrun)
    as (_ & _ & _ & e & item & ci & He & Hk & Hv & Hm & _ & _ & Hnc & Hage
        & _).
  exists e, item. repeat split; assumption.
Defined.

Lemma request_no_cache_decided_by_last_header_witness :
  let p :=
    mkHttpParser
      (mkHttpMessage ("GET", origin_x, "HTTP/1.1")
         [mkHeader "Cache-Control" "max-age=600";
          mkHeader "Host" "origin";
          mkHeader "Cache-Control" "max-age=0, no-cache";
          mkHeader "Accept" "*/*"]
         EmptyString)
      ACCEPT PLAIN 0 in
  let now := seconds (feb_28 + 50) in
  (exists ci, parseRequestCacheInfo p rci0 = Ok ci /\ rq_no_cache ci = true)
  /\ forall tunneling response,
       ClientConnection_on_read_done cache_x p rci0 now
       <> Ok (tunneling, Respond response).
Proof.
  intros p now.
  destruct (request_no_cache_decided_by_last_header cache_x p rci0 now)
    as (Hlast & _).
  destruct (Hlast [mkHeader "Cache-Control" "max-age=600";
                   mkHeader "Host" "origin"]
              [mkHeader "Accept" "*/*"]
              [(EmptyString, "max-age=0"); (" ", "no-cache")])
    as (ci & Hci & Hiff & Hnever).
  - reflexivity.
  - repeat constructor. discriminate.
  - repeat constructor.
  - assert (Hin : "no-cache" ∈ ["max-age=0"; "no-cache"])
      by (apply list_elem_of_In; simpl; tauto).
    split; [exists ci; split; [exact Hci | now apply Hiff]|].
    now apply Hnever.
Defined.

Lemma stored_response_is_served_witness :
  let out := mkRemoteOutcome (message response_200) true cache_x in
  let later := seconds (feb_28 + 50) in
  RemoteConnection_on_read_done (cache_ctor 1) (remote response_200 origin_x)
    "GET" ci0 (seconds feb_28) (seconds feb_28) = Ok out
  /\ exists item rci',
       cache_x !! 0%nat = Some (Cache.mkEntry origin_x (Some item))
       /\ Server.message item = message response_200
       /\ current_age (Server.info item) later
          = int64 (corrected_initial_age (Server.info item)
                   + int64 (later - seconds feb_28))
       /\ ClientConnection_on_read_done cache_x request_with_validators
            rci0 later
          = Ok (false,
                if needs_validation rci' (Server.info item) later
                then Fetch
                       (mkHttpMessage
                          (startLine (message request_with_validators))
                          (revalidation_headers
                             (headerLines (message request_with_validators))
                             (Server.info item))
                          (body (message request_with_validators)))
                else Respond (Server.message item)).
Proof.
  intros out later.
  assert (Hrun : RemoteConnection_on_read_done (cache_ctor 1)
                   (remote response_200 origin_x) "GET" ci0
                   (seconds feb_28) (seconds feb_28) = Ok out)
    by (vm_compute; reflexivity).
  split; [exact Hrun|].
  destruct (stored_response_is_served (cache_ctor 1)
              (remote response_200 origin_x) "GET" ci0
              (seconds feb_28) (seconds feb_28) out
              request_with_validators rci0 later Hrun
              eq_refl eq_refl eq_refl eq_refl)
    as (item & rci' & Hslot & H200 & _ & Hage & _ & Hclient).
  exists item, rci'. split; [exact Hslot|].
  split; [exact (H200 eq_refl)|]. split; [exact Hage | exact Hclient].
Defined.

Lemma remote_response_relayed_or_502_witness :
  let truncated :=
    mkHttpParser (message response_200) HEADER LENGTH 3 in
  let now := seconds (feb_28 + 200) in
  RemoteConnection_on_read_done cache_x (remote truncated origin_x) "GET"
    ci0 now now
  = Ok (mkRemoteOutcome HTTP502 false cache_x)
  /\ exists out,
       RemoteConnection_on_read_done cache_y (remote response_304 origin_x)
         "GET" ci0 now now = Ok out
       /\ to_client out = message response_304
       /\ length (cache_after out) = 1%nat.
Proof.
  intros truncated now. split.
  - assert (Hrun : RemoteConnection_on_read_done cache_x
                     (remote truncated origin_x) "GET" ci0 now now
                   = Ok (mkRemoteOutcome HTTP502 false cache_x))
      by (vm_compute; reflexivity).
    exact Hrun.
  - assert (Hrun : RemoteConnection_on_read_done cache_y
                     (remote response_304 origin_x) "GET" ci0 now now
                   = Ok (mkRemoteOutcome (message response_304) false
                           cache_y))
      by (vm_compute; reflexivity).
    destruct (remote_response_relayed_or_502 cache_y
                (remote response_304 origin_x) "GET" ci0 now now _ Hrun)
      as (_ & Hrelay & Hlen & _).
    eexists. split; [exact Hrun|].
    split; [apply Hrelay; [reflexivity | right; reflexivity]|].
    exact Hlen.
Defined.

Lemma on_read_done_exceptions_witness :
  let now := seconds (feb_28 + 50) in
  ClientConnection_on_read_done_logged None cache_x request_with_validators
    rci0 now = Throw system_error
  /\ (exists decision,
        ClientConnection_on_read_done_logged (Some "192.0.2.1") cache_x
          request_with_validators rci0 now = Ok decision)
  /\ RemoteConnection_on_read_done (cache_ctor 1)
       (remote response_304 EmptyString) "GET" ci0 now now = Undefined.
Proof.
  intros now.
  destruct (on_read_done_exceptions None cache_x request_with_validators
              rci0 (remote response_304 EmptyString) "GET" ci0 now now)
    as (_ & Hgone & _).
  destruct (on_read_done_exceptions (Some "192.0.2.1") cache_x
              request_with_validators rci0
              (remote response_304 EmptyString) "GET" ci0 now now)
    as (_ & _ & _ & Hclient & _).
  split; [apply Hgone; reflexivity|].
  split; [apply Hclient; discriminate|].
  vm_compute. reflexivity.
Defined.

End ConnectionExamples.

(** ** The end of a body with [Content-Length] *)

(** X16.  Where a body framed by [Content-Length] ends.  For a written
    start line and header lines whose last one is [Content-Length: n]
    with [n > 0], for a message to which [hasBody] gives a body: when at
    least [n] characters follow the blank line, [parse] accepts with the
    first [n] of them as the body and leaves the others unread in the
    stream; when fewer follow, [appendBody] reads past the end of the
    buffer. *)
Theorem parse_content_length_body
    (sl : StartLine) (hs : list Header) (v : string) (n : Z)
    (received : string) (fuel : nat) :
  wf_start_line sl ->
  Forall wf_header hs -> Forall unframed hs ->
  wf_header (mkHeader "Content-Length" v) ->
  extract_size_t 10 v 0 = (true, n) ->
  0 < n <= string_max_size ->
  (is_response sl = true ->
   String.length sl.1.2 = 3%nat /\ bodyless_status sl.1.2 = false) ->
  (length hs + 4 <= fuel)%nat ->
  let headers := hs ++ [mkHeader "Content-Length" v] in
  let input :=
    write_StartLine sl +:+ CRLF +:+ write_headerLines headers
    +:+ CRLF +:+ received in
  size input < size_t_modulus ->
  parse fuel (HttpParser_ctor empty_message) (istream_of input)
  = if n <=? size received
    then Ok (mkHttpParser
               (mkHttpMessage sl headers (take_str (Z.to_nat n) received))
               ACCEPT LENGTH n,
             istream_of (drop_str (Z.to_nat n) received))
    else Undefined.
Proof.
  intros Hsl Hwf Hun Hv Hext Hn Hstatus Hfuel headers input Hsz.
  assert (exists k, fuel = S (length hs + S (S (S k)))) as [k ->]
    by (exists (fuel - length hs - 4)%nat; lia).
  remember (S k) as f1 eqn:E1. remember (S f1) as f2 eqn:E2.
  unfold input, headers in *.
  rewrite write_headerLines_app in *. simpl write_headerLines in *.
  assert (Hsizes :
    size (write_StartLine sl) < size_t_modulus - 1
    /\ size (write_headerLines hs) < size_t_modulus
    /\ size ("Content-Length" +:+ ": " +:+ v) < size_t_modulus - 1).
  { unfold size in *. rewrite ?length_append in *. simpl in *.
    rewrite ?length_append in *. simpl in *.
    rewrite ?length_append in *. simpl in *. lia. }
  destruct Hsizes as (Hsz1 & Hsz2 & Hsz3).
  match goal with |- parse _ _ (istream_of ?i) = _ =>
    replace i
      with (write_StartLine sl +:+ CRLF +:+ write_headerLines hs
            +:+ ("Content-Length" +:+ ": " +:+ v +:+ CRLF
                 +:+ (CRLF +:+ received)))
      by (now flatten_append)
  end.
  rewrite (parse_written_prefix _ _ _ _ Hsl Hwf Hun Hsz1 Hsz2).
  rewrite parse_S by (reflexivity || discriminate).
  unfold parseStep. simpl state. cbv iota.
  rewrite (putHeader_written _ (mkHeader "Content-Length" v) _ Hv Hsz3).
  unfold inspect_framing. simpl key. simpl value.
  replace ("Content-Length" =? "Content-Length")%string with true
    by reflexivity.
  rewrite (extract_size_t_true _ _ _ (contentLength _) _ Hext).
  replace (n >? string_max_size) with false
    by (symmetry; rewrite Z.gtb_ltb; apply Z.ltb_ge; lia).
  simpl.
  subst f2. rewrite parse_S by (reflexivity || discriminate).
  unfold parseStep. simpl state. cbv iota.
  rewrite putHeader_blank. subst f1.
  match goal with |- context [hasBody ?q] => set (p := q) end.
  assert (Hbody : hasBody p = Ok true).
  { destruct (is_response sl) eqn:Hresp.
    - destruct (Hstatus eq_refl) as [Hlen Hb].
      rewrite hasBody_response by (exact Hresp || exact Hlen).
      change (startLine1 (message p)) with sl.1.2. now rewrite Hb.
    - rewrite hasBody_request by exact Hresp.
      unfold framing_has_body.
      change (format p) with LENGTH. change (contentLength p) with n.
      rewrite bool_decide_eq_true_2 by reflexivity.
      replace (n >? 0) with true
        by (symmetry; rewrite Z.gtb_ltb; apply Z.ltb_lt; lia).
      reflexivity. }
  rewrite Hbody. simpl mbind.
  change (parse (S k) (set_state p BODY) (istream_of received) = 
          if n <=? size received
          then Ok (mkHttpParser
                     (mkHttpMessage sl (hs ++ [mkHeader "Content-Length" v])
                        (take_str (Z.to_nat n) received)) ACCEPT LENGTH n,
                   istream_of (drop_str (Z.to_nat n) received))
          else Undefined).
  rewrite parse_S by (reflexivity || discriminate).
  unfold parseStep, putContent, appendBody. simpl.
  destruct (n <=? size received); [|reflexivity].
  simpl. now rewrite parse_ACCEPT.
Qed.

Lemma parse_content_length_body_witness :
  let headers := [mkHeader "Host" "origin"; mkHeader "Content-Length" "3"] in
  parse 5 (HttpParser_ctor empty_message)
    (istream_of
       ("POST /form HTTP/1.1" +:+ CRLF +:+ write_headerLines headers
        +:+ CRLF +:+ "abcGET / HTTP/1.1"))
  = Ok (mkHttpParser
          (mkHttpMessage ("POST", "/form", "HTTP/1.1") headers "abc")
          ACCEPT LENGTH 3,
        istream_of "GET / HTTP/1.1")
  /\ parse 5 (HttpParser_ctor empty_message)
       (istream_of
          ("POST /form HTTP/1.1" +:+ CRLF +:+ write_headerLines headers
           +:+ CRLF +:+ "ab"))
     = Undefined.
Proof.
  intros headers.
  assert (Hhost : wf_header (mkHeader "Host" "origin"))
    by (repeat split; discriminate).
  assert (Hlen : wf_header (mkHeader "Content-Length" "3"))
    by (repeat split; discriminate).
  split.
  - apply (parse_content_length_body ("POST", "/form", "HTTP/1.1")
             [mkHeader "Host" "origin"] "3" 3 "abcGET / HTTP/1.1" 5).
    + repeat split.
    + repeat constructor; discriminate.
    + repeat constructor; discriminate.
    + exact Hlen.
    + reflexivity.
    + vm_compute. split; [reflexivity | discriminate].
    + discriminate.
    + simpl. lia.
    + vm_compute. reflexivity.
  - apply (parse_content_length_body ("POST", "/form", "HTTP/1.1")
             [mkHeader "Host" "origin"] "3" 3 "ab" 5).
    + repeat split.
    + repeat constructor; discriminate.
    + repeat constructor; discriminate.
    + exact Hlen.
    + reflexivity.
    + vm_compute. split; [reflexivity | discriminate].
    + discriminate.
    + simpl. lia.
    + vm_compute. reflexivity.
Defined.

(** ** The request that goes to the origin *)

(** X17.  [RemoteConnection::start_resolve] on a request whose target is
    an absolute URL [scheme host : port path]: the connection keeps the
    whole URL as [request_url] (the key under which the response is
    cached), asks the resolver for [host] and [port], and the request
    written to the origin has the path alone as its target ([/] for an
    empty path), with method, version, header lines and body as the
    client sent them.  On the target [host:port] of a CONNECT request the
    resolver is asked for that host and port. *)
Theorem start_resolve_absolute_url
    (m : HttpMessage) (pr : Protocol) (host port path : string) :
  free_of ":/" host = true ->
  free_of "/" port = true ->
  path = EmptyString \/ begins_with "/" path ->
  size (url_prefix pr +:+ host +:+ ":" +:+ port +:+ path) < size_t_modulus ->
  (pr <> NONE ->
   startLine1 m = url_prefix pr +:+ host +:+ ":" +:+ port +:+ path ->
   let request :=
     mkHttpMessage (startLine0 m, path_or_root path, startLine2 m)
       (headerLines m) (body m) in
   start_resolve m = (startLine1 m, host, request, (host, port))
   /\ forwarded_request m = request
   /\ write_HttpMessage (forwarded_request m)
      = startLine0 m +:+ " " +:+ path_or_root path +:+ " " +:+ startLine2 m
        +:+ CRLF +:+ write_headerLines (headerLines m) +:+ CRLF +:+ body m)
  /\ (startLine1 m = host +:+ ":" +:+ port ->
      (start_resolve m).2 = (host, port)
      /\ (start_resolve m).1.1.2 = host
      /\ (start_resolve m).1.1.1 = host +:+ ":" +:+ port).
Proof.
  intros Hh Hp Hpath Hsz. split.
  - intros Hpr Hurl request.
    assert (Hctor : HttpUrl_ctor (startLine1 m)
                    = mkHttpUrl pr host port (path_or_root path)).
    { rewrite Hurl.
      refine (proj1 (HttpUrl_ctor_parts pr _ host (":" +:+ port +:+ path) _
                       (url_scheme_prefix pr _ Hpr) Hh _ Hsz)
                port path eq_refl Hp Hpath).
      apply drop_str_append. }
    assert (Hres : start_resolve m
                   = (startLine1 m, host, request, (host, port))).
    { unfold start_resolve. now rewrite Hctor. }
    split; [exact Hres|].
    assert (Hfwd : forwarded_request m = request)
      by (unfold forwarded_request; now rewrite Hres).
    split; [exact Hfwd|].
    rewrite Hfwd. unfold write_HttpMessage, write_StartLine, request. simpl.
    now flatten_append.
  - intros Hurl.
    assert (Hsz' : size (host +:+ ":" +:+ port) < size_t_modulus).
    { unfold size in *. rewrite ?length_append in *. simpl in *.
      rewrite ?length_append in *. simpl in *. lia. }
    assert (Hctor : HttpUrl_ctor (startLine1 m)
                    = mkHttpUrl NONE host port "/").
    { rewrite Hurl.
      refine (proj1 (HttpUrl_ctor_parts NONE 0 host (":" +:+ port) _
                       (url_scheme_authority _ _ Hh Hp) Hh eq_refl Hsz')
                port EmptyString _ Hp (or_introl eq_refl)).
      now rewrite append_empty_r. }
    unfold start_resolve. rewrite Hctor. simpl. now rewrite Hurl.
Qed.

Lemma start_resolve_absolute_url_witness :
  let m :=
    mkHttpMessage ("GET", "http://origin:8080/x?y=1", "HTTP/1.1")
      [mkHeader "Host" "origin"] EmptyString in
  start_resolve m
  = ("http://origin:8080/x?y=1", "origin",
     mkHttpMessage ("GET", "/x?y=1", "HTTP/1.1")
       [mkHeader "Host" "origin"] EmptyString,
     ("origin", "8080"))
  /\ write_HttpMessage (forwarded_request m)
     = "GET /x?y=1 HTTP/1.1" +:+ CRLF +:+ "Host: origin" +:+ CRLF +:+ CRLF.
Proof.
  intros m.
  destruct (start_resolve_absolute_url m HTTP "origin" "8080" "/x?y=1")
    as (Habs & _).
  - reflexivity.
  - reflexivity.
  - right. eexists. reflexivity.
  - vm_compute. reflexivity.
  - destruct Habs as (Hres & _ & Hwritten); [discriminate | reflexivity |].
    split; [exact Hres | exact Hwritten].
Defined.
